(** * Naver blog crawler: progress store, entity store and crawl orchestrator

    A shallow embedding of the resumable crawl core of the repository
    ([src/config.py], [src/utils/helpers.py], [src/database/manager.py],
    [src/database/models.py] and the orchestrator part of [src/main.py]),
    followed by the properties established about it.

    Conventions of the embedding.
    - A Python dict with a fixed set of keys is a record whose fields are
      options: [None] is a key that is absent (or bound to Python's [None],
      which [dict.get] does not tell apart from absence).
    - The stage-status dict [steps_completed] is a finite map from stage names
      to status strings.
    - Python integers are [Z]; Python truthiness of strings and integers is
      written out ([truthy_str], [or_default_str], [or_zero]).
    - Functions that mutate a dict in place and return it are functions from
      the old document to the new one; the record a caller holds by reference
      is a position in the [blogs] list, read again at every use. *)

From stdpp Require Import base option list gmap strings.
From Stdlib Require Import ZArith Lia Ascii.

Local Open Scope string_scope.
Local Open Scope Z_scope.
Local Open Scope list_scope.

(** ** [src/config.py] *)

Module Status.
Definition PENDING : string := "pending".
Definition IN_PROGRESS : string := "in_progress".
Definition COMPLETED : string := "completed".
Definition UNAVAILABLE : string := "unavailable".
Definition DISABLED : string := "disabled".
Definition FAILED : string := "failed".
End Status.

Module CrawlStep.
Definition BLOG_INFO : string := "blog_info".
Definition POST_LIST : string := "post_list".
Definition POST_CONTENT : string := "post_content".
Definition REACTIONS : string := "reactions".
Definition COMMENTS : string := "comments".

Definition all_steps : list string :=
  [BLOG_INFO; POST_LIST; POST_CONTENT; REACTIONS; COMMENTS].
End CrawlStep.

(** ** Python values shared by the modules *)

(** Truthiness of an optional string argument: [None] and the empty string
    are falsy. *)
Definition truthy_str (s : option string) : bool :=
  match s with
  | Some (String _ _) => true
  | _ => false
  end.

(** [x or d] for an optional string. *)
Definition or_default_str (x : option string) (d : string) : string :=
  match x with
  | Some (String a s) => String a s
  | _ => d
  end.

(** [x or 0] for an optional integer: [None] and [0] both give [0]. *)
Definition or_zero (x : option Z) : Z :=
  match x with
  | Some n => n
  | None => 0
  end.

(** ** [src/utils/helpers.py]: the progress document *)

Module Helpers.

(** One element of [progress_data['blogs']]. *)
Record blog_record := BlogProgress {
  bp_blog_id : option string;
  bp_blog_name : option string;
  bp_status : option string;
  bp_total_posts : option Z;
  bp_current_post_index : option Z;
  bp_steps_completed : option (gmap string string)
}.

(** The whole document; [pd_blogs = None] is a document without the key
    ['blogs']. *)
Record progress_doc := ProgressData {
  pd_last_updated : option string;
  pd_blogs : option (list blog_record)
}.

(** [{'last_updated': None, 'blogs': []}] *)
Definition default_progress : progress_doc :=
  ProgressData None (Some []).

(** [progress_data.get('blogs', [])] *)
Definition blogs_of (progress_data : progress_doc) : list blog_record :=
  default [] (pd_blogs progress_data).

(** [blog.get('steps_completed', {})] *)
Definition steps_of (blog : blog_record) : gmap string string :=
  default ∅ (bp_steps_completed blog).

(** The inner loop of [has_incomplete_work]:
    [steps.get(step) in ['pending', 'in_progress']] for some step. *)
Fixpoint any_step_incomplete (steps : gmap string string)
    (all_steps : list string) : bool :=
  match all_steps with
  | [] => false
  | step :: rest =>
      if bool_decide (steps !! step = Some "pending")
         || bool_decide (steps !! step = Some "in_progress")
      then true
      else any_step_incomplete steps rest
  end.

Fixpoint has_incomplete_work_loop (blogs : list blog_record) : bool :=
  match blogs with
  | [] => false
  | blog :: rest =>
      if bool_decide (bp_status blog = Some "in_progress") then true
      else if any_step_incomplete (steps_of blog) CrawlStep.all_steps
      then true
      else has_incomplete_work_loop rest
  end.

Definition has_incomplete_work (progress_data : progress_doc) : bool :=
  has_incomplete_work_loop (blogs_of progress_data).

(** [get_blog_progress] returns the first record whose ['blog_id'] is
    [blog_id]. The caller receives the dict itself, not a copy; the position
    of that record in the list stands for the reference. *)
Fixpoint find_blog_index (blogs : list blog_record) (blog_id : string)
    : option nat :=
  match blogs with
  | [] => None
  | blog :: rest =>
      if bool_decide (bp_blog_id blog = Some blog_id) then Some 0%nat
      else S <$> find_blog_index rest blog_id
  end.

Definition get_blog_progress_ref (progress_data : progress_doc)
    (blog_id : string) : option nat :=
  find_blog_index (blogs_of progress_data) blog_id.

(** Reading through a reference. *)
Definition deref (progress_data : progress_doc) (ref : nat)
    : option blog_record :=
  blogs_of progress_data !! ref.

Definition get_blog_progress (progress_data : progress_doc)
    (blog_id : string) : option blog_record :=
  get_blog_progress_ref progress_data blog_id ≫= deref progress_data.

(** [{s: 'pending' for s in CrawlStep.all_steps()}] *)
Definition default_steps : gmap string string :=
  list_to_map ((λ s, (s, "pending")) <$> CrawlStep.all_steps).

(** The [else] branch of [update_blog_progress]: the assignments made to an
    existing record, in source order. *)
Definition merge_blog_progress (blog_progress : blog_record)
    (blog_name status : option string)
    (total_posts current_post_index : option Z)
    (step step_status : option string) : blog_record :=
  let name' :=
    if truthy_str blog_name then blog_name else bp_blog_name blog_progress in
  let status' :=
    if truthy_str status then status else bp_status blog_progress in
  let total' :=
    match total_posts with
    | Some n => Some n
    | None => bp_total_posts blog_progress
    end in
  let index' :=
    match current_post_index with
    | Some n => Some n
    | None => bp_current_post_index blog_progress
    end in
  let steps' :=
    match step, step_status with
    | Some (String a s), Some (String b t) =>
        Some (<[String a s := String b t]> (steps_of blog_progress))
    | _, _ => bp_steps_completed blog_progress
    end in
  BlogProgress (bp_blog_id blog_progress) name' status' total' index' steps'.

(** [update_blog_progress]: append a fresh record when none is found,
    otherwise assign into the record found. *)
Definition update_blog_progress (progress_data : progress_doc)
    (blog_id : string) (blog_name status : option string)
    (total_posts current_post_index : option Z)
    (step step_status : option string) : progress_doc :=
  match get_blog_progress_ref progress_data blog_id with
  | None =>
      let blog_progress :=
        BlogProgress (Some blog_id) blog_name
          (Some (or_default_str status "pending"))
          (Some (or_zero total_posts))
          (Some (or_zero current_post_index))
          (Some default_steps) in
      ProgressData (pd_last_updated progress_data)
        (Some (blogs_of progress_data ++ [blog_progress]))
  | Some ref =>
      ProgressData (pd_last_updated progress_data)
        (alter (λ bp, merge_blog_progress bp blog_name status total_posts
                        current_post_index step step_status) ref
           <$> pd_blogs progress_data)
  end.

(** [remove_blog_from_progress] *)
Definition remove_blog_from_progress (progress_data : progress_doc)
    (blog_id : string) : progress_doc :=
  ProgressData (pd_last_updated progress_data)
    (Some (filter (λ b, bp_blog_id b ≠ Some blog_id)
             (blogs_of progress_data))).

(** The two loops of [get_next_incomplete_step]. *)
Fixpoint first_in_progress (steps : gmap string string)
    (all_steps : list string) : option string :=
  match all_steps with
  | [] => None
  | step :: rest =>
      if bool_decide (steps !! step = Some "in_progress") then Some step
      else first_in_progress steps rest
  end.

Fixpoint first_pending (steps : gmap string string)
    (all_steps : list string) : option string :=
  match all_steps with
  | [] => None
  | step :: rest =>
      if bool_decide (default "pending" (steps !! step) = "pending")
      then Some step
      else first_pending steps rest
  end.

Definition get_next_incomplete_step (blog_progress : blog_record)
    : option string :=
  let steps := steps_of blog_progress in
  match first_in_progress steps CrawlStep.all_steps with
  | Some step => Some step
  | None => first_pending steps CrawlStep.all_steps
  end.

(** *** Text

    [extract_blog_id] and [sanitize_filename] work on the characters of
    their argument, so for them a Python [str] is the list of its code
    points. *)

Definition code_points (s : string) : list N :=
  N_of_ascii <$> String.list_ascii_of_string s.

(** *** [extract_blog_id]

    [re.search] is written out for the three patterns of the function, each
    of them a literal followed by one group. *)

(** [s] without [prefix], if it begins with it. *)
Fixpoint strip_prefix (prefix s : list N) : option (list N) :=
  match prefix, s with
  | [], _ => Some s
  | p :: prefix', c :: s' =>
      if (p =? c)%N then strip_prefix prefix' s' else None
  | _ :: _, [] => None
  end.

Fixpoint take_while (f : N → bool) (s : list N) : list N :=
  match s with
  | [] => []
  | c :: rest => if f c then c :: take_while f rest else []
  end.

(** A greedy group [(class+)] at the end of a pattern: the longest run of
    characters of the class, which must not be empty. *)
Definition group_of (class : N → bool) (s : list N) : option (list N) :=
  match take_while class s with
  | [] => None
  | c :: run => Some (c :: run)
  end.

(** [[A-Za-z0-9_-]] *)
Definition id_char (c : N) : bool :=
  ((65 <=? c) && (c <=? 90) || (97 <=? c) && (c <=? 122)
   || (48 <=? c) && (c <=? 57) || (c =? 95) || (c =? 45))%N.

(** [[^&]] *)
Definition not_ampersand (c : N) : bool := negb (c =? 38)%N.

(** [.*?blogId=([^&]+)] matched at the start of [s]: the lazy [.*?] is
    lengthened one character at a time, over anything but a newline, until
    [blogId=] and a group that is not empty follow. *)
Fixpoint blog_id_parameter (s : list N) : option (list N) :=
  let later :=
    match s with
    | [] => None
    | c :: rest => if (c =? 10)%N then None else blog_id_parameter rest
    end in
  match strip_prefix (code_points "blogId=") s ≫= group_of not_ampersand with
  | Some blog_id => Some blog_id
  | None => later
  end.

(** [re.search] for a pattern made of [literal] and then [rest]: the match
    at the leftmost position where there is one; the result is group 1. *)
Fixpoint re_search (literal : list N) (rest : list N → option (list N))
    (url : list N) : option (list N) :=
  match strip_prefix literal url ≫= rest with
  | Some blog_id => Some blog_id
  | None =>
      match url with
      | [] => None
      | _ :: url' => re_search literal rest url'
      end
  end.

Definition patterns : list (list N → option (list N)) :=
  [re_search (code_points "blog.naver.com/PostList.naver?") blog_id_parameter;
   re_search (code_points "blog.naver.com/PostView.naver?") blog_id_parameter;
   re_search (code_points "blog.naver.com/") (group_of id_char)].

(** The known paths that are not blog identifiers. *)
Definition not_blog_ids : list (list N) :=
  code_points
    <$> ["PostList.naver"; "PostView.naver"; "NBlogTop.naver";
         "SectionPostList.naver"; "PostList"; "PostView"; "NBlogTop";
         "SectionPostList"].

Fixpoint extract_blog_id_loop (patterns : list (list N → option (list N)))
    (url : list N) : option (list N) :=
  match patterns with
  | [] => None
  | pattern :: rest =>
      match pattern url with
      | Some blog_id =>
          if bool_decide (blog_id ∉ not_blog_ids) then Some blog_id
          else extract_blog_id_loop rest url
      | None => extract_blog_id_loop rest url
      end
  end.

Definition extract_blog_id (url : list N) : option (list N) :=
  extract_blog_id_loop patterns url.

(** *** [sanitize_filename] *)

(** The nine characters of [invalid_chars]; the fourth one, between the
    colon and the slash, is the double quote (code point 34). *)
Definition invalid_chars : list N :=
  code_points "<>:" ++ [34%N] ++ code_points "/\|?*".

(** [name.replace(char, new)] for a single character [char]. *)
Definition str_replace (name : list N) (char new : N) : list N :=
  (λ c, if (c =? char)%N then new else c) <$> name.

Fixpoint lstrip (chars : list N) (name : list N) : list N :=
  match name with
  | [] => []
  | c :: rest => if bool_decide (c ∈ chars) then lstrip chars rest else name
  end.

(** [name.strip(chars)] *)
Definition strip (chars : list N) (name : list N) : list N :=
  reverse (lstrip chars (reverse (lstrip chars name))).

Definition sanitize_filename (name : list N) : list N :=
  let name1 :=
    foldl (λ name char, str_replace name char 95%N) name invalid_chars in
  let name2 := strip (code_points ". ") name1 in
  let name3 :=
    if (200 <? length name2)%nat then take 200 name2 else name2 in
  match name3 with
  | [] => code_points "unnamed"
  | _ :: _ => name3
  end.

(** *** The progress file *)

(** Python exceptions that can leave the modelled functions. *)
Inductive exn :=
  | UnicodeDecodeError
  | KeyError (key : string)
  | CollaboratorError (message : string).

Inductive result (A : Type) :=
  | Ret (a : A)
  | Raise (e : exn).
Arguments Ret {A} a.
Arguments Raise {A} e.

(** What [os.path.exists] and [open] find at the progress path. *)
Inductive file_state :=
  | Absent
  | Unreadable
  | Content (bytes : list Byte.byte).

Definition byte_in (lo hi : N) (b : Byte.byte) : bool :=
  (lo <=? Byte.to_N b)%N && (Byte.to_N b <=? hi)%N.

(** Payload of a continuation byte. *)
Definition low6 (b : Byte.byte) : N := (Byte.to_N b - 128)%N.

(** The strict UTF-8 decoder applied by [open(..., encoding='utf-8')] when the
    file is read: well-formed sequences only (no overlong forms, no
    surrogates, nothing above U+10FFFF); [None] is [UnicodeDecodeError]. *)
Fixpoint utf8_decode (bytes : list Byte.byte) : option (list N) :=
  match bytes with
  | [] => Some []
  | b0 :: r0 =>
      let n0 := Byte.to_N b0 in
      if (n0 <=? 127)%N then cons n0 <$> utf8_decode r0
      else if byte_in 194 223 b0 then
        match r0 with
        | b1 :: r1 =>
            if byte_in 128 191 b1
            then cons ((n0 - 192) * 64 + low6 b1)%N <$> utf8_decode r1
            else None
        | _ => None
        end
      else if byte_in 224 239 b0 then
        match r0 with
        | b1 :: b2 :: r2 =>
            let lo := if (n0 =? 224)%N then 160%N else 128%N in
            let hi := if (n0 =? 237)%N then 159%N else 191%N in
            if byte_in lo hi b1 && byte_in 128 191 b2
            then cons ((n0 - 224) * 4096 + low6 b1 * 64 + low6 b2)%N
                   <$> utf8_decode r2
            else None
        | _ => None
        end
      else if byte_in 240 244 b0 then
        match r0 with
        | b1 :: b2 :: b3 :: r3 =>
            let lo := if (n0 =? 240)%N then 144%N else 128%N in
            let hi := if (n0 =? 244)%N then 143%N else 191%N in
            if byte_in lo hi b1 && byte_in 128 191 b2 && byte_in 128 191 b3
            then cons ((n0 - 240) * 262144 + low6 b1 * 4096
                       + low6 b2 * 64 + low6 b3)%N <$> utf8_decode r3
            else None
        | _ => None
        end
      else None
  end.

Section ProgressFile.

(** [json.load] on the decoded text: [None] is [json.JSONDecodeError]. The
    parser is Python's; the document it yields is taken to have the shape of
    a progress document, and the exceptions other than [JSONDecodeError]
    that the parser can raise are not part of the embedding. *)
Variable json_load : list N → option progress_doc.

(** [json.dump(..., ensure_ascii=False, indent=2)] followed by the UTF-8
    encoding of the text stream. *)
Variable json_dump : progress_doc → list Byte.byte.

(** [load_progress]: the [except] clause catches [json.JSONDecodeError] and
    [IOError] only. *)
Definition load_progress (progress_path : file_state) : result progress_doc :=
  match progress_path with
  | Absent => Ret default_progress
  | Unreadable => Ret default_progress
  | Content bytes =>
      match utf8_decode bytes with
      | None => Raise UnicodeDecodeError
      | Some text =>
          match json_load text with
          | Some doc => Ret doc
          | None => Ret default_progress
          end
      end
  end.

(** [save_progress]: [now] is [datetime.now().isoformat()], [writable] tells
    whether [open(progress_path, 'w')] succeeds. The time stamp is assigned
    before the file is opened, so it stays in the document when the write
    fails. *)
Definition save_progress (now : string) (writable : bool)
    (progress_data : progress_doc) (progress_path : file_state)
    : bool * progress_doc * file_state :=
  let progress_data' :=
    ProgressData (Some now) (pd_blogs progress_data) in
  if writable
  then (true, progress_data', Content (json_dump progress_data'))
  else (false, progress_data', progress_path).

End ProgressFile.

End Helpers.

(** ** [src/database/models.py] and [src/database/manager.py]: the entity store

    Every table is the list of its rows in insertion (rowid) order. A query
    without [ORDER BY] yields the matching rows in that order; [ORDER BY] is a
    stable sort on the column. Foreign keys are declared but never enforced
    (the connection does not switch [PRAGMA foreign_keys] on), so no statement
    fails on them. Arguments have the types of the Python signatures, and
    integers are taken within the range of an SQLite [INTEGER]. The only
    errors of the store that are modelled are the constraint violations the
    source handles; a locked or unwritable database file is not. *)

Module Database.

Record blog_row := BlogRow {
  b_id : string;
  b_blog_name : string;
  b_author_name : option string;
  b_url : string;
  b_post_count : Z;
  b_status : string;
  b_created_at : string
}.

Record post_row := PostRow {
  p_id : string;
  p_blog_id : string;
  p_title : option string;
  p_content : option string;
  p_category : option string;
  p_post_url : option string;
  p_post_date : option string;
  p_comment_count : Z;
  p_sympathy_count : Z;
  p_crawl_status : string;
  p_created_at : string
}.

Record reaction_row := ReactionRow {
  r_id : Z;
  r_post_id : string;
  r_reaction_type : string;
  r_count : Z
}.

Record comment_row := CommentRow {
  c_id : string;
  c_post_id : string;
  c_parent_id : option string;
  c_author : option string;
  c_content : option string;
  c_like_count : Z;
  c_written_at : option string;
  c_is_reply : Z
}.

Record progress_row := ProgressRow {
  g_id : Z;
  g_blog_id : string;
  g_current_post_index : Z;
  g_total_posts : Z;
  g_current_step : string;
  g_last_updated : string
}.

(** The connection: five tables, the two [AUTOINCREMENT] counters kept in
    [sqlite_sequence], and the number of [CURRENT_TIMESTAMP] defaults
    evaluated so far. *)
Record db := Db {
  blogs : list blog_row;
  posts : list post_row;
  reactions : list reaction_row;
  reactions_seq : Z;
  comments : list comment_row;
  progress : list progress_row;
  progress_seq : Z;
  ticks : nat
}.

(** [init_database] on a fresh file. *)
Definition empty_db : db := Db [] [] [] 0 [] [] 0 0.

(** Elements of the argument lists of the batch operations. *)
Record post_input := PostInput {
  pi_id : string;
  pi_blog_id : string;
  pi_title : option string;
  pi_post_url : option string
}.

Record reaction_input := ReactionInput {
  ri_post_id : string;
  ri_reaction_type : string;
  ri_count : option Z
}.

Record comment_input := CommentInput {
  ci_id : string;
  ci_post_id : string;
  ci_parent_id : option string;
  ci_author : option string;
  ci_content : option string;
  ci_like_count : option Z;
  ci_written_at : option string;
  ci_is_reply : option Z
}.

(** *** [ORDER BY] *)

Fixpoint insert_by {A} (le : A → A → bool) (x : A) (l : list A) : list A :=
  match l with
  | [] => [x]
  | y :: l' => if le x y then x :: y :: l' else y :: insert_by le x l'
  end.

Definition order_by {A} (le : A → A → bool) (l : list A) : list A :=
  foldr (insert_by le) [] l.

(** Column order of SQLite for values of the storage classes [NULL] and
    [TEXT]: [NULL] first, then byte-wise. (In a column of [NUMERIC] affinity,
    as [written_at DATETIME], a text that reads as a number is stored as a
    number and sorts by its value, before every text; this comparison is the
    one of the texts that are kept as texts, see [Spec.kept_as_text].) *)
Definition null_first_leb (x y : option string) : bool :=
  match x, y with
  | None, _ => true
  | Some _, None => false
  | Some a, Some b => String.leb a b
  end.

Section Manager.

(** Value of [CURRENT_TIMESTAMP] at its n-th evaluation. *)
Variable CURRENT_TIMESTAMP : nat → string.

(** *** Blog operations *)

Definition get_blog (d : db) (blog_id : string) : option blog_row :=
  head (filter (λ b, b_id b = blog_id) (blogs d)).

Definition add_blog (d : db) (blog_id blog_name url : string)
    (author_name : option string) (post_count : Z) : bool * db :=
  match get_blog d blog_id with
  | Some _ => (false, d)
  | None =>
      let row := BlogRow blog_id blog_name author_name url post_count
                   Status.PENDING (CURRENT_TIMESTAMP (ticks d)) in
      (true, Db (blogs d ++ [row]) (posts d) (reactions d) (reactions_seq d)
               (comments d) (progress d) (progress_seq d) (S (ticks d)))
  end.

Definition get_all_blogs (d : db) : list blog_row :=
  order_by (λ x y, String.leb (b_created_at y) (b_created_at x)) (blogs d).

Definition set_blogs (d : db) (bs : list blog_row) : db :=
  Db bs (posts d) (reactions d) (reactions_seq d) (comments d) (progress d)
    (progress_seq d) (ticks d).

Definition set_posts (d : db) (ps : list post_row) : db :=
  Db (blogs d) ps (reactions d) (reactions_seq d) (comments d) (progress d)
    (progress_seq d) (ticks d).

Definition set_reactions (d : db) (rs : list reaction_row) (seq : Z) : db :=
  Db (blogs d) (posts d) rs seq (comments d) (progress d) (progress_seq d)
    (ticks d).

Definition set_comments (d : db) (cs : list comment_row) : db :=
  Db (blogs d) (posts d) (reactions d) (reactions_seq d) cs (progress d)
    (progress_seq d) (ticks d).

Definition set_progress (d : db) (gs : list progress_row) (seq : Z) : db :=
  Db (blogs d) (posts d) (reactions d) (reactions_seq d) (comments d) gs seq
    (ticks d).

(** [UPDATE blogs SET ... WHERE id = ?]; the result is [rowcount > 0]. *)
Definition update_blog (d : db) (blog_id : string)
    (f : blog_row → blog_row) : bool * db :=
  (bool_decide (is_Some (get_blog d blog_id)),
   set_blogs d ((λ b, if bool_decide (b_id b = blog_id) then f b else b)
                  <$> blogs d)).

Definition update_blog_status (d : db) (blog_id status : string)
    : bool * db :=
  update_blog d blog_id
    (λ b, BlogRow (b_id b) (b_blog_name b) (b_author_name b) (b_url b)
            (b_post_count b) status (b_created_at b)).

Definition update_blog_post_count (d : db) (blog_id : string) (count : Z)
    : bool * db :=
  update_blog d blog_id
    (λ b, BlogRow (b_id b) (b_blog_name b) (b_author_name b) (b_url b)
            count (b_status b) (b_created_at b)).

Definition update_blog_info (d : db) (blog_id : string)
    (blog_name author_name : option string) : bool * db :=
  match blog_name, author_name with
  | None, None => (false, d)
  | _, _ =>
      update_blog d blog_id
        (λ b, BlogRow (b_id b) (default (b_blog_name b) blog_name)
                (from_option Some (b_author_name b) author_name) (b_url b)
                (b_post_count b) (b_status b) (b_created_at b))
  end.

(** *** Post operations *)

Definition get_post (d : db) (post_id : string) : option post_row :=
  head (filter (λ p, p_id p = post_id) (posts d)).

(** [INSERT INTO posts (id, blog_id, title, post_url)]: the primary key
    rejects an identifier already present ([sqlite3.IntegrityError]). *)
Definition insert_post (d : db) (post_id blog_id : string)
    (title post_url : option string) : option db :=
  match get_post d post_id with
  | Some _ => None
  | None =>
      let row := PostRow post_id blog_id title None None post_url None 0 0
                   "pending" (CURRENT_TIMESTAMP (ticks d)) in
      Some (Db (blogs d) (posts d ++ [row]) (reactions d) (reactions_seq d)
              (comments d) (progress d) (progress_seq d) (S (ticks d)))
  end.

Definition add_post (d : db) (post_id blog_id : string)
    (title post_url : option string) : bool * db :=
  match insert_post d post_id blog_id title post_url with
  | Some d' => (true, d')
  | None => (false, d)
  end.

Fixpoint add_posts_batch_loop (d : db) (added : Z) (posts : list post_input)
    : Z * db :=
  match posts with
  | [] => (added, d)
  | post :: rest =>
      match insert_post d (pi_id post) (pi_blog_id post) (pi_title post)
              (pi_post_url post) with
      | Some d' => add_posts_batch_loop d' (added + 1) rest
      | None => add_posts_batch_loop d added rest
      end
  end.

Definition add_posts_batch (d : db) (posts : list post_input) : Z * db :=
  add_posts_batch_loop d 0 posts.

Definition get_blog_posts (d : db) (blog_id : string) : list post_row :=
  order_by (λ x y, String.leb (p_created_at x) (p_created_at y))
    (filter (λ p, p_blog_id p = blog_id) (posts d)).

Definition get_posts_by_status (d : db) (blog_id : string)
    (crawl_status : option string) : list post_row :=
  if truthy_str crawl_status
  then filter (λ p, p_blog_id p = blog_id
                    ∧ Some (p_crawl_status p) = crawl_status) (posts d)
  else filter (λ p, p_blog_id p = blog_id) (posts d).

(** [UPDATE posts SET ... WHERE id = ?]; the result is [rowcount > 0]. *)
Definition update_post (d : db) (post_id : string)
    (f : post_row → post_row) : bool * db :=
  (bool_decide (is_Some (get_post d post_id)),
   set_posts d ((λ p, if bool_decide (p_id p = post_id) then f p else p)
                  <$> posts d)).

Definition update_post_content (d : db) (post_id : string)
    (title content category post_date : option string) : bool * db :=
  match title, content, category, post_date with
  | None, None, None, None => (false, d)
  | _, _, _, _ =>
      update_post d post_id
        (λ p, PostRow (p_id p) (p_blog_id p)
                (from_option Some (p_title p) title)
                (from_option Some (p_content p) content)
                (from_option Some (p_category p) category)
                (p_post_url p)
                (from_option Some (p_post_date p) post_date)
                (p_comment_count p) (p_sympathy_count p) (p_crawl_status p)
                (p_created_at p))
  end.

Definition update_post_crawl_status (d : db) (post_id status : string)
    : bool * db :=
  update_post d post_id
    (λ p, PostRow (p_id p) (p_blog_id p) (p_title p) (p_content p)
            (p_category p) (p_post_url p) (p_post_date p) (p_comment_count p)
            (p_sympathy_count p) status (p_created_at p)).

Definition update_post_sympathy_count (d : db) (post_id : string) (count : Z)
    : bool * db :=
  update_post d post_id
    (λ p, PostRow (p_id p) (p_blog_id p) (p_title p) (p_content p)
            (p_category p) (p_post_url p) (p_post_date p) (p_comment_count p)
            count (p_crawl_status p) (p_created_at p)).

Definition update_post_comment_count (d : db) (post_id : string) (count : Z)
    : bool * db :=
  update_post d post_id
    (λ p, PostRow (p_id p) (p_blog_id p) (p_title p) (p_content p)
            (p_category p) (p_post_url p) (p_post_date p) count
            (p_sympathy_count p) (p_crawl_status p) (p_created_at p)).

(** *** Reaction operations *)

(** [INSERT OR REPLACE INTO reactions (post_id, reaction_type, count)]: the
    rows that collide on [UNIQUE(post_id, reaction_type)] are deleted, then
    the new row is inserted under the next [AUTOINCREMENT] identifier. *)
Definition replace_reaction (d : db) (post_id reaction_type : string)
    (count : Z) : db :=
  let kept :=
    filter (λ r, ¬ (r_post_id r = post_id
                    ∧ r_reaction_type r = reaction_type)) (reactions d) in
  let id := reactions_seq d + 1 in
  set_reactions d (kept ++ [ReactionRow id post_id reaction_type count]) id.

Definition add_reaction (d : db) (post_id reaction_type : string) (count : Z)
    : bool * db :=
  (true, replace_reaction d post_id reaction_type count).

Fixpoint add_reactions_batch_loop (d : db) (added : Z)
    (reactions : list reaction_input) : Z * db :=
  match reactions with
  | [] => (added, d)
  | reaction :: rest =>
      add_reactions_batch_loop
        (replace_reaction d (ri_post_id reaction) (ri_reaction_type reaction)
           (or_zero (ri_count reaction)))
        (added + 1) rest
  end.

Definition add_reactions_batch (d : db) (reactions : list reaction_input)
    : Z * db :=
  add_reactions_batch_loop d 0 reactions.

Definition get_reactions (d : db) (post_id : string) : list reaction_row :=
  filter (λ r, r_post_id r = post_id) (reactions d).

(** *** Comment operations *)

Definition get_comment (d : db) (comment_id : string) : option comment_row :=
  head (filter (λ c, c_id c = comment_id) (comments d)).

(** [INSERT OR IGNORE INTO comments (...)]: a row whose identifier is already
    present is skipped without an error. *)
Definition ignore_comment (d : db) (row : comment_row) : db :=
  match get_comment d (c_id row) with
  | Some _ => d
  | None => set_comments d (comments d ++ [row])
  end.

Definition add_comment (d : db) (comment_id post_id author content : string)
    (like_count : Z) (written_at parent_id : option string) (is_reply : Z)
    : bool * db :=
  (true,
   ignore_comment d
     (CommentRow comment_id post_id parent_id (Some author) (Some content)
        like_count written_at is_reply)).

Fixpoint add_comments_batch_loop (d : db) (added : Z)
    (comments : list comment_input) : Z * db :=
  match comments with
  | [] => (added, d)
  | comment :: rest =>
      add_comments_batch_loop
        (ignore_comment d
           (CommentRow (ci_id comment) (ci_post_id comment)
              (ci_parent_id comment) (ci_author comment) (ci_content comment)
              (or_zero (ci_like_count comment)) (ci_written_at comment)
              (or_zero (ci_is_reply comment))))
        (added + 1) rest
  end.

Definition add_comments_batch (d : db) (comments : list comment_input)
    : Z * db :=
  add_comments_batch_loop d 0 comments.

Definition get_comments (d : db) (post_id : string) (include_replies : bool)
    : list comment_row :=
  order_by (λ x y, null_first_leb (c_written_at x) (c_written_at y))
    (if include_replies
     then filter (λ c, c_post_id c = post_id) (comments d)
     else filter (λ c, c_post_id c = post_id ∧ c_is_reply c = 0)
            (comments d)).

Definition get_comment_count (d : db) (post_id : string) : Z :=
  Z.of_nat (length (filter (λ c, c_post_id c = post_id) (comments d))).

(** *** Progress table *)

(** [INSERT OR REPLACE INTO progress]; [now] is
    [datetime.now().isoformat()]. *)
Definition init_progress (d : db) (now : string) (blog_id : string)
    (total_posts : Z) : bool * db :=
  let kept := filter (λ g, g_blog_id g ≠ blog_id) (progress d) in
  let id := progress_seq d + 1 in
  (true,
   set_progress d
     (kept ++ [ProgressRow id blog_id 0 total_posts CrawlStep.BLOG_INFO now])
     id).

Definition get_progress (d : db) (blog_id : string) : option progress_row :=
  head (filter (λ g, g_blog_id g = blog_id) (progress d)).

(** *** [delete_blog] *)

(** One turn of the loop over [post_ids]: the comments of the post, then its
    reactions. *)
Definition delete_post_children (d : db) (post_id : string) : db :=
  let d1 := set_comments d (filter (λ c, c_post_id c ≠ post_id) (comments d)) in
  set_reactions d1 (filter (λ r, r_post_id r ≠ post_id) (reactions d1))
    (reactions_seq d1).

Definition delete_blog (d : db) (blog_id : string) : bool * db :=
  let post_ids := p_id <$> filter (λ p, p_blog_id p = blog_id) (posts d) in
  let d1 := foldl delete_post_children d post_ids in
  let d2 := set_posts d1 (filter (λ p, p_blog_id p ≠ blog_id) (posts d1)) in
  let d3 :=
    set_progress d2 (filter (λ g, g_blog_id g ≠ blog_id) (progress d2))
      (progress_seq d2) in
  let d4 := set_blogs d3 (filter (λ b, b_id b ≠ blog_id) (blogs d3)) in
  (true, d4).

(** *** [update_progress] and [get_blog_stats] *)

(** [UPDATE progress SET last_updated = ?, ... WHERE blog_id = ?]: the time
    stamp [now] is always written, the other two columns when they are
    given. *)
Definition update_progress (d : db) (now : string) (blog_id : string)
    (current_post_index : option Z) (current_step : option string)
    : bool * db :=
  (bool_decide (is_Some (get_progress d blog_id)),
   set_progress d
     ((λ g, if bool_decide (g_blog_id g = blog_id)
            then ProgressRow (g_id g) (g_blog_id g)
                   (default (g_current_post_index g) current_post_index)
                   (g_total_posts g)
                   (default (g_current_step g) current_step) now
            else g) <$> progress d)
     (progress_seq d)).

Record blog_stats := BlogStats {
  total_posts : Z;
  posts_completed : Z;
  total_comments : Z
}.

(** The three [SELECT COUNT( * )] queries; the last one counts the rows of
    [comments c JOIN posts p ON c.post_id = p.id WHERE p.blog_id = ?]. *)
Definition get_blog_stats (d : db) (blog_id : string) : blog_stats :=
  BlogStats
    (Z.of_nat (length (filter (λ p, p_blog_id p = blog_id) (posts d))))
    (Z.of_nat
       (length (filter (λ p, p_blog_id p = blog_id
                             ∧ p_crawl_status p = Status.COMPLETED)
                  (posts d))))
    (Z.of_nat
       (length
          (c ← comments d;
           filter (λ p, c_post_id c = p_id p ∧ p_blog_id p = blog_id)
             (posts d)))).

End Manager.

End Database.

(** ** [src/main.py]: the crawl orchestrator

    The worker thread of [NaverBlogCrawlerApp] is a computation over the
    state of the application object. Everything that reaches it from outside
    (the crawlers, the stop flag written by the interface thread, the clock,
    the disk) is an oracle indexed by the number of interactions made so far,
    so that two reads of the same source may differ. *)

Module Main.
Import Helpers.

(** Results of the site-specific crawlers. *)
Record blog_info := BlogInfo {
  bi_blog_name : option string;
  bi_author_name : option string
}.

Record post_summary := PostSummary {
  ps_id : string;
  ps_title : option string;
  ps_post_url : option string
}.

Record content_data := ContentData {
  cd_title : option string;
  cd_content : option string;
  cd_category : option string;
  cd_post_date : option string
}.

Record reaction_data := ReactionData {
  rd_total_count : option Z;
  rd_reactions : list (string * Z)
}.

Record collaborators := Collaborators {
  should_stop_at : nat → bool;
  get_blog_info_at : nat → string → result (option blog_info);
  get_post_list_at : nat → string → result (list post_summary);
  get_post_content_at : nat → string → string → result (option content_data);
  get_reactions_at : nat → string → string → result (option reaction_data);
  get_comments_at :
    nat → string → string → result (list Database.comment_input);
  now_at : nat → string;
  writable_at : nat → bool;
  current_timestamp_at : nat → string;
  json_dump : progress_doc → list Byte.byte
}.

(** Lines written to the log pane; the wording of the messages is left out. *)
Inductive log_line :=
  | LogBlogStarted (blog_name : string)
  | LogBlogInfoCollected (blog_name : option string)
  | LogFetchingPostList
  | LogPostsAdded (added : Z)
  | LogNoPostList
  | LogCollectingContent (total : nat)
  | LogCollectingReactions (total : nat)
  | LogCollectingComments (total : nat)
  | LogError (e : exn)
  | LogBlogCompleted (blog_name : string)
  | LogBlogInterrupted (blog_name : string).

(** Items put on [message_queue]; a progress fraction is kept as the pair of
    its numerator and denominator. *)
Inductive message :=
  | MsgLog (line : log_line)
  | MsgTask (step : string)
  | MsgUpdateBlogStatus (blog_id status : string) (position : option (Z * nat))
  | MsgProgress (done : Z) (total : nat)
  | MsgCrawlFinished.

(** What the worker did, in order: a stage executor entered, a post taken up
    inside a stage, a call of [save_progress] with the document it wrote and
    whether the write succeeded. *)
Inductive event :=
  | EvStep (step : string)
  | EvPost (step post_id : string)
  | EvSave (doc : progress_doc) (written : bool).

Record app := App {
  progress_data : progress_doc;
  db : Database.db;
  progress_file : file_state;
  message_queue : list message;
  time : nat;
  history : list event
}.

(** State and exceptions. *)
Definition M (A : Type) : Type := app → result A * app.

Definition ret {A} (a : A) : M A := λ s, (Ret a, s).

Definition raise {A} (e : exn) : M A := λ s, (Raise e, s).

Definition bind {A B} (m : M A) (k : A → M B) : M B :=
  λ s, match m s with
       | (Ret a, s') => k a s'
       | (Raise e, s') => (Raise e, s')
       end.

(** [try: m except Exception as e: handler e] *)
Definition try_except {A} (m : M A) (handler : exn → M A) : M A :=
  λ s, match m s with
       | (Ret a, s') => (Ret a, s')
       | (Raise e, s') => handler e s'
       end.

Notation "x <- m ; k" := (bind m (λ x : _, k))
  (at level 20, m at level 100, k at level 200, only parsing).
Notation "m ;;; k" := (bind m (λ _, k))
  (at level 100, k at level 200, right associativity, only parsing).

Definition lift {A} (r : result A) : M A := λ s, (r, s).

(** One more interaction with the outside has taken place. *)
Definition ticked (s : app) : app :=
  App (progress_data s) (db s) (progress_file s) (message_queue s)
    (S (time s)) (history s).

Definition tick : M nat := λ s, (Ret (time s), ticked s).

Definition put (m : message) : M unit :=
  λ s, (Ret (),
        App (progress_data s) (db s) (progress_file s)
          (message_queue s ++ [m]) (time s) (history s)).

Definition record_event (e : event) : M unit :=
  λ s, (Ret (),
        App (progress_data s) (db s) (progress_file s) (message_queue s)
          (time s) (history s ++ [e])).

Definition with_db {A} (f : Database.db → A * Database.db) : M A :=
  λ s, let '(a, d) := f (db s) in
       (Ret a,
        App (progress_data s) d (progress_file s) (message_queue s) (time s)
          (history s)).

Definition read_db {A} (f : Database.db → A) : M A := λ s, (Ret (f (db s)), s).

Definition get_progress_data : M progress_doc :=
  λ s, (Ret (progress_data s), s).

(** [self.progress_data = f(self.progress_data)] *)
Definition set_progress_data (f : progress_doc → progress_doc) : M unit :=
  λ s, (Ret (),
        App (f (progress_data s)) (db s) (progress_file s) (message_queue s)
          (time s) (history s)).

Section Orchestrator.

Variable E : collaborators.

(** A read of [self.should_stop]. *)
Definition should_stop : M bool :=
  t <- tick ; ret (should_stop_at E t).

(** [save_progress(self.progress_data)] *)
Definition save : M bool :=
  t <- tick ;
  λ s,
    let '(ok, doc, file) :=
      save_progress (json_dump E) (now_at E t) (writable_at E t)
        (progress_data s) (progress_file s) in
    (Ret ok,
     App doc (db s) file (message_queue s) (time s)
       (history s ++ [EvSave doc ok])).

(** [post['id'].split('_', 1)[-1] if '_' in post['id'] else post['id']] *)
Fixpoint after_first_underscore (s : string) : option string :=
  match s with
  | EmptyString => None
  | String a rest =>
      if Ascii.eqb a "_"%char then Some rest else after_first_underscore rest
  end.

Definition log_no_of (post_id : string) : string :=
  default post_id (after_first_underscore post_id).

(** [l[start:]] for a Python integer [start]. *)
Definition slice_from {A} (l : list A) (start : Z) : list A :=
  if start <? 0
  then drop (Z.to_nat (Z.max 0 (Z.of_nat (length l) + start))) l
  else drop (Z.to_nat start) l.

Definition _process_blog_info (blog : Database.blog_row) : M bool :=
  let blog_id := Database.b_id blog in
  t <- tick ;
  blog_info <- lift (get_blog_info_at E t blog_id) ;
  match blog_info with
  | Some info =>
      with_db (λ d, Database.update_blog_info d blog_id (bi_blog_name info)
                      (bi_author_name info)) ;;;
      put (MsgLog (LogBlogInfoCollected (bi_blog_name info))) ;;;
      ret true
  | None => ret false
  end.

Definition _process_post_list (blog : Database.blog_row) : M bool :=
  let blog_id := Database.b_id blog in
  put (MsgLog LogFetchingPostList) ;;;
  t <- tick ;
  posts <- lift (get_post_list_at E t blog_id) ;
  match posts with
  | _ :: _ =>
      let post_data :=
        (λ p, Database.PostInput (ps_id p) blog_id (ps_title p)
                (ps_post_url p)) <$> posts in
      added <- with_db (λ d, Database.add_posts_batch
                               (current_timestamp_at E) d post_data) ;
      with_db (λ d, Database.update_blog_post_count d blog_id
                      (Z.of_nat (length posts))) ;;;
      set_progress_data
        (λ pd, update_blog_progress pd blog_id None None
                 (Some (Z.of_nat (length posts))) None None None) ;;;
      put (MsgLog (LogPostsAdded added)) ;;;
      ret true
  | [] =>
      put (MsgLog LogNoPostList) ;;;
      ret false
  end.

(** The loop of [_process_post_content] over [enumerate(posts[start_index:],
    start=start_index)]. *)
Fixpoint _process_post_content_loop (blog_id : string) (total : nat)
    (i : Z) (posts : list Database.post_row) : M unit :=
  match posts with
  | [] => ret ()
  | post :: rest =>
      stop <- should_stop ;
      if stop then ret ()
      else
        let post_id := Database.p_id post in
        record_event (EvPost CrawlStep.POST_CONTENT post_id) ;;;
        t <- tick ;
        content_data <-
          lift (get_post_content_at E t blog_id (log_no_of post_id)) ;
        match content_data with
        | Some cd =>
            with_db (λ d, Database.update_post_content d post_id
                            (cd_title cd) (cd_content cd) (cd_category cd)
                            (cd_post_date cd)) ;;;
            with_db (λ d, Database.update_post_crawl_status d post_id
                            Status.COMPLETED)
        | None =>
            with_db (λ d, Database.update_post_crawl_status d post_id
                            Status.UNAVAILABLE)
        end ;;;
        set_progress_data
          (λ pd, update_blog_progress pd blog_id None None None
                   (Some (i + 1)) None None) ;;;
        save ;;;
        put (MsgUpdateBlogStatus blog_id Status.IN_PROGRESS
               (Some (i + 1, total))) ;;;
        put (MsgProgress (i + 1) total) ;;;
        _process_post_content_loop blog_id total (i + 1) rest
  end.

(** [b_progress] is the reference obtained from [get_blog_progress]; the
    record is read when [.get('current_post_index', 0)] is evaluated. *)
Definition _process_post_content (blog : Database.blog_row)
    (b_progress : nat) : M bool :=
  let blog_id := Database.b_id blog in
  posts <- read_db (λ d, Database.get_posts_by_status d blog_id
                           (Some Status.PENDING)) ;
  match posts with
  | [] => ret true
  | _ :: _ =>
      let total := length posts in
      pd <- get_progress_data ;
      match deref pd b_progress with
      | None => raise (KeyError "b_progress")
      | Some record =>
          let start_index := default 0 (bp_current_post_index record) in
          put (MsgLog (LogCollectingContent total)) ;;;
          _process_post_content_loop blog_id total start_index
            (slice_from posts start_index) ;;;
          stop <- should_stop ;
          ret (negb stop)
      end
  end.

Fixpoint add_reactions (post_id : string) (reactions : list (string * Z))
    : M unit :=
  match reactions with
  | [] => ret ()
  | (reaction_type, count) :: rest =>
      with_db (λ d, Database.add_reaction d post_id reaction_type count) ;;;
      add_reactions post_id rest
  end.

Fixpoint _process_reactions_loop (blog_id : string) (total : nat) (i : Z)
    (posts : list Database.post_row) : M unit :=
  match posts with
  | [] => ret ()
  | post :: rest =>
      stop <- should_stop ;
      if stop then ret ()
      else
        let post_id := Database.p_id post in
        record_event (EvPost CrawlStep.REACTIONS post_id) ;;;
        t <- tick ;
        reaction_data <-
          lift (get_reactions_at E t blog_id (log_no_of post_id)) ;
        match reaction_data with
        | Some rd =>
            with_db (λ d, Database.update_post_sympathy_count d post_id
                            (default 0 (rd_total_count rd))) ;;;
            add_reactions post_id (rd_reactions rd)
        | None => ret ()
        end ;;;
        put (MsgUpdateBlogStatus blog_id Status.IN_PROGRESS
               (Some (i + 1, total))) ;;;
        put (MsgProgress (i + 1) total) ;;;
        _process_reactions_loop blog_id total (i + 1) rest
  end.

Definition _process_reactions (blog : Database.blog_row) : M bool :=
  let blog_id := Database.b_id blog in
  posts <- read_db (λ d, Database.get_blog_posts d blog_id) ;
  match posts with
  | [] => ret true
  | _ :: _ =>
      let total := length posts in
      put (MsgLog (LogCollectingReactions total)) ;;;
      _process_reactions_loop blog_id total 0 posts ;;;
      stop <- should_stop ;
      ret (negb stop)
  end.

Fixpoint _process_comments_loop (blog_id : string) (total : nat) (i : Z)
    (posts : list Database.post_row) : M unit :=
  match posts with
  | [] => ret ()
  | post :: rest =>
      stop <- should_stop ;
      if stop then ret ()
      else
        let post_id := Database.p_id post in
        record_event (EvPost CrawlStep.COMMENTS post_id) ;;;
        t <- tick ;
        comments <- lift (get_comments_at E t blog_id (log_no_of post_id)) ;
        match comments with
        | _ :: _ =>
            with_db (λ d, Database.add_comments_batch d comments) ;;;
            with_db (λ d, Database.update_post_comment_count d post_id
                            (Z.of_nat (length comments))) ;;;
            ret ()
        | [] => ret ()
        end ;;;
        put (MsgUpdateBlogStatus blog_id Status.IN_PROGRESS
               (Some (i + 1, total))) ;;;
        put (MsgProgress (i + 1) total) ;;;
        _process_comments_loop blog_id total (i + 1) rest
  end.

Definition _process_comments (blog : Database.blog_row) : M bool :=
  let blog_id := Database.b_id blog in
  posts <- read_db (λ d, Database.get_blog_posts d blog_id) ;
  match posts with
  | [] => ret true
  | _ :: _ =>
      let total := length posts in
      put (MsgLog (LogCollectingComments total)) ;;;
      _process_comments_loop blog_id total 0 posts ;;;
      stop <- should_stop ;
      ret (negb stop)
  end.

(** The [if step == ... elif ...] chain; [success] keeps its value when no
    branch applies. *)
Definition execute_step (step : string) (blog : Database.blog_row)
    (b_progress : nat) (success : bool) : M bool :=
  if bool_decide (step = CrawlStep.BLOG_INFO) then
    record_event (EvStep step) ;;; _process_blog_info blog
  else if bool_decide (step = CrawlStep.POST_LIST) then
    record_event (EvStep step) ;;; _process_post_list blog
  else if bool_decide (step = CrawlStep.POST_CONTENT) then
    record_event (EvStep step) ;;; _process_post_content blog b_progress
  else if bool_decide (step = CrawlStep.REACTIONS) then
    record_event (EvStep step) ;;; _process_reactions blog
  else if bool_decide (step = CrawlStep.COMMENTS) then
    record_event (EvStep step) ;;; _process_comments blog
  else ret success.

(** [resume and b_progress['steps_completed'].get(step) == 'completed'] *)
Definition skip_completed (resume : bool) (b_progress : nat) (step : string)
    : M bool :=
  if resume then
    pd <- get_progress_data ;
    match deref pd b_progress with
    | None => raise (KeyError "b_progress")
    | Some record =>
        match bp_steps_completed record with
        | None => raise (KeyError "steps_completed")
        | Some steps => ret (bool_decide (steps !! step = Some "completed"))
        end
    end
  else ret false.

(** A stage that is neither stopped nor skipped: it is marked [in_progress]
    and saved, then executed inside the [try]; [None] is the [except] branch,
    which leaves the loop with [success = False]. *)
Definition _crawl_blogs_stage (blog : Database.blog_row) (b_progress : nat)
    (step : string) (success : bool) : M (option bool) :=
  let blog_id := Database.b_id blog in
  put (MsgTask step) ;;;
  set_progress_data
    (λ pd, update_blog_progress pd blog_id None None None None
             (Some step) (Some "in_progress")) ;;;
  save ;;;
  try_except
    (success' <- execute_step step blog b_progress success ;
     (if success' then
        stop' <- should_stop ;
        if stop' then ret ()
        else
          set_progress_data
            (λ pd, update_blog_progress pd blog_id None None None
                     None (Some step) (Some "completed")) ;;;
          save ;;; ret ()
      else ret ()) ;;;
     ret (Some success'))
    (λ e, put (MsgLog (LogError e)) ;;; ret None).

(** The loop [for step in CrawlStep.all_steps()]; the result is the value of
    [success] when the loop is left. *)
Fixpoint _crawl_blogs_steps (blog : Database.blog_row) (b_progress : nat)
    (resume : bool) (steps : list string) (success : bool) : M bool :=
  match steps with
  | [] => ret success
  | step :: rest =>
      stop <- should_stop ;
      if stop then ret success
      else
        skip <- skip_completed resume b_progress step ;
        if skip then _crawl_blogs_steps blog b_progress resume rest success
        else
          outcome <- _crawl_blogs_stage blog b_progress step success ;
          match outcome with
          | Some success' =>
              _crawl_blogs_steps blog b_progress resume rest success'
          | None => ret false
          end
  end.

(** One turn of the loop over the blogs, after the stop check. *)
Definition _crawl_blogs_body (blog : Database.blog_row) (resume : bool)
    (b_idx total_blogs : nat) : M unit :=
  let blog_id := Database.b_id blog in
  let blog_name := Database.b_blog_name blog in
  put (MsgLog (LogBlogStarted blog_name)) ;;;
  put (MsgUpdateBlogStatus blog_id Status.IN_PROGRESS None) ;;;
  with_db (λ d, Database.update_blog_status d blog_id Status.IN_PROGRESS) ;;;
  pd <- get_progress_data ;
  b_progress <-
    match get_blog_progress_ref pd blog_id with
    | Some ref => ret ref
    | None =>
        set_progress_data
          (λ pd, update_blog_progress pd blog_id (Some blog_name)
                   (Some "in_progress") (Some (Database.b_post_count blog))
                   None None None) ;;;
        pd' <- get_progress_data ;
        match get_blog_progress_ref pd' blog_id with
        | Some ref => ret ref
        | None => raise (KeyError "steps_completed")
        end
    end ;
  success <-
    _crawl_blogs_steps blog b_progress resume CrawlStep.all_steps true ;
  stopped <- (if success then should_stop else ret true) ;
  (if negb stopped then
     with_db (λ d, Database.update_blog_status d blog_id Status.COMPLETED) ;;;
     set_progress_data
       (λ pd, update_blog_progress pd blog_id None (Some "completed") None
                None None None) ;;;
     put (MsgUpdateBlogStatus blog_id Status.COMPLETED None) ;;;
     put (MsgLog (LogBlogCompleted blog_name))
   else put (MsgLog (LogBlogInterrupted blog_name))) ;;;
  save ;;;
  put (MsgProgress (Z.of_nat b_idx + 1) total_blogs).

Fixpoint _crawl_blogs_loop (blogs : list Database.blog_row) (resume : bool)
    (b_idx total_blogs : nat) : M unit :=
  match blogs with
  | [] => ret ()
  | blog :: rest =>
      stop <- should_stop ;
      if stop then ret ()
      else
        _crawl_blogs_body blog resume b_idx total_blogs ;;;
        _crawl_blogs_loop rest resume (S b_idx) total_blogs
  end.

Definition _crawl_blogs (blogs : list Database.blog_row) (resume : bool)
    : M unit :=
  _crawl_blogs_loop blogs resume 0 (length blogs) ;;;
  put MsgCrawlFinished.

End Orchestrator.



(** The stage executors entered, in order. *)
Definition executed_steps (h : list event) : list string :=
  omap (λ e, match e with EvStep step => Some step | _ => None end) h.

(** The posts taken up by stage [step], in order. *)
Definition processed_posts (step : string) (h : list event) : list string :=
  omap (λ e, match e with
             | EvPost step' post_id =>
                 if bool_decide (step' = step) then Some post_id else None
             | _ => None
             end) h.

(** The cursor values handed to [save_progress] for [blog_id], in order. *)
Definition saved_cursors (blog_id : string) (h : list event)
    : list (option Z) :=
  omap (λ e, match e with
             | EvSave doc _ =>
                 Some (get_blog_progress doc blog_id
                         ≫= bp_current_post_index)
             | _ => None
             end) h.

End Main.

(** ** Vocabulary of the properties *)

Module Spec.
Import Helpers.

(** The status of a stage of a record, an entry that is missing counting as
    pending. *)
Definition stage_status (record : blog_record) (step : string) : string :=
  default "pending" (steps_of record !! step).


(** The record [update_blog_progress] appends for a blog it does not know. *)
Definition fresh_record (blog_id : string) (blog_name status : option string)
    (total_posts current_post_index : option Z) : blog_record :=
  BlogProgress (Some blog_id) blog_name
    (Some (or_default_str status "pending")) (Some (or_zero total_posts))
    (Some (or_zero current_post_index)) (Some default_steps).

(** An integer argument is given when it is not [None]; a string argument is
    given when it is a non-empty string. *)
Definition given_int (new old : option Z) : option Z :=
  match new with
  | Some n => Some n
  | None => old
  end.

Definition given_str (new old : option string) : option string :=
  if truthy_str new then new else old.

(** The cascade of [delete_blog] in the order the specification words it:
    the comments of every post of the blog, then the reactions of every post,
    then the posts, the progress row and the blog row. *)
Definition delete_blog_staged (d : Database.db) (blog_id : string)
    : bool * Database.db :=
  let post_ids :=
    Database.p_id
      <$> filter (λ p, Database.p_blog_id p = blog_id) (Database.posts d) in
  let d1 :=
    foldl (λ d post_id,
             Database.set_comments d
               (filter (λ c, Database.c_post_id c ≠ post_id)
                  (Database.comments d)))
      d post_ids in
  let d2 :=
    foldl (λ d post_id,
             Database.set_reactions d
               (filter (λ r, Database.r_post_id r ≠ post_id)
                  (Database.reactions d))
               (Database.reactions_seq d))
      d1 post_ids in
  let d3 :=
    Database.set_posts d2
      (filter (λ p, Database.p_blog_id p ≠ blog_id) (Database.posts d2)) in
  let d4 :=
    Database.set_progress d3
      (filter (λ g, Database.g_blog_id g ≠ blog_id) (Database.progress d3))
      (Database.progress_seq d3) in
  let d5 :=
    Database.set_blogs d4
      (filter (λ b, Database.b_id b ≠ blog_id) (Database.blogs d4)) in
  (true, d5).

(** The store once the comments and reactions of the posts [post_ids] are
    gone. *)
Definition without_children (d : Database.db) (post_ids : list string)
    : Database.db :=
  Database.Db (Database.blogs d) (Database.posts d)
    (filter (λ r, Database.r_post_id r ∉ post_ids) (Database.reactions d))
    (Database.reactions_seq d)
    (filter (λ c, Database.c_post_id c ∉ post_ids) (Database.comments d))
    (Database.progress d) (Database.progress_seq d) (Database.ticks d).

(** The primary key of [posts]: no two rows share an identifier. *)
Definition posts_key (d : Database.db) : Prop :=
  NoDup (Database.p_id <$> Database.posts d).

(** The reaction rows of one (post, type) pair. *)
Definition reactions_of (d : Database.db) (post_id reaction_type : string)
    : list Database.reaction_row :=
  filter (λ r, Database.r_post_id r = post_id
               ∧ Database.r_reaction_type r = reaction_type)
    (Database.reactions d).

(** The comment rows with one identifier. *)
Definition comments_with (d : Database.db) (comment_id : string)
    : list Database.comment_row :=
  filter (λ c, Database.c_id c = comment_id) (Database.comments d).

(** The cursor a progress document holds for a blog. *)
Definition cursor_of (doc : progress_doc) (blog_id : string) : option Z :=
  get_blog_progress doc blog_id ≫= bp_current_post_index.

(** The events of the post-content stage when it takes up [posts] one after
    the other and the calls of [save_progress] that follow them are [saves]:
    each post is followed at once by the save made for it. *)
Fixpoint post_content_events (posts : list Database.post_row)
    (saves : list (progress_doc * bool)) : list Main.event :=
  match posts, saves with
  | post :: posts', (doc, written) :: saves' =>
      Main.EvPost CrawlStep.POST_CONTENT (Database.p_id post)
      :: Main.EvSave doc written :: post_content_events posts' saves'
  | _, _ => []
  end.

(** Running [m] from [s] appends events to the history, and the stage
    executors entered among them satisfy [P]. *)
Definition emits_at {A} (m : Main.M A) (s : Main.app)
    (P : list string → Prop) : Prop :=
  ∃ events,
    Main.history (m s).2 = Main.history s ++ events
    ∧ P (Main.executed_steps events).

(** [m] enters no stage executor, from any state. *)
Definition quiet {A} (m : Main.M A) : Prop :=
  ∀ s, emits_at m s (λ steps, steps = []).

(** The other keys of the schema: [blogs.id], [comments.id],
    [UNIQUE(post_id, reaction_type)] and [progress.blog_id UNIQUE]. *)
Definition blogs_key (d : Database.db) : Prop :=
  NoDup (Database.b_id <$> Database.blogs d).

Definition comments_key (d : Database.db) : Prop :=
  NoDup (Database.c_id <$> Database.comments d).

Definition reactions_key (d : Database.db) : Prop :=
  NoDup ((λ r, (Database.r_post_id r, Database.r_reaction_type r))
           <$> Database.reactions d).

Definition progress_key (d : Database.db) : Prop :=
  NoDup (Database.g_blog_id <$> Database.progress d).

(** Each element of the list is below the next one. *)
Fixpoint ascending {A} (le : A → A → bool) (l : list A) : Prop :=
  match l with
  | x :: (y :: _) as l' => le x y = true ∧ ascending le l'
  | _ => True
  end.



(** The row [add_comments_batch] hands to [INSERT OR IGNORE] for one entry of
    the batch. *)
Definition batch_comment_row (c : Database.comment_input)
    : Database.comment_row :=
  Database.CommentRow (Database.ci_id c) (Database.ci_post_id c)
    (Database.ci_parent_id c) (Database.ci_author c) (Database.ci_content c)
    (or_zero (Database.ci_like_count c)) (Database.ci_written_at c)
    (or_zero (Database.ci_is_reply c)).

(** The sum of a list of integers. *)
Definition total (l : list Z) : Z := foldr Z.add 0 l.

(** From every state whose progress document satisfies [J], [m] returns: it
    raises nothing, its result satisfies [Q] and the progress document it
    leaves satisfies [J] again. *)
Definition returns {A} (J : progress_doc → Prop) (m : Main.M A)
    (Q : A → Prop) : Prop :=
  ∀ s, J (Main.progress_data s) →
    ∃ a s', m s = (Ret a, s') ∧ J (Main.progress_data s') ∧ Q a.

End Spec.

(** ** A resume scenario

    One blog with four posts, interrupted in the post-content stage after its
    first post: that post is completed and the other three are pending, and
    the progress record carries the stage statuses completed, completed,
    in_progress, pending, pending and the cursor 1. *)

Module Scenario.
Import Helpers Main.

Definition steps : gmap string string :=
  list_to_map
    [("blog_info", "completed"); ("post_list", "completed");
     ("post_content", "in_progress"); ("reactions", "pending");
     ("comments", "pending")].

Definition record : blog_record :=
  BlogProgress (Some "b1") (Some "B") (Some "in_progress") (Some 4) (Some 1)
    (Some steps).

Definition blog : Database.blog_row :=
  Database.BlogRow "b1" "B" None "https://blog.naver.com/b1" 4 "in_progress"
    "2026-01-27 00:00:00".

Definition post (post_id crawl_status : string) : Database.post_row :=
  Database.PostRow post_id "b1" None None None None None 0 0 crawl_status
    "2026-01-27 00:00:00".

Definition store : Database.db :=
  Database.Db [blog]
    [post "b1_1" "completed"; post "b1_2" "pending"; post "b1_3" "pending";
     post "b1_4" "pending"]
    [] 0 [] [] 0 0.

Definition start : app :=
  App (ProgressData None (Some [record])) store Absent [] 0 [].

(** A site that answers every request, with the stop flag down ([site
    false]) or raised from the start ([site true]). *)
Definition site (stop : bool) : collaborators :=
  Collaborators (λ _, stop)
    (λ _ _, Ret (Some (BlogInfo (Some "B") None)))
    (λ _ _, Ret [PostSummary "b1_1" None None])
    (λ _ _ _, Ret (Some (ContentData (Some "title") None None None)))
    (λ _ _ _, Ret (Some (ReactionData (Some 0) [])))
    (λ _ _ _, Ret [])
    (λ _, "2026-01-27T00:00:00") (λ _, true) (λ _, "2026-01-27 00:00:00")
    (λ _, []).

(** A first run that is interrupted. The entity store holds the blog and
    no post yet; the crawler lists four posts; the stop flag is up from the
    [stop_from]-th interaction on, if at all. *)
Definition listed : list post_summary :=
  [PostSummary "b1_1" None None; PostSummary "b1_2" None None;
   PostSummary "b1_3" None None; PostSummary "b1_4" None None].

Definition fresh : app :=
  App default_progress (Database.Db [blog] [] [] 0 [] [] 0 0) Absent [] 0 [].

Definition crawler (stop_from : option nat) : collaborators :=
  Collaborators
    (λ t, match stop_from with Some n => (n <=? t)%nat | None => false end)
    (λ _ _, Ret (Some (BlogInfo (Some "B") None)))
    (λ _ _, Ret listed)
    (λ _ _ _, Ret (Some (ContentData (Some "title") None None None)))
    (λ _ _ _, Ret (Some (ReactionData (Some 0) [])))
    (λ _ _ _, Ret [])
    (λ _, "2026-01-27T00:00:00") (λ _, true) (λ _, "2026-01-27 00:00:00")
    (λ _, []).

End Scenario.

(** * Properties *)

(** ** The progress store *)

Section HelpersProperties.
Import Helpers Spec.




Local Opaque CrawlStep.all_steps.



(** *** [has_incomplete_work] *)



(** C2 (the code departs from the claim). A record read from the progress
    file whose stage map has no entry for [comments], the other four stages
    being completed and the overall status [completed]: the missing stage
    counts as pending, and [get_next_incomplete_step] does return it, yet
    [has_incomplete_work] answers [false]. *)
Theorem has_incomplete_work_misses_absent_stage :
  let steps : gmap string string :=
    list_to_map [("blog_info", "completed"); ("post_list", "completed");
                 ("post_content", "completed"); ("reactions", "completed")] in
  let record :=
    BlogProgress (Some "b1") (Some "X") (Some "completed") (Some 50)
      (Some 50) (Some steps) in
  stage_status record "comments" = "pending"
  ∧ get_next_incomplete_step record = Some "comments"
  ∧ has_incomplete_work (ProgressData None (Some [record])) = false.
Proof. by vm_compute. Qed.

(** *** [load_progress] *)

Section LoadProgress.
Variable json_load : list N → option progress_doc.

Lemma load_progress_absent :
  load_progress json_load Absent = Ret default_progress.
Proof. done. Qed.

Lemma load_progress_unreadable :
  load_progress json_load Unreadable = Ret default_progress.
Proof. done. Qed.

Lemma load_progress_malformed_json bytes text :
  utf8_decode bytes = Some text → json_load text = None →
  load_progress json_load (Content bytes) = Ret default_progress.
Proof. intros Hdec Hjson. cbn. by rewrite Hdec, Hjson. Qed.

(** With a parser that fails with [JSONDecodeError] only, the function raises
    exactly on a file that is not valid UTF-8. *)
Lemma load_progress_raises progress_path e :
  load_progress json_load progress_path = Raise e
  ↔ e = UnicodeDecodeError
    ∧ ∃ bytes, progress_path = Content bytes ∧ utf8_decode bytes = None.
Proof.
  destruct progress_path as [| |bytes]; cbn.
  - split; [done|]. by intros (_ & ? & ? & _).
  - split; [done|]. by intros (_ & ? & ? & _).
  - destruct (utf8_decode bytes) as [text|] eqn:Hdec.
    + destruct (json_load text); (split; [done|]);
        intros (_ & ? & [= <-] & ?); congruence.
    + split; [intros [= <-]; eauto|]. by intros [-> _].
Qed.

(** C3 (the code departs from the claim). The progress file holds the single
    byte [0xFF], which is not UTF-8: [load_progress] does not return the
    default state, it lets [UnicodeDecodeError] escape. *)
Theorem load_progress_invalid_bytes_raise :
  load_progress json_load (Content [Byte.xff]) = Raise UnicodeDecodeError.
Proof. done. Qed.

End LoadProgress.

(** *** [update_blog_progress] *)

Lemma find_blog_index_find l blog_id :
  find_blog_index l blog_id
  = fst <$> list_find (λ r, bp_blog_id r = Some blog_id) l.
Proof.
  induction l as [|r l IH]; [done|].
  cbn [find_blog_index list_find]. rewrite IH.
  case_bool_decide; case_decide; try done.
  by destruct (list_find _ l) as [[? ?]|].
Qed.

Lemma get_blog_progress_find progress_data blog_id :
  get_blog_progress progress_data blog_id
  = snd <$> list_find (λ r, bp_blog_id r = Some blog_id)
              (blogs_of progress_data).
Proof.
  unfold get_blog_progress, get_blog_progress_ref, deref.
  rewrite find_blog_index_find.
  destruct (list_find _ _) as [[i r]|] eqn:Hfind; [|done].
  apply list_find_Some in Hfind as (Hlookup & _). cbn.
  by rewrite Hlookup.
Qed.

Lemma get_blog_progress_ref_Some progress_data blog_id ref :
  get_blog_progress_ref progress_data blog_id = Some ref →
  ∃ record,
    list_find (λ r, bp_blog_id r = Some blog_id) (blogs_of progress_data)
    = Some (ref, record)
    ∧ deref progress_data ref = Some record
    ∧ get_blog_progress progress_data blog_id = Some record.
Proof.
  unfold get_blog_progress_ref. rewrite find_blog_index_find.
  rewrite get_blog_progress_find.
  destruct (list_find _ _) as [[i r]|] eqn:Hfind; [|done].
  intros [= <-]. exists r. split_and!; [done| |done].
  by apply list_find_Some in Hfind as (? & _).
Qed.

Lemma get_blog_progress_ref_None progress_data blog_id :
  get_blog_progress_ref progress_data blog_id = None
  ↔ get_blog_progress progress_data blog_id = None.
Proof.
  unfold get_blog_progress_ref. rewrite find_blog_index_find.
  rewrite get_blog_progress_find.
  by destruct (list_find _ _) as [[i r]|].
Qed.

(** Altering an element without changing what the search looks at. *)
Lemma list_find_alter_stable {A} (P : A → Prop) `{!∀ x, Decision (P x)}
    (f : A → A) (l : list A) (i : nat) :
  (∀ x, P (f x) ↔ P x) →
  list_find P (alter f i l)
  = (λ '(j, x), (j, if decide (j = i) then f x else x)) <$> list_find P l.
Proof.
  intros Hf. revert i. induction l as [|x l IH]; intros i; [done|].
  destruct i as [|i]; cbn [alter list_alter list_find].
  - destruct (decide (P x)) as [Hx|Hx].
    + rewrite decide_True by by apply Hf. cbn. by rewrite decide_True.
    + rewrite decide_False by by rewrite Hf.
      destruct (list_find P l) as [[j y]|]; [|done]. cbn.
      by rewrite decide_False by lia.
  - fold (alter f i l). rewrite IH. case_decide; [cbn; by rewrite decide_False|].
    destruct (list_find P l) as [[j y]|]; [|done]. cbn.
    do 2 case_decide; (done || lia).
Qed.

Lemma blogs_of_alter progress_data f ref :
  blogs_of (ProgressData (pd_last_updated progress_data)
              (alter f ref <$> pd_blogs progress_data))
  = alter f ref (blogs_of progress_data).
Proof. unfold blogs_of. by destruct (pd_blogs progress_data). Qed.

Lemma blogs_of_Some last_updated l :
  blogs_of (ProgressData last_updated (Some l)) = l.
Proof. done. Qed.

Lemma default_steps_pending s :
  s ∈ CrawlStep.all_steps → default_steps !! s = Some "pending".
Proof.
  Local Transparent CrawlStep.all_steps.
  unfold CrawlStep.all_steps. rewrite !elem_of_cons, elem_of_nil.
  intros [->|[->|[->|[->|[->|[]]]]]]; by vm_compute.
  Local Opaque CrawlStep.all_steps.
Qed.

(** C4 (as amended). When no record for the blog exists,
    [update_blog_progress] appends a record with all five stages pending.
    Otherwise it assigns, in the first record of that blog, exactly the
    fields that are given, a string argument counting as given only when it
    is a non-empty string: the other fields keep their values; when [step]
    and [step_status] are both given, that one stage gets the new status and
    every other entry of the stage map is as before. Records of other blogs
    and the time stamp of the document are the same in both cases. *)
Theorem update_blog_progress_merge progress_data blog_id blog_name status
    total_posts current_post_index step step_status :
  let progress_data' :=
    update_blog_progress progress_data blog_id blog_name status total_posts
      current_post_index step step_status in
  let fresh :=
    fresh_record blog_id blog_name status total_posts current_post_index in
  (get_blog_progress progress_data blog_id = None →
     blogs_of progress_data' = blogs_of progress_data ++ [fresh]
     ∧ get_blog_progress progress_data' blog_id = Some fresh
     ∧ ∀ s, s ∈ CrawlStep.all_steps → steps_of fresh !! s = Some "pending")
  ∧ (∀ old, get_blog_progress progress_data blog_id = Some old →
       ∃ new,
         get_blog_progress progress_data' blog_id = Some new
         ∧ length (blogs_of progress_data') = length (blogs_of progress_data)
         ∧ bp_blog_id new = bp_blog_id old
         ∧ bp_blog_name new = given_str blog_name (bp_blog_name old)
         ∧ bp_status new = given_str status (bp_status old)
         ∧ bp_total_posts new = given_int total_posts (bp_total_posts old)
         ∧ bp_current_post_index new
           = given_int current_post_index (bp_current_post_index old)
         ∧ (∀ st ss,
              step = Some st → step_status = Some ss →
              st ≠ "" → ss ≠ "" →
              steps_of new !! st = Some ss
              ∧ ∀ s, s ≠ st → steps_of new !! s = steps_of old !! s)
         ∧ (truthy_str step && truthy_str step_status = false →
            bp_steps_completed new = bp_steps_completed old))
  ∧ (∀ other, other ≠ blog_id →
       get_blog_progress progress_data' other
       = get_blog_progress progress_data other)
  ∧ pd_last_updated progress_data' = pd_last_updated progress_data.
Proof.
  cbn zeta. unfold update_blog_progress.
  destruct (get_blog_progress_ref progress_data blog_id) as [ref|] eqn:Href.
  - (* the record exists *)
    apply get_blog_progress_ref_Some in Href as (old & Hfind & Hderef & Hget).
    rewrite Hget. split_and!; [done| | |done].
    + intros ? [= <-].
      exists (merge_blog_progress old blog_name status total_posts
                current_post_index step step_status).
      rewrite get_blog_progress_find, blogs_of_alter.
      rewrite list_find_alter_stable by done. rewrite Hfind.
      cbn. rewrite decide_True by done.
      split_and!; try done.
      * by rewrite length_alter.
      * intros st ss -> -> Hst Hss.
        destruct st as [|a st]; [done|]. destruct ss as [|b ss]; [done|].
        cbn. split; [by rewrite lookup_insert_eq|].
        intros s Hs. by rewrite lookup_insert_ne.
      * destruct step as [[|? ?]|], step_status as [[|? ?]|]; done.
    + intros other Hother.
      rewrite !get_blog_progress_find, blogs_of_alter.
      rewrite list_find_alter_stable by done.
      destruct (list_find (λ r, bp_blog_id r = Some other)
                  (blogs_of progress_data)) as [[j r]|] eqn:Hfind'; [|done].
      cbn. case_decide as Hj; [|done]. subst j.
      apply list_find_Some in Hfind as (Hold & Hid & _).
      apply list_find_Some in Hfind' as (Hr & Hid' & _).
      congruence.
  - (* no record yet *)
    apply get_blog_progress_ref_None in Href as Hget. rewrite Hget.
    rewrite get_blog_progress_find in Hget.
    apply fmap_None in Hget. split_and!; [|done| |done].
    + intros _. split_and!; [done| |].
      * rewrite get_blog_progress_find, blogs_of_Some.
        rewrite list_find_app_r by done. cbn.
        by rewrite decide_True.
      * intros s Hs. by apply default_steps_pending.
    + intros other Hother.
      rewrite !get_blog_progress_find, blogs_of_Some.
      destruct (list_find (λ r, bp_blog_id r = Some other)
                  (blogs_of progress_data)) as [[j r]|] eqn:Hfind.
      * by erewrite list_find_app_l.
      * rewrite list_find_app_r by done. cbn.
        rewrite decide_False; [done|congruence].
Qed.

(** The claim before its amendment fails on two inputs: a [step] and
    [step_status] sent along with the creation of a record are dropped (the
    new stage map is all pending), and an empty string sent as [blog_name]
    for an existing record is not stored. *)
Lemma update_blog_progress_unconditional_merge_fails :
  (get_blog_progress
     (update_blog_progress default_progress "b1" None None None None
        (Some "blog_info") (Some "completed")) "b1"
   ≫= λ r, steps_of r !! "blog_info") ≠ Some "completed"
  ∧ (let progress_data :=
       update_blog_progress default_progress "b1" (Some "X") None None None
         None None in
     get_blog_progress
       (update_blog_progress progress_data "b1" (Some "") None None None
          None None) "b1"
     ≫= bp_blog_name) ≠ Some "".
Proof. split; by vm_compute. Qed.

(** The amended statement at a record that exists: the test sequence of
    [test_progress.py]. *)
Lemma update_blog_progress_merge_witness :
  let progress_data :=
    update_blog_progress default_progress "blog2" (Some "Blog 2")
      (Some "pending") (Some 10) None None None in
  let progress_data' :=
    update_blog_progress progress_data "blog2" None None None None
      (Some "post_content") (Some "in_progress") in
  ∃ new,
    get_blog_progress progress_data' "blog2" = Some new
    ∧ bp_blog_name new = Some "Blog 2"
    ∧ steps_of new !! "post_content" = Some "in_progress"
    ∧ steps_of new !! "blog_info" = Some "pending".
Proof.
  cbn zeta.
  pose proof (update_blog_progress_merge
    (update_blog_progress default_progress "blog2" (Some "Blog 2")
       (Some "pending") (Some 10) None None None)
    "blog2" None None None None (Some "post_content") (Some "in_progress"))
    as (_ & Hmerge & _).
  destruct (Hmerge (fresh_record "blog2" (Some "Blog 2") (Some "pending")
                      (Some 10) None))
    as (new & Hnew & _ & _ & Hname & _ & _ & _ & Hstep & _);
    [by vm_compute|].
  destruct (Hstep "post_content" "in_progress") as [Hset Hframe];
    [done..|].
  exists new. split_and!; [done|by rewrite Hname|done|].
  rewrite Hframe by done. by vm_compute.
Defined.

End HelpersProperties.

(** ** The repository's own tests, replayed on the embedding *)

Section ReplayedTests.
Import Helpers.

(** [test_progress.py]: save/load cycle, incomplete work and next step. *)
Example test_progress_incomplete_work :
  let data :=
    update_blog_progress default_progress "blog1" (Some "Test Blog")
      (Some "in_progress") (Some 50) None None None in
  let completed :=
    update_blog_progress
      (foldl (λ pd step,
                update_blog_progress pd "blog1" None None None None
                  (Some step) (Some "completed"))
         data CrawlStep.all_steps)
      "blog1" None (Some "completed") None None None None in
  let with_blog2 :=
    update_blog_progress completed "blog2" (Some "Blog 2") (Some "pending")
      (Some 10) None None None in
  has_incomplete_work default_progress = false
  ∧ has_incomplete_work data = true
  ∧ has_incomplete_work completed = false
  ∧ has_incomplete_work with_blog2 = true
  ∧ (get_blog_progress with_blog2 "blog1" ≫= get_next_incomplete_step) = None
  ∧ (get_blog_progress with_blog2 "blog2" ≫= get_next_incomplete_step)
    = Some CrawlStep.BLOG_INFO.
Proof. by vm_compute. Qed.

Example test_progress_partial_progress :
  let data :=
    update_blog_progress default_progress "blog2" (Some "Blog 2")
      (Some "pending") (Some 10) None None None in
  let step pd name status :=
    update_blog_progress pd "blog2" None None None None (Some name)
      (Some status) in
  let partial :=
    step (step (step data "blog_info" "completed") "post_list" "completed")
      "post_content" "in_progress" in
  let later := step partial "post_content" "completed" in
  let removed := remove_blog_from_progress later "blog2" in
  (get_blog_progress partial "blog2" ≫= get_next_incomplete_step)
  = Some CrawlStep.POST_CONTENT
  ∧ (get_blog_progress later "blog2" ≫= get_next_incomplete_step)
    = Some CrawlStep.REACTIONS
  ∧ (get_blog_progress
       (update_blog_progress later "blog2" None None None (Some 25) None None)
       "blog2" ≫= bp_current_post_index) = Some 25
  ∧ get_blog_progress removed "blog2" = None
  ∧ length (blogs_of (remove_blog_from_progress removed "nonexistent"))
    = length (blogs_of removed).
Proof. by vm_compute. Qed.

(** [test_db.py]: duplicates, the reaction upsert and the cascade. *)
Example test_db_integrity :
  let ts := λ _ : nat, "2026-01-27 00:00:00" in
  let b1 := Database.add_blog ts Database.empty_db "blog1" "Test Blog"
              "https://blog.naver.com/blog1" (Some "Author1") 10 in
  let b2 := Database.add_blog ts b1.2 "blog1" "Dup" "url" (Some "Dup") 0 in
  let p1 := Database.add_post ts b2.2 "blog1_001" "blog1" (Some "Post 1")
              (Some "https://url1") in
  let p2 := Database.add_post ts p1.2 "blog1_001" "blog1" (Some "Dup")
              (Some "url") in
  let batch :=
    Database.add_posts_batch ts p2.2
      [Database.PostInput "blog1_002" "blog1" (Some "Post 2") (Some "url2");
       Database.PostInput "blog1_003" "blog1" (Some "Post 3") (Some "url3");
       Database.PostInput "blog1_001" "blog1" (Some "Dup") (Some "dup")] in
  let r1 := Database.add_reaction batch.2 "blog1_001" "like" 30 in
  let r2 := Database.add_reaction r1.2 "blog1_001" "fun" 12 in
  let r3 := Database.add_reaction r2.2 "blog1_001" "like" 35 in
  b1.1 = true ∧ b2.1 = false ∧ p1.1 = true ∧ p2.1 = false
  ∧ batch.1 = 2
  ∧ length (Database.get_blog_posts batch.2 "blog1") = 3%nat
  ∧ length (Database.get_reactions r3.2 "blog1_001") = 2%nat
  ∧ Database.r_count <$> Spec.reactions_of r3.2 "blog1_001" "like" = [35].
Proof. by vm_compute. Qed.

End ReplayedTests.

(** ** The entity store *)

Section DatabaseProperties.
Import Database Spec.

Variable CURRENT_TIMESTAMP : nat → string.

Lemma filter_filter_nil {A} (Q R : A → Prop)
    `{!∀ x, Decision (Q x)} `{!∀ x, Decision (R x)} (l : list A) :
  (∀ x, Q x → ¬ R x) → filter Q (filter R l) = [].
Proof.
  intros HQR. induction l as [|x l IH]; [done|].
  destruct (decide (R x)) as [HR|HR].
  - rewrite (filter_cons_True R) by done.
    rewrite filter_cons_False; [done|]. intros HQ. by apply (HQR x).
  - by rewrite (filter_cons_False R) by done.
Qed.

Lemma filter_filter_absorb {A} (Q R : A → Prop)
    `{!∀ x, Decision (Q x)} `{!∀ x, Decision (R x)} (l : list A) :
  (∀ x, x ∈ l → Q x → R x) → filter Q (filter R l) = filter Q l.
Proof.
  induction l as [|x l IH]; intros HQR; [done|].
  assert (filter Q (filter R l) = filter Q l) as IH'.
  { apply IH. intros y Hy. apply HQR. by right. }
  destruct (decide (R x)) as [HR|HR].
  - rewrite (filter_cons_True R) by done.
    destruct (decide (Q x)).
    + rewrite !(filter_cons_True Q) by done. by rewrite IH'.
    + by rewrite !(filter_cons_False Q) by done.
  - rewrite (filter_cons_False R) by done. rewrite IH'.
    rewrite (filter_cons_False Q); [done|].
    intros HQ. apply HR, HQR; [by left|done].
Qed.

Lemma filter_all {A} (R : A → Prop) `{!∀ x, Decision (R x)} (l : list A) :
  (∀ x, R x) → filter R l = l.
Proof.
  intros HR. induction l as [|x l IH]; [done|].
  by rewrite filter_cons_True, IH.
Qed.

(** *** Reactions *)

Lemma reactions_of_replace d post_id reaction_type count :
  reactions_of (replace_reaction d post_id reaction_type count)
    post_id reaction_type
  = [ReactionRow (reactions_seq d + 1) post_id reaction_type count].
Proof.
  unfold reactions_of, replace_reaction. cbn.
  rewrite filter_app, filter_filter_nil by auto.
  by rewrite filter_cons_True.
Qed.

Lemma reactions_of_replace_other d post_id reaction_type count post_id' type' :
  (post_id', type') ≠ (post_id, reaction_type) →
  reactions_of (replace_reaction d post_id reaction_type count) post_id' type'
  = reactions_of d post_id' type'.
Proof.
  intros Hne. unfold reactions_of, replace_reaction. cbn.
  rewrite filter_app, list_filter_filter_l.
  - rewrite filter_cons_False; [by rewrite app_nil_r|].
    cbn. intros [-> ->]. done.
  - intros r [-> ->] [? ?]. congruence.
Qed.

(** C8. [add_reaction] is an upsert: after [add_reaction(post, type, c1)] and
    then [add_reaction(post, type, c2)], whatever the store held before, the
    pair (post, type) has exactly one reaction row and its count is [c2]; both
    calls answer [True], and the rows of every other pair are those of the
    start. *)
Theorem add_reaction_upsert d post_id reaction_type c1 c2 :
  let d1 := add_reaction d post_id reaction_type c1 in
  let d2 := add_reaction d1.2 post_id reaction_type c2 in
  d1.1 = true ∧ d2.1 = true
  ∧ (∃ id, reactions_of d2.2 post_id reaction_type
           = [ReactionRow id post_id reaction_type c2])
  ∧ length (reactions_of d1.2 post_id reaction_type) = 1%nat
  ∧ ∀ post_id' type', (post_id', type') ≠ (post_id, reaction_type) →
      reactions_of d2.2 post_id' type' = reactions_of d post_id' type'.
Proof.
  cbn zeta. unfold add_reaction. cbn [fst snd]. split_and!; [done..| | |].
  - eexists. apply reactions_of_replace.
  - by rewrite reactions_of_replace.
  - intros post_id' type' Hne. by rewrite !reactions_of_replace_other.
Qed.

(** *** Comments *)

Lemma get_comment_head d comment_id :
  get_comment d comment_id = head (comments_with d comment_id).
Proof. done. Qed.

Lemma ignore_comment_present d row existing :
  get_comment d (c_id row) = Some existing → ignore_comment d row = d.
Proof. unfold ignore_comment. by intros ->. Qed.

Lemma ignore_comment_absent d row :
  get_comment d (c_id row) = None →
  comments_with (ignore_comment d row) (c_id row) = [row]
  ∧ get_comment (ignore_comment d row) (c_id row) = Some row.
Proof.
  unfold ignore_comment. intros Hnone. rewrite Hnone.
  rewrite get_comment_head in *. apply head_None in Hnone.
  unfold comments_with in *. cbn.
  rewrite filter_app, Hnone. by rewrite filter_cons_True.
Qed.

Lemma ignore_comment_known d row :
  is_Some (get_comment (ignore_comment d row) (c_id row)).
Proof.
  destruct (get_comment d (c_id row)) as [existing|] eqn:Hget.
  - rewrite (ignore_comment_present d row existing) by done. by rewrite Hget.
  - destruct (ignore_comment_absent d row Hget) as [_ ->]. done.
Qed.

(** C9. [add_comment] inserts or ignores: when a comment is added with
    content [A] and a second comment with the same identifier is then added
    with content [B] (whatever its other fields), the second call leaves the
    store exactly as the first call left it; and when the identifier was new,
    it has exactly one row afterwards, the row of the first call, with
    content [A]. Both calls answer [True]. *)
Theorem add_comment_insert_or_ignore d comment_id
    post_id author content_a like_count written_at parent_id is_reply
    post_id' author' content_b like_count' written_at' parent_id' is_reply' :
  let d1 :=
    add_comment d comment_id post_id author content_a like_count written_at
      parent_id is_reply in
  let d2 :=
    add_comment d1.2 comment_id post_id' author' content_b like_count'
      written_at' parent_id' is_reply' in
  d1.1 = true ∧ d2.1 = true
  ∧ d2.2 = d1.2
  ∧ (get_comment d comment_id = None →
     comments_with d2.2 comment_id
     = [CommentRow comment_id post_id parent_id (Some author) (Some content_a)
          like_count written_at is_reply]
     ∧ c_content <$> get_comment d2.2 comment_id = Some (Some content_a)).
Proof.
  cbn zeta. unfold add_comment. cbn [fst snd].
  set (row := CommentRow comment_id post_id parent_id (Some author)
                (Some content_a) like_count written_at is_reply).
  set (row' := CommentRow comment_id post_id' parent_id' (Some author')
                 (Some content_b) like_count' written_at' is_reply').
  destruct (ignore_comment_known d row) as [kept Hkept].
  rewrite (ignore_comment_present (ignore_comment d row) row' kept) by done.
  split_and!; try done.
  intros Hnew. destruct (ignore_comment_absent d row Hnew) as [Hrows Hget].
  change (c_id row) with comment_id in *. by rewrite Hrows, Hget.
Qed.

Lemma add_comment_insert_or_ignore_witness :
  let d1 := add_comment empty_db "c1" "p1" "User A" "A" 0 None None 0 in
  let d2 := add_comment d1.2 "c1" "p1" "User B" "B" 5 None None 0 in
  get_comment empty_db "c1" = None
  ∧ d2.2 = d1.2
  ∧ c_content <$> get_comment d2.2 "c1" = Some (Some "A").
Proof.
  assert (get_comment empty_db "c1" = None) as Hnew by done.
  pose proof (add_comment_insert_or_ignore empty_db "c1" "p1" "User A" "A" 0
                None None 0 "p1" "User B" "B" 5 None None 0)
    as (_ & _ & Hsame & Hfresh).
  destruct (Hfresh Hnew) as [_ Hcontent].
  split_and!; [exact Hnew|exact Hsame|exact Hcontent].
Defined.

(** *** What the insert operations report *)

Lemma add_comments_batch_loop_result d added comments :
  (add_comments_batch_loop d added comments).1
  = added + Z.of_nat (length comments).
Proof.
  revert d added. induction comments as [|c comments IH]; intros d added.
  - cbn. lia.
  - cbn [add_comments_batch_loop length]. rewrite IH. lia.
Qed.

Lemma add_comments_batch_loop_known d added comments :
  (∀ c, c ∈ comments → is_Some (get_comment d (ci_id c))) →
  (add_comments_batch_loop d added comments).2 = d.
Proof.
  revert added. induction comments as [|c comments IH]; intros added Hknown;
    [done|].
  cbn [add_comments_batch_loop].
  destruct (Hknown c) as [existing Hc]; [by left|].
  erewrite ignore_comment_present by exact Hc.
  apply IH. intros c' Hc'. apply Hknown. by right.
Qed.

Lemma insert_post_Some d post_id blog_id title post_url d' :
  insert_post CURRENT_TIMESTAMP d post_id blog_id title post_url = Some d' →
  get_post d post_id = None
  ∧ length (posts d') = S (length (posts d)).
Proof.
  unfold insert_post. destruct (get_post d post_id); [done|].
  intros [= <-]. cbn. rewrite length_app. cbn. split; [done|lia].
Qed.

Lemma add_posts_batch_loop_result d added batch :
  let r := add_posts_batch_loop CURRENT_TIMESTAMP d added batch in
  r.1 = added + (Z.of_nat (length (posts r.2)) - Z.of_nat (length (posts d))).
Proof.
  revert d added. induction batch as [|post batch IH]; intros d added.
  - cbn. lia.
  - cbn zeta in *. cbn [add_posts_batch_loop].
    destruct (insert_post _ _ _ _ _ _) as [d'|] eqn:Hins.
    + apply insert_post_Some in Hins as [_ Hlen]. rewrite IH. lia.
    + apply IH.
Qed.

(** C10. The comment inserts do not tell a new comment from an ignored
    duplicate: [add_comment] on an identifier that is already stored answers
    [True] and leaves the store as it was, and [add_comments_batch] answers
    the number of comments it was handed, also when every one of them is
    already stored and no row is added. The post inserts do tell: [add_post]
    on a stored identifier answers [False], and [add_posts_batch] answers the
    number of rows by which the table grew. *)
Theorem comment_inserts_hide_duplicates d :
  (∀ existing comment_id post_id author content like_count written_at
     parent_id is_reply,
     get_comment d comment_id = Some existing →
     add_comment d comment_id post_id author content like_count written_at
       parent_id is_reply = (true, d))
  ∧ (∀ batch,
       (add_comments_batch d batch).1 = Z.of_nat (length batch))
  ∧ (∀ batch,
       (∀ c, c ∈ batch → is_Some (get_comment d (ci_id c))) →
       add_comments_batch d batch = (Z.of_nat (length batch), d))
  ∧ (∀ existing post_id blog_id title post_url,
       get_post d post_id = Some existing →
       add_post CURRENT_TIMESTAMP d post_id blog_id title post_url
       = (false, d))
  ∧ (∀ batch,
       let r := add_posts_batch CURRENT_TIMESTAMP d batch in
       r.1 = Z.of_nat (length (posts r.2)) - Z.of_nat (length (posts d))).
Proof.
  split_and!.
  - intros existing comment_id * Hknown. unfold add_comment.
    by erewrite ignore_comment_present by exact Hknown.
  - intros batch. unfold add_comments_batch.
    rewrite add_comments_batch_loop_result. lia.
  - intros batch Hknown. unfold add_comments_batch.
    rewrite (surjective_pairing (add_comments_batch_loop d 0 batch)).
    rewrite add_comments_batch_loop_result,
      add_comments_batch_loop_known by done.
    by rewrite Z.add_0_l.
  - intros existing post_id * Hknown. unfold add_post, insert_post.
    by rewrite Hknown.
  - intros batch. cbn zeta. unfold add_posts_batch.
    rewrite add_posts_batch_loop_result. lia.
Qed.

(** *** [delete_blog] *)

Lemma without_children_nil d : without_children d [] = d.
Proof.
  unfold without_children. destruct d; cbn.
  f_equal; apply filter_all; intros x; apply not_elem_of_nil.
Qed.

Lemma without_children_cons d post_id post_ids :
  without_children (delete_post_children d post_id) post_ids
  = without_children d (post_id :: post_ids).
Proof.
  unfold without_children, delete_post_children; cbn. f_equal.
  - rewrite list_filter_filter. apply list_filter_iff.
    intros r. rewrite not_elem_of_cons. tauto.
  - rewrite list_filter_filter. apply list_filter_iff.
    intros c. rewrite not_elem_of_cons. tauto.
Qed.

(** The loop of [delete_blog], which removes for each post in turn its
    comments and then its reactions. *)
Lemma foldl_delete_post_children d post_ids :
  foldl delete_post_children d post_ids = without_children d post_ids.
Proof.
  revert d. induction post_ids as [|post_id post_ids IH]; intros d;
    cbn [foldl].
  - by rewrite without_children_nil.
  - by rewrite IH, without_children_cons.
Qed.

(** The two loops of the staged cascade. *)
Lemma foldl_delete_comments d post_ids :
  foldl (λ d post_id,
           set_comments d (filter (λ c, c_post_id c ≠ post_id) (comments d)))
    d post_ids
  = set_comments d (filter (λ c, c_post_id c ∉ post_ids) (comments d)).
Proof.
  revert d. induction post_ids as [|post_id post_ids IH]; intros d;
    cbn [foldl].
  - destruct d; unfold set_comments; cbn. f_equal. symmetry.
    apply filter_all. intros x. apply not_elem_of_nil.
  - rewrite IH. unfold set_comments; cbn. f_equal.
    rewrite list_filter_filter. apply list_filter_iff.
    intros c. rewrite not_elem_of_cons. tauto.
Qed.

Lemma foldl_delete_reactions d post_ids :
  foldl (λ d post_id,
           set_reactions d
             (filter (λ r, r_post_id r ≠ post_id) (reactions d))
             (reactions_seq d))
    d post_ids
  = set_reactions d (filter (λ r, r_post_id r ∉ post_ids) (reactions d))
      (reactions_seq d).
Proof.
  revert d. induction post_ids as [|post_id post_ids IH]; intros d;
    cbn [foldl].
  - destruct d; unfold set_reactions; cbn. f_equal. symmetry.
    apply filter_all. intros x. apply not_elem_of_nil.
  - rewrite IH. unfold set_reactions; cbn. f_equal.
    rewrite list_filter_filter. apply list_filter_iff.
    intros r. rewrite not_elem_of_cons. tauto.
Qed.

(** The store that [delete_blog] leaves. *)
Lemma delete_blog_store d blog_id :
  let post_ids := p_id <$> filter (λ p, p_blog_id p = blog_id) (posts d) in
  delete_blog d blog_id
  = (true,
     Db (filter (λ b, b_id b ≠ blog_id) (blogs d))
       (filter (λ p, p_blog_id p ≠ blog_id) (posts d))
       (filter (λ r, r_post_id r ∉ post_ids) (reactions d))
       (reactions_seq d)
       (filter (λ c, c_post_id c ∉ post_ids) (comments d))
       (filter (λ g, g_blog_id g ≠ blog_id) (progress d))
       (progress_seq d) (ticks d)).
Proof.
  cbn zeta. unfold delete_blog. by rewrite foldl_delete_post_children.
Qed.

Lemma delete_blog_staged_store d blog_id :
  delete_blog_staged d blog_id = delete_blog d blog_id.
Proof.
  rewrite delete_blog_store. unfold delete_blog_staged.
  by rewrite foldl_delete_comments, foldl_delete_reactions.
Qed.

Lemma posts_key_inj d p q :
  posts_key d → p ∈ posts d → q ∈ posts d → p_id p = p_id q → p = q.
Proof.
  unfold posts_key. induction (posts d) as [|x l IH]; [by intros _ ?%elem_of_nil|].
  rewrite fmap_cons, NoDup_cons, !elem_of_cons.
  intros [Hx Hl] [->|Hp] [->|Hq] Hid; [done| | |by apply IH].
  - destruct Hx. rewrite Hid. by apply list_elem_of_fmap_2.
  - destruct Hx. rewrite <-Hid. by apply list_elem_of_fmap_2.
Qed.

(** The primary key holds in the empty store and every insert keeps it. *)
Lemma posts_key_empty : posts_key empty_db.
Proof. unfold posts_key. cbn. constructor. Qed.

Lemma posts_key_insert_post d post_id blog_id title post_url d' :
  posts_key d →
  insert_post CURRENT_TIMESTAMP d post_id blog_id title post_url = Some d' →
  posts_key d'.
Proof.
  unfold posts_key, insert_post, get_post.
  destruct (head _) eqn:Hhead; [done|]. intros Hkey [= <-]. cbn.
  apply head_None in Hhead.
  rewrite fmap_app. apply NoDup_app. split_and!; [done| |].
  - intros id (p & -> & Hp)%list_elem_of_fmap.
    cbn. rewrite list_elem_of_singleton. intros Hid.
    by eapply (filter_nil_not_elem_of _ _ p).
  - cbn. apply NoDup_singleton.
Qed.

Lemma posts_key_add_posts_batch d batch :
  posts_key d → posts_key (add_posts_batch CURRENT_TIMESTAMP d batch).2.
Proof.
  unfold add_posts_batch. generalize 0. revert d.
  induction batch as [|post batch IH]; intros d added Hkey; [done|].
  cbn [add_posts_batch_loop].
  destruct (insert_post _ _ _ _ _ _) as [d'|] eqn:Hins; [|by apply IH].
  apply IH. by eapply posts_key_insert_post.
Qed.

(** C7. [delete_blog] always answers [True], also for a blog that is not
    stored, and the store it leaves is the one the cascade of the
    specification leaves (comments of every post of the blog, reactions of
    every post, the posts, the progress row, the blog row; the source removes
    the comments and reactions post by post, which comes to the same store).
    Afterwards the blog has no posts, no progress row and no blog row, and no
    former post of it has a reaction or a comment; for every other blog the
    blog row, the posts, the progress row and the reactions and comments of
    its posts are as before. *)
Theorem delete_blog_cascade d blog_id :
  posts_key d →
  let r := delete_blog d blog_id in
  r.1 = true
  ∧ r = delete_blog_staged d blog_id
  ∧ get_blog r.2 blog_id = None
  ∧ get_blog_posts r.2 blog_id = []
  ∧ get_progress r.2 blog_id = None
  ∧ (∀ p, p ∈ posts d → p_blog_id p = blog_id →
       get_reactions r.2 (p_id p) = []
       ∧ ∀ include_replies, get_comments r.2 (p_id p) include_replies = [])
  ∧ (∀ other, other ≠ blog_id →
       get_blog r.2 other = get_blog d other
       ∧ get_blog_posts r.2 other = get_blog_posts d other
       ∧ get_posts_by_status r.2 other None = get_posts_by_status d other None
       ∧ get_progress r.2 other = get_progress d other
       ∧ ∀ p, p ∈ posts d → p_blog_id p = other →
           get_post r.2 (p_id p) = get_post d (p_id p)
           ∧ get_reactions r.2 (p_id p) = get_reactions d (p_id p)
           ∧ ∀ include_replies,
               get_comments r.2 (p_id p) include_replies
               = get_comments d (p_id p) include_replies).
Proof.
  intros Hkey. cbn zeta. rewrite delete_blog_staged_store.
  rewrite delete_blog_store. cbn [fst snd].
  set (post_ids := p_id <$> filter (λ p, p_blog_id p = blog_id) (posts d)).
  assert (∀ p, p ∈ posts d → p_blog_id p = blog_id → p_id p ∈ post_ids)
    as Hmine.
  { intros p Hp Hb. apply list_elem_of_fmap_2. by apply list_elem_of_filter. }
  assert (∀ p, p ∈ posts d → p_blog_id p ≠ blog_id → p_id p ∉ post_ids)
    as Hother.
  { intros p Hp Hb (q & Hid & [Hq Hqd]%list_elem_of_filter)%list_elem_of_fmap.
    apply Hb. by rewrite (posts_key_inj d p q). }
  split_and!; [done..| | | | |].
  - unfold get_blog; cbn. by rewrite filter_filter_nil by auto.
  - unfold get_blog_posts; cbn. by rewrite filter_filter_nil by auto.
  - unfold get_progress; cbn. by rewrite filter_filter_nil by auto.
  - intros p Hp Hb. specialize (Hmine p Hp Hb). split.
    + unfold get_reactions; cbn. apply filter_filter_nil.
      intros r -> Hr. by apply Hr.
    + intros [|]; unfold get_comments; cbn;
        (rewrite filter_filter_nil; [done|]).
      * intros c -> Hc. by apply Hc.
      * intros c [-> _] Hc. by apply Hc.
  - intros other Hne. split_and!.
    + unfold get_blog; cbn. rewrite list_filter_filter_l; [done|].
      intros b ->. done.
    + unfold get_blog_posts; cbn. rewrite list_filter_filter_l; [done|].
      intros p ->. done.
    + unfold get_posts_by_status; cbn. rewrite list_filter_filter_l; [done|].
      intros p ->. done.
    + unfold get_progress; cbn. rewrite list_filter_filter_l; [done|].
      intros g ->. done.
    + intros p Hp Hb. assert (p_blog_id p ≠ blog_id) as Hb' by congruence.
      specialize (Hother p Hp Hb'). split_and!.
      * unfold get_post; cbn. rewrite filter_filter_absorb; [done|].
        intros q Hq Hid. by rewrite (posts_key_inj d q p).
      * unfold get_reactions; cbn. rewrite list_filter_filter_l; [done|].
        intros r ->. done.
      * intros [|]; unfold get_comments; cbn;
          (rewrite list_filter_filter_l; [done|]).
        -- intros c ->. done.
        -- intros c [-> _]. done.
Qed.

(** The cascade law on the store of [test_db.py]: two blogs, one post each,
    with a comment and a reaction on both posts. *)
Lemma delete_blog_cascade_witness :
  let ts := λ _ : nat, "2026-01-27 00:00:00" in
  let d1 := (add_blog ts empty_db "blog1" "Test Blog" "url1" None 0).2 in
  let d2 := (add_blog ts d1 "blog2" "Blog 2" "url2" None 0).2 in
  let d3 := (add_post ts d2 "blog1_001" "blog1" (Some "Post 1") None).2 in
  let d4 := (add_post ts d3 "blog2_001" "blog2" (Some "P1") None).2 in
  let d5 := (add_comment d4 "c1" "blog1_001" "User A" "Nice" 5 None None 0).2 in
  let d6 := (add_comment d5 "c10" "blog2_001" "X" "Y" 0 None None 0).2 in
  let d7 := (add_reaction d6 "blog1_001" "like" 30).2 in
  let d8 := (add_reaction d7 "blog2_001" "like" 5).2 in
  let d9 := (init_progress d8 "now" "blog2" 1).2 in
  let r := delete_blog d9 "blog2" in
  posts_key d9
  ∧ r.1 = true
  ∧ get_blog r.2 "blog2" = None
  ∧ get_blog_posts r.2 "blog2" = []
  ∧ get_progress r.2 "blog2" = None
  ∧ get_blog r.2 "blog1" = get_blog d9 "blog1"
  ∧ get_blog_posts r.2 "blog1" = get_blog_posts d9 "blog1".
Proof.
  cbn zeta.
  set (d9 := (init_progress _ _ _ _).2).
  assert (posts_key d9) as Hkey.
  { apply (bool_decide_unpack _). by vm_compute. }
  destruct (delete_blog_cascade d9 "blog2" Hkey)
    as (Htrue & _ & Hblog & Hposts & Hprogress & _ & Hother).
  destruct (Hother "blog1") as (Hblog1 & Hposts1 & _); [done|].
  by split_and!.
Defined.

End DatabaseProperties.


(** The statements of C10 on the batches of [test_db.py], replayed against
    a store that already holds the rows. *)
Lemma comment_inserts_hide_duplicates_witness :
  let ts := λ _ : nat, "2026-01-27 00:00:00" in
  let d0 := (Database.add_post ts Database.empty_db "blog1_001" "blog1"
               (Some "Post 1") None).2 in
  let d := (Database.add_comment d0 "c1" "blog1_001" "User A" "Nice post!" 5
              (Some "2026-01-27") None 0).2 in
  let comment :=
    Database.CommentInput "c1" "blog1_001" None (Some "X") (Some "Y") None
      None None in
  let post := Database.PostInput "blog1_001" "blog1" (Some "Dup") None in
  Database.add_comments_batch d [comment; comment] = (2, d)
  ∧ Database.add_posts_batch ts d [post; post] = (0, d)
  ∧ Database.add_comment d "c1" "blog1_001" "User B" "B" 0 None None 0
    = (true, d)
  ∧ Database.add_post ts d "blog1_001" "blog1" None None = (false, d).
Proof.
  cbn zeta.
  set (ts := λ _ : nat, "2026-01-27 00:00:00").
  set (d := (Database.add_comment _ _ _ _ _ _ _ _ _).2).
  destruct (comment_inserts_hide_duplicates ts d)
    as (Hcomment & _ & Hbatch & Hpost & Hposts).
  split_and!.
  - apply Hbatch. intros c Hc. apply (bool_decide_unpack _).
    repeat (apply elem_of_cons in Hc as [->|Hc]; [by vm_compute|]).
    by apply elem_of_nil in Hc.
  - by vm_compute.
  - by eapply Hcomment; vm_compute.
  - by eapply Hpost; vm_compute.
Defined.

(** ** The crawl orchestrator *)

Create Rewrite HintDb run.

Section OrchestratorProperties.
Import Helpers Main Spec.

Lemma update_blog_progress_found progress_data blog_id blog_name status
    total_posts current_post_index step step_status old :
  get_blog_progress progress_data blog_id = Some old →
  get_blog_progress
    (update_blog_progress progress_data blog_id blog_name status total_posts
       current_post_index step step_status) blog_id
  = Some (merge_blog_progress old blog_name status total_posts
            current_post_index step step_status).
Proof.
  intros Hold. unfold update_blog_progress.
  destruct (get_blog_progress_ref progress_data blog_id) as [ref|] eqn:Href.
  - apply get_blog_progress_ref_Some in Href as (old' & Hfind & _ & Hget).
    assert (old' = old) as -> by congruence.
    rewrite get_blog_progress_find, blogs_of_alter.
    rewrite list_find_alter_stable by done. rewrite Hfind. cbn.
    by rewrite decide_True.
  - apply get_blog_progress_ref_None in Href. congruence.
Qed.

Lemma update_blog_progress_fresh progress_data blog_id blog_name status
    total_posts current_post_index step step_status :
  get_blog_progress progress_data blog_id = None →
  get_blog_progress
    (update_blog_progress progress_data blog_id blog_name status total_posts
       current_post_index step step_status) blog_id
  = Some (fresh_record blog_id blog_name status total_posts
            current_post_index).
Proof.
  intros Hnone. unfold update_blog_progress.
  destruct (get_blog_progress_ref progress_data blog_id) as [ref|] eqn:Href.
  - apply get_blog_progress_ref_Some in Href as (? & _ & _ & ?). congruence.
  - rewrite get_blog_progress_find in *. apply fmap_None in Hnone.
    rewrite blogs_of_Some, list_find_app_r by done. cbn.
    by rewrite decide_True.
Qed.

Lemma cursor_of_stamp last_updated doc blog_id :
  cursor_of (ProgressData last_updated (pd_blogs doc)) blog_id
  = cursor_of doc blog_id.
Proof. done. Qed.

Lemma cursor_after_update progress_data blog_id c :
  cursor_of
    (update_blog_progress progress_data blog_id None None None (Some c) None
       None) blog_id
  = Some c.
Proof.
  unfold cursor_of.
  destruct (get_blog_progress progress_data blog_id) as [old|] eqn:Hold.
  - by erewrite update_blog_progress_found.
  - rewrite update_blog_progress_fresh by done. done.
Qed.

Variable E : collaborators.

(** *** Running the primitive operations *)

Lemma bind_run {A B} (m : M A) (k : A → M B) s :
  bind m k s
  = match m s with
    | (Ret a, s') => k a s'
    | (Raise e, s') => (Raise e, s')
    end.
Proof. done. Qed.

Lemma ret_run {A} (a : A) s : ret a s = (Ret a, s).
Proof. done. Qed.

Lemma lift_run {A} (r : result A) s : lift r s = (r, s).
Proof. done. Qed.

Lemma tick_run s : tick s = (Ret (time s), ticked s).
Proof. done. Qed.

Lemma should_stop_run s :
  should_stop E s = (Ret (should_stop_at E (time s)), ticked s).
Proof. done. Qed.

Lemma put_run m s :
  put m s
  = (Ret (),
     App (progress_data s) (db s) (progress_file s) (message_queue s ++ [m])
       (time s) (history s)).
Proof. done. Qed.

Lemma record_event_run e s :
  record_event e s
  = (Ret (),
     App (progress_data s) (db s) (progress_file s) (message_queue s)
       (time s) (history s ++ [e])).
Proof. done. Qed.

Lemma with_db_run {A} (f : Database.db → A * Database.db) s :
  with_db f s
  = (Ret (f (db s)).1,
     App (progress_data s) (f (db s)).2 (progress_file s) (message_queue s)
       (time s) (history s)).
Proof. unfold with_db. by destruct (f (db s)). Qed.

Lemma read_db_run {A} (f : Database.db → A) s :
  read_db f s = (Ret (f (db s)), s).
Proof. done. Qed.

Lemma get_progress_data_run s :
  get_progress_data s = (Ret (progress_data s), s).
Proof. done. Qed.

Lemma set_progress_data_run f s :
  set_progress_data f s
  = (Ret (),
     App (f (progress_data s)) (db s) (progress_file s) (message_queue s)
       (time s) (history s)).
Proof. done. Qed.

Lemma save_run s :
  let doc :=
    ProgressData (Some (now_at E (time s))) (pd_blogs (progress_data s)) in
  save E s
  = (Ret (writable_at E (time s)),
     App doc (db s)
       (if writable_at E (time s) then Content (json_dump E doc)
        else progress_file s)
       (message_queue s) (S (time s))
       (history s ++ [EvSave doc (writable_at E (time s))])).
Proof.
  cbn zeta. unfold save, bind, tick, save_progress. cbn.
  by destruct (writable_at E (time s)).
Qed.

#[local] Hint Rewrite @ret_run @lift_run tick_run should_stop_run put_run
  record_event_run @with_db_run @read_db_run get_progress_data_run
  set_progress_data_run save_run : run.

Ltac run :=
  repeat (rewrite bind_run; autorewrite with run; cbv beta iota;
          cbn [progress_data db progress_file message_queue time history
               ticked fst snd]).

Lemma process_post_content_loop_trace blog_id total posts :
  ∀ i s,
    let r := _process_post_content_loop E blog_id total i posts s in
    ∃ saves : list (progress_doc * bool),
      (length saves ≤ length posts)%nat
      ∧ (∀ k doc written, saves !! k = Some (doc, written) →
           cursor_of doc blog_id = Some (i + Z.of_nat k + 1))
      ∧ match r.1 with
        | Ret _ => history r.2 = history s ++ post_content_events posts saves
        | Raise _ =>
            ∃ post, posts !! length saves = Some post
              ∧ history r.2
                = history s ++ post_content_events posts saves
                  ++ [EvPost CrawlStep.POST_CONTENT (Database.p_id post)]
        end
      ∧ match last saves with
        | None =>
            progress_data r.2 = progress_data s
            ∧ progress_file r.2 = progress_file s
        | Some (doc, written) =>
            progress_data r.2 = doc
            ∧ (written = true →
               progress_file r.2 = Content (json_dump E doc))
        end
      ∧ ((∀ t, should_stop_at E t = false) →
         (∀ t b l, ∃ c, get_post_content_at E t b l = Ret c) →
         r.1 = Ret () ∧ length saves = length posts).
Proof.
  induction posts as [|post rest IH]; intros i s r.
  - exists []. subst r. cbn. rewrite app_nil_r. by split_and!.
  - destruct (should_stop_at E (time s)) eqn:Hstop.
    { assert (r = (Ret (), ticked s)) as ->.
      { subst r. cbn [_process_post_content_loop]. run.
        by rewrite Hstop. }
      exists []. cbn. rewrite app_nil_r. split_and!; try done; try lia.
      intros Hnever _. by rewrite Hnever in Hstop. }
    destruct (get_post_content_at E (S (time s)) blog_id
                (log_no_of (Database.p_id post)))
      as [content_data|e] eqn:Hfetch.
    2:{ eassert (r = (Raise e, _)) as ->.
        { subst r. cbn [_process_post_content_loop]. run.
          rewrite Hstop. run. rewrite Hfetch. reflexivity. }
        exists []. cbn. split_and!; try done; try lia.
        - by exists post.
        - intros _ Hok. destruct (Hok (S (time s)) blog_id
            (log_no_of (Database.p_id post))) as [c Hc]. congruence. }
    eassert (∃ s', r = _process_post_content_loop E blog_id total (i + 1)
                         rest s'
                   ∧ history s' = history s
                       ++ [EvPost CrawlStep.POST_CONTENT (Database.p_id post);
                           EvSave (progress_data s')
                             (writable_at E (S (S (time s))))]
                   ∧ cursor_of (progress_data s') blog_id = Some (i + 1)
                   ∧ (writable_at E (S (S (time s))) = true →
                      progress_file s'
                      = Content (json_dump E (progress_data s'))))
      as (s' & Hr & Hhist & Hcursor & Hfile).
    { destruct content_data as [cd|]; eexists; (split; [
        subst r; cbn [_process_post_content_loop]; run;
        rewrite Hstop; run; rewrite Hfetch; run; reflexivity|]);
        cbn [history progress_data progress_file];
        rewrite <-app_assoc, cursor_of_stamp, cursor_after_update;
        (split_and!; [done..|]); by intros ->. }
    destruct (IH (i + 1) s') as (saves & Hlen & Hcursors & Hevents & Hlast
                                 & Hlive).
    rewrite <-Hr in Hevents, Hlast, Hlive. clear Hr IH.
    exists ((progress_data s', writable_at E (S (S (time s)))) :: saves).
    split_and!.
    + cbn. lia.
    + intros [|k] doc written; cbn.
      * intros [= <- <-]. rewrite Hcursor. f_equal. lia.
      * intros Hk. rewrite (Hcursors k doc written Hk). f_equal. lia.
    + cbn [post_content_events length lookup list_lookup].
      destruct r.1.
      * by rewrite Hevents, Hhist, <-app_assoc.
      * destruct Hevents as (p & Hp & Hevents). exists p. split; [done|].
        by rewrite Hevents, Hhist, <-!app_assoc.
    + destruct saves as [|save saves].
      * cbn in *. destruct Hlast as [-> ->]. done.
      * rewrite last_cons_cons.
        destruct (last (save :: saves)) as [[doc w]|] eqn:Hl; [done|].
        by apply last_None in Hl.
    + intros Hnever Hok. destruct (Hlive Hnever Hok) as [Hret Hall].
      split; [done|]. cbn. by rewrite Hall.
Qed.

(** *** The post-content stage *)

Lemma slice_from_nil {A} start : slice_from (@nil A) start = [].
Proof. unfold slice_from. case_match; by rewrite drop_nil. Qed.

Lemma process_post_content_run blog b_progress s pending record :
  Database.get_posts_by_status (db s) (Database.b_id blog)
    (Some Status.PENDING) = pending →
  deref (progress_data s) b_progress = Some record →
  let start := default 0 (bp_current_post_index record) in
  let loop :=
    _process_post_content_loop E (Database.b_id blog) (length pending) start
      (slice_from pending start)
      (App (progress_data s) (db s) (progress_file s)
         (message_queue s ++ [MsgLog (LogCollectingContent (length pending))])
         (time s) (history s)) in
  _process_post_content E blog b_progress s
  = match pending with
    | [] => (Ret true, s)
    | _ :: _ =>
        match loop.1 with
        | Ret _ =>
            (Ret (negb (should_stop_at E (time loop.2))), ticked loop.2)
        | Raise e => (Raise e, loop.2)
        end
    end.
Proof.
  intros Hpending Hderef start loop.
  unfold _process_post_content. run. rewrite Hpending.
  destruct pending as [|post posts]; [done|].
  run. rewrite Hderef. run. fold start. fold loop.
  by destruct loop as [[[]|e] s']; run.
Qed.

(** The trace of the post-content stage. It reads the cursor
    [current_post_index] kept in the progress record of the blog (0 when the
    record has none) and applies it to the list it has just fetched, the posts
    of the blog that are still pending: the posts of that list in front of
    the cursor are not taken up, whether or not they were ever processed.
    Each post taken up is followed at once, before the next post, by one call
    of [save_progress] whose document holds the cursor advanced by exactly
    one; a successful write leaves that document in the progress file. When
    the stop flag is never raised and the crawler raises no exception, every
    post from the cursor on is processed and the stage reports success. *)
Theorem process_post_content_resumes_at_cursor blog b_progress s :
  get_blog_progress_ref (progress_data s) (Database.b_id blog)
  = Some b_progress →
  let blog_id := Database.b_id blog in
  let start := default 0 (cursor_of (progress_data s) blog_id) in
  let pending :=
    Database.get_posts_by_status (db s) blog_id (Some Status.PENDING) in
  let todo := slice_from pending start in
  let r := _process_post_content E blog b_progress s in
  ∃ saves : list (progress_doc * bool),
    (length saves ≤ length todo)%nat
    ∧ (∀ k doc written, saves !! k = Some (doc, written) →
         cursor_of doc blog_id = Some (start + Z.of_nat k + 1))
    ∧ match r.1 with
      | Ret _ => history r.2 = history s ++ post_content_events todo saves
      | Raise _ =>
          ∃ post, todo !! length saves = Some post
            ∧ history r.2
              = history s ++ post_content_events todo saves
                ++ [EvPost CrawlStep.POST_CONTENT (Database.p_id post)]
      end
    ∧ match last saves with
      | None =>
          progress_data r.2 = progress_data s
          ∧ progress_file r.2 = progress_file s
      | Some (doc, written) =>
          progress_data r.2 = doc
          ∧ (written = true → progress_file r.2 = Content (json_dump E doc))
      end
    ∧ ((∀ t, should_stop_at E t = false) →
       (∀ t b l, ∃ c, get_post_content_at E t b l = Ret c) →
       r.1 = Ret true ∧ length saves = length todo).
Proof.
  intros Href. cbn zeta.
  apply get_blog_progress_ref_Some in Href as (record & _ & Hderef & Hget).
  rewrite (process_post_content_run blog b_progress s _ record eq_refl Hderef).
  unfold cursor_of. rewrite Hget. cbn [mbind option_bind].
  generalize (Database.get_posts_by_status (db s) (Database.b_id blog)
                (Some Status.PENDING)).
  intros pending.
  set (start := default 0 (bp_current_post_index record)).
  destruct pending as [|post posts].
  { exists []. rewrite slice_from_nil. cbn.
    rewrite app_nil_r. by split_and!. }
  set (pending := post :: posts).
  pose proof (process_post_content_loop_trace (Database.b_id blog)
                (length pending) (slice_from pending start) start
                (App (progress_data s) (db s) (progress_file s)
                   (message_queue s
                    ++ [MsgLog (LogCollectingContent (length pending))])
                   (time s) (history s))) as Hloop.
  cbn zeta in Hloop.
  destruct Hloop as (saves & Hlen & Hcursors & Hevents & Hlast & Hlive).
  cbn [history progress_data progress_file] in *.
  match type of Hevents with
  | context [_process_post_content_loop ?a ?b ?c ?d ?e ?f] =>
      generalize dependent (_process_post_content_loop a b c d e f)
  end.
  intros [[[]|e] s'] Hevents Hlast Hlive; exists saves;
    cbn [fst snd history progress_data progress_file ticked] in *.
  - split_and!; try done.
    intros Hnever Hok. destruct (Hlive Hnever Hok) as [_ ->].
    by rewrite Hnever.
  - split_and!; try done.
    intros Hnever Hok. by destruct (Hlive Hnever Hok).
Qed.

(** *** Which stage executors a computation enters *)

Lemma executed_steps_app h1 h2 :
  executed_steps (h1 ++ h2) = executed_steps h1 ++ executed_steps h2.
Proof. apply omap_app. Qed.

Lemma emits_at_weaken {A} (m : M A) s (P Q : list string → Prop) :
  (∀ l, P l → Q l) → emits_at m s P → emits_at m s Q.
Proof. intros HPQ (events & Hh & HP). exists events. auto. Qed.

Lemma emits_at_bind {A B} (m : M A) (k : A → M B) s
    (P Q R : list string → Prop) :
  emits_at m s P →
  (∀ a s', m s = (Ret a, s') → emits_at (k a) s' Q) →
  (∀ l, P l → R l) →
  (∀ l1 l2, P l1 → Q l2 → R (l1 ++ l2)) →
  emits_at (bind m k) s R.
Proof.
  intros (events & Hh & HP) Hk Hraise Hboth. unfold emits_at. rewrite bind_run.
  destruct (m s) as [[a|e] s'] eqn:Hm; cbn [snd] in Hh.
  - destruct (Hk a s' eq_refl) as (events' & Hh' & HQ).
    exists (events ++ events'). rewrite Hh', Hh, app_assoc.
    split; [done|]. rewrite executed_steps_app. auto.
  - exists events. auto.
Qed.

Lemma quiet_bind {A B} (m : M A) (k : A → M B) :
  quiet m → (∀ a, quiet (k a)) → quiet (bind m k).
Proof.
  intros Hm Hk s.
  apply (emits_at_bind m k s (λ l, l = []) (λ l, l = [])).
  - apply Hm.
  - intros a s' _. apply Hk.
  - done.
  - by intros ?? -> ->.
Qed.

Lemma emits_at_bind_quiet {A B} (m : M A) (k : A → M B) s
    (R : list string → Prop) :
  quiet m → (∀ a s', emits_at (k a) s' R) → R [] → emits_at (bind m k) s R.
Proof.
  intros Hm Hk HR.
  apply (emits_at_bind m k s (λ l, l = []) R).
  - apply Hm.
  - intros a s' _. apply Hk.
  - by intros ? ->.
  - by intros ?? ->.
Qed.

Lemma emits_at_try_except {A} (m : M A) (handler : exn → M A) s
    (P : list string → Prop) :
  emits_at m s P → (∀ e, quiet (handler e)) → emits_at (try_except m handler) s P.
Proof.
  intros (events & Hh & HP) Hhandler. unfold emits_at, try_except.
  destruct (m s) as [[a|e] s'] eqn:Hm; cbn [snd] in Hh.
  - exists events. auto.
  - destruct (Hhandler e s') as (events' & Hh' & HQ).
    exists (events ++ events'). rewrite Hh', Hh, app_assoc.
    split; [done|]. by rewrite executed_steps_app, HQ, app_nil_r.
Qed.

Lemma quiet_at {A} (m : M A) s : quiet m → emits_at m s (λ l, l = []).
Proof. intros Hm. apply Hm. Qed.

Lemma quiet_unchanged {A} (m : M A) :
  (∀ s, history (m s).2 = history s) → quiet m.
Proof. intros Hm s. exists []. by rewrite Hm, app_nil_r. Qed.

Lemma quiet_ret {A} (a : A) : quiet (ret a).
Proof. by apply quiet_unchanged. Qed.

Lemma quiet_raise {A} e : quiet (@raise A e).
Proof. by apply quiet_unchanged. Qed.

Lemma quiet_lift {A} (r : result A) : quiet (lift r).
Proof. by apply quiet_unchanged. Qed.

Lemma quiet_tick : quiet tick.
Proof. by apply quiet_unchanged. Qed.

Lemma quiet_should_stop : quiet (should_stop E).
Proof. by apply quiet_unchanged. Qed.

Lemma quiet_put m : quiet (put m).
Proof. by apply quiet_unchanged. Qed.

Lemma quiet_with_db {A} (f : Database.db → A * Database.db) :
  quiet (with_db f).
Proof. apply quiet_unchanged. intros s. by rewrite with_db_run. Qed.

Lemma quiet_read_db {A} (f : Database.db → A) : quiet (read_db f).
Proof. by apply quiet_unchanged. Qed.

Lemma quiet_get_progress_data : quiet get_progress_data.
Proof. by apply quiet_unchanged. Qed.

Lemma quiet_set_progress_data f : quiet (set_progress_data f).
Proof. by apply quiet_unchanged. Qed.

Lemma quiet_record_post step post_id : quiet (record_event (EvPost step post_id)).
Proof. intros s. by exists [EvPost step post_id]. Qed.

Lemma quiet_save : quiet (save E).
Proof. intros s. unfold emits_at. rewrite save_run. by eexists [_]. Qed.

Ltac quiet_step :=
  first
    [ apply quiet_ret | apply quiet_raise | apply quiet_lift
    | apply quiet_tick | apply quiet_should_stop | apply quiet_put
    | apply quiet_with_db | apply quiet_read_db
    | apply quiet_get_progress_data | apply quiet_set_progress_data
    | apply quiet_record_post | apply quiet_save
    | apply quiet_bind; [|intros ?]
    | assumption
    | match goal with
      | |- quiet (match ?x with _ => _ end) => destruct x
      end ].

Lemma quiet_process_blog_info blog : quiet (_process_blog_info E blog).
Proof. unfold _process_blog_info. repeat quiet_step. Qed.

Lemma quiet_process_post_list blog : quiet (_process_post_list E blog).
Proof. unfold _process_post_list. repeat quiet_step. Qed.

Lemma quiet_process_post_content_loop blog_id total posts :
  ∀ i, quiet (_process_post_content_loop E blog_id total i posts).
Proof.
  induction posts as [|post rest IH]; intros i;
    cbn [_process_post_content_loop]; repeat first [apply IH | quiet_step].
Qed.

Lemma quiet_process_post_content blog b_progress :
  quiet (_process_post_content E blog b_progress).
Proof.
  unfold _process_post_content.
  repeat first [apply quiet_process_post_content_loop | quiet_step].
Qed.

Lemma quiet_add_reactions post_id reactions :
  quiet (add_reactions post_id reactions).
Proof.
  induction reactions as [|[reaction_type count] rest IH];
    cbn [add_reactions]; repeat quiet_step.
Qed.

Lemma quiet_process_reactions_loop blog_id total posts :
  ∀ i, quiet (_process_reactions_loop E blog_id total i posts).
Proof.
  induction posts as [|post rest IH]; intros i;
    cbn [_process_reactions_loop];
    repeat first [apply IH | apply quiet_add_reactions | quiet_step].
Qed.

Lemma quiet_process_reactions blog : quiet (_process_reactions E blog).
Proof.
  unfold _process_reactions.
  repeat first [apply quiet_process_reactions_loop | quiet_step].
Qed.

Lemma quiet_process_comments_loop blog_id total posts :
  ∀ i, quiet (_process_comments_loop E blog_id total i posts).
Proof.
  induction posts as [|post rest IH]; intros i;
    cbn [_process_comments_loop]; repeat first [apply IH | quiet_step].
Qed.

Lemma quiet_process_comments blog : quiet (_process_comments E blog).
Proof.
  unfold _process_comments.
  repeat first [apply quiet_process_comments_loop | quiet_step].
Qed.


(** *** The loop over the stages *)

Lemma execute_step_emits step blog b_progress success s :
  emits_at (execute_step E step blog b_progress success) s
    (λ l, l = [] ∨ l = [step]).
Proof.
  assert (∀ m : M bool, quiet m →
            emits_at (bind (record_event (EvStep step)) (λ _, m)) s
              (λ l, l = [] ∨ l = [step])) as Hrun.
  { intros m Hm.
    apply (emits_at_bind _ _ s (λ l, l = [step]) (λ l, l = [])).
    - by exists [EvStep step].
    - intros _ s' _. apply Hm.
    - auto.
    - intros ?? -> ->. auto. }
  unfold execute_step. repeat case_bool_decide.
  - apply Hrun, quiet_process_blog_info.
  - apply Hrun, quiet_process_post_list.
  - apply Hrun, quiet_process_post_content.
  - apply Hrun, quiet_process_reactions.
  - apply Hrun, quiet_process_comments.
  - eapply emits_at_weaken; [|apply quiet_ret]. auto.
Qed.

Lemma execute_step_emits_known step blog b_progress success s :
  step ∈ CrawlStep.all_steps →
  emits_at (execute_step E step blog b_progress success) s (λ l, l = [step]).
Proof.
  intros Hstep.
  assert (∀ m : M bool, quiet m →
            emits_at (bind (record_event (EvStep step)) (λ _, m)) s
              (λ l, l = [step])) as Hrun.
  { intros m Hm.
    apply (emits_at_bind _ _ s (λ l, l = [step]) (λ l, l = [])).
    - by exists [EvStep step].
    - intros _ s' _. apply Hm.
    - auto.
    - by intros ?? -> ->. }
  unfold execute_step. repeat case_bool_decide.
  - apply Hrun, quiet_process_blog_info.
  - apply Hrun, quiet_process_post_list.
  - apply Hrun, quiet_process_post_content.
  - apply Hrun, quiet_process_reactions.
  - apply Hrun, quiet_process_comments.
  - exfalso. revert Hstep. unfold CrawlStep.all_steps.
    rewrite !elem_of_cons, elem_of_nil. tauto.
Qed.

Lemma quiet_skip_completed resume b_progress step :
  quiet (skip_completed resume b_progress step).
Proof. unfold skip_completed. repeat quiet_step. Qed.

Lemma emits_at_after {A B} (m : M A) (m' : M B) s s' prefix
    (P : list string → Prop) :
  (m s).2 = (m' s').2 →
  history s' = history s ++ prefix →
  executed_steps prefix = [] →
  emits_at m' s' P → emits_at m s P.
Proof.
  intros Hrun Hhist Hprefix (events & Hh & HP). exists (prefix ++ events).
  rewrite Hrun, Hh, Hhist, app_assoc. split; [done|].
  by rewrite executed_steps_app, Hprefix.
Qed.

Lemma crawl_blogs_stage_emits blog b_progress step success
    (P : list string → Prop) :
  (∀ s, emits_at (execute_step E step blog b_progress success) s P) →
  ∀ s, emits_at (_crawl_blogs_stage E blog b_progress step success) s P.
Proof.
  intros Hexecute s. unfold _crawl_blogs_stage.
  eapply emits_at_after.
  { run. reflexivity. }
  { cbn [history]. reflexivity. }
  { done. }
  apply emits_at_try_except; [|intros e; repeat quiet_step].
  eapply (emits_at_bind _ _ _ P (λ l, l = [])).
  - apply Hexecute.
  - intros success' s' _. apply quiet_at. cbv beta.
    repeat quiet_step.
  - done.
  - intros l1 l2 Hl1 ->. by rewrite app_nil_r.
Qed.

Lemma crawl_steps_emits blog b_progress resume steps :
  ∀ success s,
    emits_at (_crawl_blogs_steps E blog b_progress resume steps success) s
      (λ l, l `sublist_of` steps).
Proof.
  induction steps as [|step rest IH]; intros success s;
    cbn [_crawl_blogs_steps].
  { eapply emits_at_weaken; [|apply quiet_ret]. by intros ? ->. }
  apply emits_at_bind_quiet; [apply quiet_should_stop| |apply sublist_nil_l].
  intros [|] s1.
  { eapply emits_at_weaken; [|apply quiet_ret]. intros ? ->.
    apply sublist_nil_l. }
  apply emits_at_bind_quiet;
    [apply quiet_skip_completed| |apply sublist_nil_l].
  intros [|] s2.
  { eapply emits_at_weaken; [|apply IH]. intros l Hl. by apply sublist_cons. }
  eapply (emits_at_bind _ _ _ (λ l, l = [] ∨ l = [step])
            (λ l, l `sublist_of` rest)).
  - apply crawl_blogs_stage_emits. intros s'. apply execute_step_emits.
  - intros [success'|] s3 _; [apply IH|].
    eapply emits_at_weaken; [|apply quiet_ret]. intros ? ->.
    apply sublist_nil_l.
  - intros l [->| ->]; [apply sublist_nil_l|].
    apply sublist_skip, sublist_nil_l.
  - intros l1 l2 [->| ->] Hl2; cbn.
    + by apply sublist_cons.
    + by apply sublist_skip.
Qed.

Lemma skip_completed_run b_progress step s record steps :
  deref (progress_data s) b_progress = Some record →
  bp_steps_completed record = Some steps →
  skip_completed true b_progress step s
  = (Ret (bool_decide (steps !! step = Some "completed")), s).
Proof.
  intros Hderef Hsteps. unfold skip_completed. run.
  rewrite Hderef, Hsteps. by run.
Qed.

(** A stage that is completed is passed over. *)
Lemma crawl_steps_skip blog b_progress step rest success s record steps :
  should_stop_at E (time s) = false →
  deref (progress_data s) b_progress = Some record →
  bp_steps_completed record = Some steps →
  steps !! step = Some "completed" →
  _crawl_blogs_steps E blog b_progress true (step :: rest) success s
  = _crawl_blogs_steps E blog b_progress true rest success (ticked s).
Proof.
  intros Hstop Hderef Hsteps Hstep. cbn [_crawl_blogs_steps]. run.
  rewrite Hstop. run.
  erewrite skip_completed_run by done.
  by rewrite bool_decide_true by done.
Qed.

(** A stage that is not completed is entered, and only later stages can
    follow it. *)
Lemma crawl_steps_enter blog b_progress step rest success s record steps :
  should_stop_at E (time s) = false →
  deref (progress_data s) b_progress = Some record →
  bp_steps_completed record = Some steps →
  steps !! step ≠ Some "completed" →
  step ∈ CrawlStep.all_steps →
  emits_at (_crawl_blogs_steps E blog b_progress true (step :: rest) success)
    s (λ l, ∃ l', l = step :: l' ∧ l' `sublist_of` rest).
Proof.
  intros Hstop Hderef Hsteps Hstep Hknown.
  eapply (emits_at_after _
            (bind (_crawl_blogs_stage E blog b_progress step success)
               (λ outcome,
                  match outcome with
                  | Some success' =>
                      _crawl_blogs_steps E blog b_progress true rest success'
                  | None => ret false
                  end)) s (ticked s) []).
  { cbn [_crawl_blogs_steps]. run. rewrite Hstop. run.
    erewrite skip_completed_run by done.
    by rewrite bool_decide_false by done. }
  { by rewrite app_nil_r. }
  { done. }
  eapply (emits_at_bind _ _ _ (λ l, l = [step]) (λ l, l `sublist_of` rest)).
  - apply crawl_blogs_stage_emits. intros s'.
    by apply execute_step_emits_known.
  - intros [success'|] s3 _; [apply crawl_steps_emits|].
    eapply emits_at_weaken; [|apply quiet_ret]. intros ? ->.
    apply sublist_nil_l.
  - intros l ->. exists []. split; [done|apply sublist_nil_l].
  - intros l1 l2 -> Hl2. by exists l2.
Qed.

Lemma get_blog_progress_Some_ref progress_data blog_id record :
  get_blog_progress progress_data blog_id = Some record →
  ∃ ref, get_blog_progress_ref progress_data blog_id = Some ref
         ∧ deref progress_data ref = Some record.
Proof.
  unfold get_blog_progress.
  destruct (get_blog_progress_ref progress_data blog_id) as [ref|]; [|done].
  intros Hderef. by exists ref.
Qed.

(** C5 (as amended). When the orchestrator runs, in resume mode and with the
    stop flag down at the four polls that precede the first stage to run, a
    blog whose progress record says [blog_info] and [post_list] are completed
    and [post_content] is in progress, it passes over the two completed
    stages and the first stage executor it enters is [post_content]; the
    only executors that can follow are [reactions] and [comments], in that
    order. The statuses of the last two stages play no part. *)
Theorem crawl_blogs_resume_starts_at_in_progress_stage blog record steps s :
  get_blog_progress (progress_data s) (Database.b_id blog) = Some record →
  bp_steps_completed record = Some steps →
  steps !! CrawlStep.BLOG_INFO = Some "completed" →
  steps !! CrawlStep.POST_LIST = Some "completed" →
  steps !! CrawlStep.POST_CONTENT = Some "in_progress" →
  (∀ t, (time s ≤ t < time s + 4)%nat → should_stop_at E t = false) →
  ∃ events later,
    history (_crawl_blogs E [blog] true s).2 = history s ++ events
    ∧ executed_steps events = CrawlStep.POST_CONTENT :: later
    ∧ later `sublist_of` [CrawlStep.REACTIONS; CrawlStep.COMMENTS].
Proof.
  intros Hget Hsteps Hinfo Hlist Hcontent Hstop.
  apply get_blog_progress_Some_ref in Hget as (ref & Href & Hderef).
  set (P := λ l : list string,
         ∃ later, l = CrawlStep.POST_CONTENT :: later
                  ∧ later `sublist_of` [CrawlStep.REACTIONS;
                                         CrawlStep.COMMENTS]).
  assert (emits_at (_crawl_blogs E [blog] true) s P) as (events & Hh & HP).
  2:{ destruct HP as (later & Hlater & Hsub). by exists events, later. }
  assert (∀ l1 l2, P l1 → l2 = [] → P (l1 ++ l2)) as HPnil.
  { intros l1 l2 Hl1 ->. by rewrite app_nil_r. }
  unfold _crawl_blogs.
  (* the stop check of the loop over the blogs *)
  eapply (emits_at_after _
            (bind (_crawl_blogs_body E blog true 0 1)
               (λ _, bind (_crawl_blogs_loop E [] true 1 1)
                       (λ _, put MsgCrawlFinished)))
            s (ticked s) []).
  { cbn [_crawl_blogs_loop length]. run.
    rewrite (Hstop (time s)) by lia. run.
    by destruct (_crawl_blogs_body E blog true 0 1 (ticked s))
      as [[[]|e] s']. }
  { by rewrite app_nil_r. }
  { done. }
  eapply (emits_at_bind _ _ _ P (λ l, l = [])); [|
    intros _ s' _; apply quiet_at; cbn [_crawl_blogs_loop];
      repeat quiet_step|done|exact HPnil].
  (* the body up to the loop over the stages *)
  unfold _crawl_blogs_body.
  eapply emits_at_after.
  { run. rewrite Href. run. reflexivity. }
  { cbn [history]. by rewrite app_nil_r. }
  { done. }
  eapply (emits_at_bind _ _ _ P (λ l, l = [])); [|
    intros success s' _; apply quiet_at; cbv beta;
      repeat quiet_step|done|exact HPnil].
  (* blog_info and post_list are passed over, post_content is entered *)
  unfold CrawlStep.all_steps.
  match goal with |- emits_at _ ?st _ => set (s1 := st) end.
  eapply (emits_at_after _
            (_crawl_blogs_steps E blog ref true
               [CrawlStep.POST_CONTENT; CrawlStep.REACTIONS;
                CrawlStep.COMMENTS] true)
            s1 (ticked (ticked s1)) []).
  { erewrite (crawl_steps_skip blog ref CrawlStep.BLOG_INFO); try done.
    - erewrite (crawl_steps_skip blog ref CrawlStep.POST_LIST); try done.
      apply Hstop. subst s1. cbn. lia.
    - apply Hstop. subst s1. cbn. lia. }
  { by rewrite app_nil_r. }
  { done. }
  eapply emits_at_weaken;
    [|eapply (crawl_steps_enter blog ref CrawlStep.POST_CONTENT); try done].
  - intros l (later & -> & Hlater). by exists later.
  - apply Hstop. subst s1. cbn. lia.
  - by rewrite Hcontent.
  - unfold CrawlStep.all_steps. set_solver.
Qed.


End OrchestratorProperties.

(** The claim before its amendment fails: on the record of the scenario a
    run that is not a resume enters [blog_info] first, and a resume that
    finds the stop flag raised enters no stage at all. *)
Lemma crawl_blogs_not_always_from_in_progress_stage :
  head (Main.executed_steps
          (Main.history
             (Main._crawl_blogs (Scenario.site false) [Scenario.blog] false
                Scenario.start).2))
  = Some "blog_info"
  ∧ Main.executed_steps
      (Main.history
         (Main._crawl_blogs (Scenario.site true) [Scenario.blog] true
            Scenario.start).2)
    = [].
Proof. split; by vm_compute. Qed.

Lemma crawl_blogs_resume_starts_at_in_progress_stage_witness :
  ∃ events later,
    Main.history
      (Main._crawl_blogs (Scenario.site false) [Scenario.blog] true
         Scenario.start).2
    = Main.history Scenario.start ++ events
    ∧ Main.executed_steps events = "post_content" :: later
    ∧ later `sublist_of` ["reactions"; "comments"].
Proof.
  apply (crawl_blogs_resume_starts_at_in_progress_stage (Scenario.site false)
           Scenario.blog Scenario.record Scenario.steps Scenario.start).
  - by vm_compute.
  - reflexivity.
  - by vm_compute.
  - by vm_compute.
  - by vm_compute.
  - intros t _. reflexivity.
Defined.

(** C6 (the code departs from the claim). A first run is stopped in the
    post-content stage after one of the four posts of the blog: [b1_1] is
    completed, the cursor is 1 and [b1_2], [b1_3], [b1_4] are pending. The
    resume fetches the posts that are still pending, a list that has already
    lost [b1_1], and applies the cursor to it: it takes up [b1_3] and
    [b1_4] and never [b1_2], which is at the position the cursor names in
    the list of the first run. The stage and the blog are then marked
    completed and [has_incomplete_work] answers [False], with [b1_2] still
    pending and never fetched. *)
Theorem process_post_content_resume_skips_pending_post :
  let first :=
    Main._crawl_blogs (Scenario.crawler (Some 16%nat)) [Scenario.blog] false
      Scenario.fresh in
  let resumed :=
    Main._crawl_blogs (Scenario.crawler None) [Scenario.blog] true first.2 in
  let statuses (s : Main.app) :=
    (λ p, (Database.p_id p, Database.p_crawl_status p))
      <$> Database.posts (Main.db s) in
  let record := Helpers.get_blog_progress (Main.progress_data resumed.2) "b1" in
  Main.processed_posts "post_content" (Main.history first.2) = ["b1_1"]
  ∧ Spec.cursor_of (Main.progress_data first.2) "b1" = Some 1
  ∧ statuses first.2
    = [("b1_1", "completed"); ("b1_2", "pending"); ("b1_3", "pending");
       ("b1_4", "pending")]
  ∧ resumed.1 = Helpers.Ret ()
  ∧ Main.processed_posts "post_content" (Main.history resumed.2)
    = ["b1_1"; "b1_3"; "b1_4"]
  ∧ statuses resumed.2
    = [("b1_1", "completed"); ("b1_2", "pending"); ("b1_3", "completed");
       ("b1_4", "completed")]
  ∧ (record ≫= λ r, Helpers.steps_of r !! "post_content") = Some "completed"
  ∧ record ≫= Helpers.bp_status = Some "completed"
  ∧ Helpers.has_incomplete_work (Main.progress_data resumed.2) = false.
Proof. by vm_compute. Qed.

(** The post-content stage on the scenario: the posts still pending are
    [b1_2], [b1_3] and [b1_4] and the cursor is 1, so the stage takes up
    [b1_3] and [b1_4], from position 1 of that list on, and not [b1_2], the
    first pending post; the two saves carry the cursors 2 and 3. *)
Lemma process_post_content_resumes_at_cursor_witness :
  let r :=
    Main._process_post_content (Scenario.site false) Scenario.blog 0
      Scenario.start in
  Helpers.get_blog_progress_ref (Main.progress_data Scenario.start) "b1"
  = Some 0%nat
  ∧ r.1 = Helpers.Ret true
  ∧ Main.processed_posts "post_content" (Main.history r.2) = ["b1_3"; "b1_4"]
  ∧ Main.saved_cursors "b1" (Main.history r.2) = [Some 2; Some 3]
  ∧ ∃ saves : list (Helpers.progress_doc * bool),
      length saves = 2%nat
      ∧ ∀ k doc written, saves !! k = Some (doc, written) →
          Spec.cursor_of doc "b1" = Some (1 + Z.of_nat k + 1).
Proof.
  cbn zeta.
  assert (Helpers.get_blog_progress_ref (Main.progress_data Scenario.start)
            "b1" = Some 0%nat) as Href by reflexivity.
  destruct (process_post_content_resumes_at_cursor (Scenario.site false)
              Scenario.blog 0 Scenario.start Href)
    as (saves & _ & Hcursors & _ & _ & Hlive).
  split_and!; [exact Href|by vm_compute..|].
  exists saves. split; [|exact Hcursors].
  destruct Hlive as [_ ->]; [done|by eexists|]. by vm_compute.
Defined.

(** ** Further properties of the entity store *)

Section DatabaseExtras.
Import Database Spec.

Variable CURRENT_TIMESTAMP : nat → string.

Lemma filter_none {A} (P : A → Prop) `{!∀ x, Decision (P x)} (l : list A) :
  (∀ x, x ∈ l → ¬ P x) → filter P l = [].
Proof.
  induction l as [|y l IH]; intros HP; [done|].
  rewrite filter_cons_False by (apply HP; by left).
  apply IH. intros x Hx. apply HP. by right.
Qed.

(** A key column singles out one row. *)
Lemma filter_key_singleton {A K} `{!EqDecision K} (key : A → K)
    (l : list A) (x : A) :
  NoDup (key <$> l) → x ∈ l → filter (λ y, key y = key x) l = [x].
Proof.
  induction l as [|y l IH]; [by intros _ ?%elem_of_nil|].
  rewrite fmap_cons, NoDup_cons, elem_of_cons.
  intros [Hy Hl] [->|Hx].
  - rewrite filter_cons_True by done. f_equal.
    apply filter_none. intros z Hz Hkey. apply Hy. rewrite <-Hkey.
    by apply list_elem_of_fmap_2.
  - rewrite filter_cons_False; [by apply IH|].
    intros Hkey. apply Hy. rewrite Hkey. by apply list_elem_of_fmap_2.
Qed.

Lemma head_filter_elem {A} (P : A → Prop) `{!∀ x, Decision (P x)}
    (l : list A) (x : A) :
  head (filter P l) = Some x → x ∈ l ∧ P x.
Proof.
  intros Hhead. apply head_Some_elem_of in Hhead.
  apply list_elem_of_filter in Hhead. tauto.
Qed.

(** *** Inserting posts and blogs *)

Lemma insert_post_None d post_id blog_id title post_url :
  insert_post CURRENT_TIMESTAMP d post_id blog_id title post_url = None
  ↔ is_Some (get_post d post_id).
Proof.
  unfold insert_post. destruct (get_post d post_id).
  - split; [by eauto|done].
  - split; [done|]. by intros [? ?].
Qed.

Lemma get_post_insert_post d post_id blog_id title post_url d' :
  insert_post CURRENT_TIMESTAMP d post_id blog_id title post_url = Some d' →
  get_post d' post_id
  = Some (PostRow post_id blog_id title None None post_url None 0 0 "pending"
            (CURRENT_TIMESTAMP (ticks d)))
  ∧ posts d' = posts d ++ [PostRow post_id blog_id title None None post_url
                             None 0 0 "pending" (CURRENT_TIMESTAMP (ticks d))]
  ∧ blogs d' = blogs d ∧ comments d' = comments d
  ∧ reactions d' = reactions d ∧ progress d' = progress d.
Proof.
  unfold insert_post, get_post.
  destruct (head _) eqn:Hhead; [done|]. intros [= <-]. cbn.
  apply head_None in Hhead. rewrite filter_app, Hhead.
  by rewrite filter_cons_True.
Qed.

Lemma add_post_known d post_id blog_id title post_url :
  is_Some (get_post d post_id) →
  add_post CURRENT_TIMESTAMP d post_id blog_id title post_url = (false, d).
Proof. intros [? Hget]. unfold add_post, insert_post. by rewrite Hget. Qed.

Lemma add_post_new d post_id blog_id title post_url :
  get_post d post_id = None →
  ∃ d', add_post CURRENT_TIMESTAMP d post_id blog_id title post_url
        = (true, d')
        ∧ insert_post CURRENT_TIMESTAMP d post_id blog_id title post_url
          = Some d'.
Proof.
  intros Hget. unfold add_post, insert_post. rewrite Hget. eauto.
Qed.

(** X1. [add_post] inserts if absent: the first call answers whether the
    identifier was new, a second call with the same identifier answers
    [False] and changes nothing, whatever its other arguments; the identifier
    is stored afterwards, in exactly one row when the primary key held
    before, and a new row has the given fields and the status [pending]. *)
Theorem add_post_is_idempotent d post_id blog_id title post_url
    blog_id' title' post_url' :
  let r1 := add_post CURRENT_TIMESTAMP d post_id blog_id title post_url in
  let r2 := add_post CURRENT_TIMESTAMP r1.2 post_id blog_id' title' post_url' in
  r1.1 = bool_decide (get_post d post_id = None)
  ∧ r2 = (false, r1.2)
  ∧ is_Some (get_post r1.2 post_id)
  ∧ (get_post d post_id = None →
     get_post r1.2 post_id
     = Some (PostRow post_id blog_id title None None post_url None 0 0
               Status.PENDING (CURRENT_TIMESTAMP (ticks d))))
  ∧ (posts_key d →
     posts_key r1.2
     ∧ length (filter (λ p, p_id p = post_id) (posts r1.2)) = 1%nat).
Proof.
  cbn zeta.
  destruct (get_post d post_id) as [existing|] eqn:Hget.
  - rewrite !(add_post_known d) by eauto. cbn [fst snd]. rewrite Hget.
    split_and!; try done.
    intros Hkey. split; [done|].
    destruct (head_filter_elem _ _ _ Hget) as [Hin Hid].
    rewrite <-Hid. by rewrite (filter_key_singleton p_id).
  - destruct (add_post_new d post_id blog_id title post_url Hget)
      as (d1 & -> & Hins).
    destruct (get_post_insert_post _ _ _ _ _ _ Hins) as (Hget1 & Hposts & _).
    cbn [fst snd]. rewrite add_post_known by (rewrite Hget1; eauto).
    rewrite Hget1. split_and!; try done.
    intros Hkey. split; [by eapply posts_key_insert_post|].
    unfold get_post in Hget. apply head_None in Hget.
    rewrite Hposts, filter_app, Hget. by rewrite filter_cons_True.
Qed.

Lemma add_blog_known d blog_id blog_name url author_name post_count :
  is_Some (get_blog d blog_id) →
  add_blog CURRENT_TIMESTAMP d blog_id blog_name url author_name post_count
  = (false, d).
Proof. intros [? Hget]. unfold add_blog. by rewrite Hget. Qed.

Lemma add_blog_new d blog_id blog_name url author_name post_count :
  get_blog d blog_id = None →
  add_blog CURRENT_TIMESTAMP d blog_id blog_name url author_name post_count
  = (true,
     Db (blogs d
           ++ [BlogRow blog_id blog_name author_name url post_count
                 Status.PENDING (CURRENT_TIMESTAMP (ticks d))])
        (posts d) (reactions d) (reactions_seq d) (comments d) (progress d)
        (progress_seq d) (S (ticks d))).
Proof. intros Hget. unfold add_blog. by rewrite Hget. Qed.

(** X2. [add_blog] inserts if absent: the first call answers whether the
    identifier was new, a second call with the same identifier answers
    [False] and changes nothing; a new blog is stored with the given fields
    and the status [pending], a blog that was stored keeps its row, and the
    primary key of [blogs] is kept. *)
Theorem add_blog_is_idempotent d blog_id blog_name url author_name post_count
    blog_name' url' author_name' post_count' :
  let r1 :=
    add_blog CURRENT_TIMESTAMP d blog_id blog_name url author_name
      post_count in
  let r2 :=
    add_blog CURRENT_TIMESTAMP r1.2 blog_id blog_name' url' author_name'
      post_count' in
  r1.1 = bool_decide (get_blog d blog_id = None)
  ∧ r2 = (false, r1.2)
  ∧ get_blog r1.2 blog_id
    = Some (default
              (BlogRow blog_id blog_name author_name url post_count
                 Status.PENDING (CURRENT_TIMESTAMP (ticks d)))
              (get_blog d blog_id))
  ∧ (∀ other, other ≠ blog_id → get_blog r1.2 other = get_blog d other)
  ∧ (blogs_key d → blogs_key r1.2).
Proof.
  cbn zeta.
  destruct (get_blog d blog_id) as [existing|] eqn:Hget.
  - rewrite !(add_blog_known d) by eauto. cbn [fst snd]. by rewrite Hget.
  - rewrite !(add_blog_new d) by done. cbn [fst snd default].
    set (row := BlogRow _ _ _ _ _ _ _).
    assert (get_blog
              (Db (blogs d ++ [row]) (posts d) (reactions d) (reactions_seq d)
                 (comments d) (progress d) (progress_seq d) (S (ticks d)))
              blog_id = Some row) as Hget1.
    { unfold get_blog in *. cbn. apply head_None in Hget.
      rewrite filter_app, Hget. by rewrite filter_cons_True. }
    rewrite add_blog_known by (rewrite Hget1; eauto).
    split_and!; try done.
    + intros other Hother. unfold get_blog. cbn.
      rewrite filter_app, (filter_cons_False _ row) by (cbn; congruence).
      by rewrite filter_nil, app_nil_r.
    + unfold blogs_key. cbn. intros Hkey. rewrite fmap_app.
      apply NoDup_app. split_and!; [done| |apply NoDup_singleton].
      intros id (b & -> & Hb)%list_elem_of_fmap. cbn.
      rewrite list_elem_of_singleton. intros Hid.
      unfold get_blog in Hget. apply head_None in Hget.
      by eapply (filter_nil_not_elem_of _ _ b).
Qed.

Lemma get_post_prefix d1 d2 extra post_id :
  posts d2 = posts d1 ++ extra →
  is_Some (get_post d1 post_id) →
  get_post d2 post_id = get_post d1 post_id.
Proof.
  unfold get_post. intros -> [p Hp]. rewrite filter_app, head_app.
  by rewrite Hp.
Qed.

Lemma add_posts_batch_loop_rows d added batch :
  let r := add_posts_batch_loop CURRENT_TIMESTAMP d added batch in
  (∃ extra, posts r.2 = posts d ++ extra)
  ∧ blogs r.2 = blogs d ∧ comments r.2 = comments d
  ∧ reactions r.2 = reactions d ∧ progress r.2 = progress d
  ∧ (∀ post, post ∈ batch → is_Some (get_post r.2 (pi_id post)))
  ∧ added ≤ r.1 ≤ added + Z.of_nat (length batch).
Proof.
  revert d added. induction batch as [|post batch IH]; intros d added.
  - cbn. split_and!; try done; try lia.
    + exists []. by rewrite app_nil_r.
    + by intros ? ?%elem_of_nil.
  - cbn zeta. cbn [add_posts_batch_loop length].
    destruct (insert_post _ d _ _ _ _) as [d'|] eqn:Hins.
    + destruct (get_post_insert_post _ _ _ _ _ _ Hins)
        as (Hget & Hposts & Hb & Hc & Hr & Hg).
      destruct (IH d' (added + 1))
        as ([extra Hextra] & Hb' & Hc' & Hr' & Hg' & Hall & Hcount).
      split_and!; try congruence; try lia.
      * eexists. by rewrite Hextra, Hposts, <-app_assoc.
      * intros p [->|Hp]%elem_of_cons; [|by apply Hall].
        erewrite get_post_prefix; [|exact Hextra|]; by rewrite Hget.
    + apply insert_post_None in Hins.
      destruct (IH d added)
        as ([extra Hextra] & Hb' & Hc' & Hr' & Hg' & Hall & Hcount).
      split_and!; try done; try lia.
      * by exists extra.
      * intros p [->|Hp]%elem_of_cons; [|by apply Hall].
        by erewrite get_post_prefix.
Qed.

(** X3. [add_posts_batch] skips the duplicates one by one and goes on: the
    rows already stored stay as they are and in place, every post of the
    batch is stored when the call returns, the count is between 0 and the
    size of the batch, the primary key of [posts] is kept, and no other table
    is touched. *)
Theorem add_posts_batch_inserts_every_post d batch :
  let r := add_posts_batch CURRENT_TIMESTAMP d batch in
  posts d `prefix_of` posts r.2
  ∧ (∀ post, post ∈ batch → is_Some (get_post r.2 (pi_id post)))
  ∧ (∀ post_id, is_Some (get_post d post_id) →
       get_post r.2 post_id = get_post d post_id)
  ∧ 0 ≤ r.1 ≤ Z.of_nat (length batch)
  ∧ (posts_key d → posts_key r.2)
  ∧ blogs r.2 = blogs d ∧ comments r.2 = comments d
  ∧ reactions r.2 = reactions d ∧ progress r.2 = progress d.
Proof.
  cbn zeta. unfold add_posts_batch.
  destruct (add_posts_batch_loop_rows d 0 batch)
    as ([extra Hextra] & Hb & Hc & Hr & Hg & Hall & Hcount).
  split_and!; try done; try lia.
  - by exists extra.
  - intros post_id Hknown. by eapply get_post_prefix.
  - apply posts_key_add_posts_batch.
Qed.

(** *** Updating rows *)

Lemma filter_fmap_stable {A} (P : A → Prop) `{!∀ x, Decision (P x)}
    (g : A → A) (l : list A) :
  (∀ x, P (g x) ↔ P x) → filter P (g <$> l) = g <$> filter P l.
Proof.
  intros Hg. induction l as [|x l IH]; [done|]. cbn [fmap list_fmap].
  destruct (decide (P x)) as [HP|HP].
  - rewrite !filter_cons_True by (done || by apply Hg).
    by rewrite fmap_cons, <-IH.
  - rewrite !filter_cons_False by (done || by rewrite Hg). apply IH.
Qed.

Lemma head_fmap {A B} (g : A → B) (l : list A) :
  head (g <$> l) = g <$> head l.
Proof. by destruct l. Qed.

Lemma get_blog_update_blog d blog_id f :
  (∀ b, b_id (f b) = b_id b) →
  let r := update_blog d blog_id f in
  (r.1 = true ↔ is_Some (get_blog d blog_id))
  ∧ get_blog r.2 blog_id = f <$> get_blog d blog_id
  ∧ (∀ other, other ≠ blog_id → get_blog r.2 other = get_blog d other)
  ∧ b_id <$> blogs r.2 = b_id <$> blogs d
  ∧ posts r.2 = posts d ∧ comments r.2 = comments d
  ∧ reactions r.2 = reactions d ∧ progress r.2 = progress d.
Proof.
  intros Hf. cbn zeta. unfold update_blog, get_blog. cbn.
  set (g := λ b, if bool_decide (b_id b = blog_id) then f b else b).
  assert (∀ b, b_id (g b) = b_id b) as Hg.
  { intros b. unfold g. by case_bool_decide. }
  split_and!; try done.
  - apply bool_decide_eq_true.
  - rewrite filter_fmap_stable by (intros b; by rewrite Hg).
    rewrite head_fmap. destruct (head _) as [b|] eqn:Hhead; [|done].
    apply head_filter_elem in Hhead as [_ Hid]. cbn. unfold g.
    by rewrite bool_decide_true.
  - intros other Hother.
    rewrite filter_fmap_stable by (intros b; by rewrite Hg).
    rewrite head_fmap. destruct (head _) as [b|] eqn:Hhead; [|done].
    apply head_filter_elem in Hhead as [_ Hid]. cbn. unfold g.
    rewrite bool_decide_false; [done|congruence].
  - rewrite <-list_fmap_compose. apply list_fmap_ext. intros ? b _. apply Hg.
Qed.

(** X4. [update_blog_status] and [update_blog_post_count] answer whether the
    blog is stored and change that one column of that one blog: the other
    columns, the other blogs and the other tables are as before, and no row
    is added or removed. *)
Theorem update_blog_column d blog_id status count :
  let r := update_blog_status d blog_id status in
  let r' := update_blog_post_count d blog_id count in
  (r.1 = true ↔ is_Some (get_blog d blog_id))
  ∧ (r'.1 = true ↔ is_Some (get_blog d blog_id))
  ∧ get_blog r.2 blog_id
    = (λ b, BlogRow (b_id b) (b_blog_name b) (b_author_name b) (b_url b)
              (b_post_count b) status (b_created_at b))
        <$> get_blog d blog_id
  ∧ get_blog r'.2 blog_id
    = (λ b, BlogRow (b_id b) (b_blog_name b) (b_author_name b) (b_url b)
              count (b_status b) (b_created_at b))
        <$> get_blog d blog_id
  ∧ (∀ other, other ≠ blog_id →
       get_blog r.2 other = get_blog d other
       ∧ get_blog r'.2 other = get_blog d other)
  ∧ b_id <$> blogs r.2 = b_id <$> blogs d
  ∧ b_id <$> blogs r'.2 = b_id <$> blogs d
  ∧ posts r.2 = posts d ∧ posts r'.2 = posts d.
Proof.
  cbn zeta. unfold update_blog_status, update_blog_post_count.
  destruct (get_blog_update_blog d blog_id
              (λ b, BlogRow (b_id b) (b_blog_name b) (b_author_name b)
                      (b_url b) (b_post_count b) status (b_created_at b)))
    as (H1 & H2 & H3 & H4 & H5 & _); [done|].
  destruct (get_blog_update_blog d blog_id
              (λ b, BlogRow (b_id b) (b_blog_name b) (b_author_name b)
                      (b_url b) count (b_status b) (b_created_at b)))
    as (H1' & H2' & H3' & H4' & H5' & _); [done|].
  cbn zeta in *. split_and!; try done.
  intros other Hother. split; [by apply H3|by apply H3'].
Qed.

Lemma get_post_update_post d post_id f :
  (∀ p, p_id (f p) = p_id p) →
  let r := update_post d post_id f in
  (r.1 = true ↔ is_Some (get_post d post_id))
  ∧ get_post r.2 post_id = f <$> get_post d post_id
  ∧ (∀ other, other ≠ post_id → get_post r.2 other = get_post d other)
  ∧ p_id <$> posts r.2 = p_id <$> posts d
  ∧ blogs r.2 = blogs d ∧ comments r.2 = comments d
  ∧ reactions r.2 = reactions d ∧ progress r.2 = progress d.
Proof.
  intros Hf. cbn zeta. unfold update_post, get_post. cbn.
  set (g := λ p, if bool_decide (p_id p = post_id) then f p else p).
  assert (∀ p, p_id (g p) = p_id p) as Hg.
  { intros p. unfold g. by case_bool_decide. }
  split_and!; try done.
  - apply bool_decide_eq_true.
  - rewrite filter_fmap_stable by (intros p; by rewrite Hg).
    rewrite head_fmap. destruct (head _) as [p|] eqn:Hhead; [|done].
    apply head_filter_elem in Hhead as [_ Hid]. cbn. unfold g.
    by rewrite bool_decide_true.
  - intros other Hother.
    rewrite filter_fmap_stable by (intros p; by rewrite Hg).
    rewrite head_fmap. destruct (head _) as [p|] eqn:Hhead; [|done].
    apply head_filter_elem in Hhead as [_ Hid]. cbn. unfold g.
    rewrite bool_decide_false; [done|congruence].
  - rewrite <-list_fmap_compose. apply list_fmap_ext. intros ? p _. apply Hg.
Qed.

(** X5. [update_post_content] writes the columns it is given and keeps the
    others (a column cannot be cleared); it answers [True] exactly when the
    post is stored and at least one column is given, so a call without
    columns answers [False] for a stored post too.  Other posts and the set
    of identifiers are as before. *)
Theorem update_post_content_writes_given_columns d post_id title content
    category post_date :
  let r := update_post_content d post_id title content category post_date in
  (r.1 = true
   ↔ is_Some (get_post d post_id)
     ∧ ¬ (title = None ∧ content = None ∧ category = None
          ∧ post_date = None))
  ∧ get_post r.2 post_id
    = (λ p, PostRow (p_id p) (p_blog_id p)
              (from_option Some (p_title p) title)
              (from_option Some (p_content p) content)
              (from_option Some (p_category p) category)
              (p_post_url p)
              (from_option Some (p_post_date p) post_date)
              (p_comment_count p) (p_sympathy_count p) (p_crawl_status p)
              (p_created_at p))
        <$> get_post d post_id
  ∧ (∀ other, other ≠ post_id → get_post r.2 other = get_post d other)
  ∧ p_id <$> posts r.2 = p_id <$> posts d.
Proof.
  cbn zeta.
  destruct (get_post_update_post d post_id
              (λ p, PostRow (p_id p) (p_blog_id p)
                      (from_option Some (p_title p) title)
                      (from_option Some (p_content p) content)
                      (from_option Some (p_category p) category)
                      (p_post_url p)
                      (from_option Some (p_post_date p) post_date)
                      (p_comment_count p) (p_sympathy_count p)
                      (p_crawl_status p) (p_created_at p)))
    as (H1 & H2 & H3 & H4 & _); [done|].
  cbn zeta in *.
  destruct title, content, category, post_date;
    try (unfold update_post_content; split_and!; try done;
         rewrite H1; split; [intros ?; split; [done|]; intros (?&?&?&?); done
                            |by intros [? _]]).
  unfold update_post_content. cbn [fst snd from_option]. split_and!; try done.
  - split; [done|]. intros [_ []]. done.
  - destruct (get_post d post_id) as [[]|]; done.
Qed.

Lemma filter_update_status blog_id post_id status (l : list post_row) :
  status ≠ Status.PENDING →
  filter (λ p, p_blog_id p = blog_id ∧ Some (p_crawl_status p) = Some Status.PENDING)
    ((λ p, if bool_decide (p_id p = post_id)
           then PostRow (p_id p) (p_blog_id p) (p_title p) (p_content p)
                  (p_category p) (p_post_url p) (p_post_date p)
                  (p_comment_count p) (p_sympathy_count p) status
                  (p_created_at p)
           else p) <$> l)
  = filter (λ p, p_id p ≠ post_id)
      (filter (λ p, p_blog_id p = blog_id
                    ∧ Some (p_crawl_status p) = Some Status.PENDING) l).
Proof.
  intros Hstatus. induction l as [|p l IH]; [done|]. rewrite fmap_cons.
  case_bool_decide as Hid.
  - rewrite filter_cons_False by (cbn; intros [_ [=]]; done).
    rewrite IH. destruct (decide (p_blog_id p = blog_id
                                  ∧ Some (p_crawl_status p) = Some Status.PENDING)).
    + rewrite (filter_cons_True _ p) by done.
      by rewrite filter_cons_False by (intros ?; done).
    + by rewrite (filter_cons_False _ p) by done.
  - destruct (decide (p_blog_id p = blog_id
                      ∧ Some (p_crawl_status p) = Some Status.PENDING)).
    + rewrite !(filter_cons_True _ p) by done. by rewrite IH.
    + by rewrite !(filter_cons_False _ p) by done.
Qed.

(** X6. A post whose crawl status is set to something other than [pending]
    leaves the list [get_posts_by_status(blog, 'pending')]: the list after
    the update is the list before without that post, in the same order. *)
Theorem update_post_crawl_status_leaves_pending d post_id status blog_id :
  status ≠ Status.PENDING →
  get_posts_by_status (update_post_crawl_status d post_id status).2 blog_id
    (Some Status.PENDING)
  = filter (λ p, p_id p ≠ post_id)
      (get_posts_by_status d blog_id (Some Status.PENDING)).
Proof.
  intros Hstatus. unfold get_posts_by_status, update_post_crawl_status.
  cbn. by apply filter_update_status.
Qed.

(** *** [ORDER BY] *)

Lemma insert_by_Permutation {A} (le : A → A → bool) x (l : list A) :
  insert_by le x l ≡ₚ x :: l.
Proof.
  induction l as [|y l IH]; [done|]. cbn. destruct (le x y); [done|].
  rewrite IH. apply Permutation_swap.
Qed.

Lemma order_by_Permutation {A} (le : A → A → bool) (l : list A) :
  order_by le l ≡ₚ l.
Proof.
  induction l as [|x l IH]; [done|]. cbn.
  by rewrite insert_by_Permutation, IH.
Qed.

Lemma ascending_insert_by {A} (le : A → A → bool) x (l : list A) :
  (∀ a b, le a b = false → le b a = true) →
  ascending le l → ascending le (insert_by le x l).
Proof.
  intros Htotal. induction l as [|y l IH]; [done|]. intros Hl. cbn.
  destruct (le x y) eqn:Hxy; [done|].
  destruct l as [|z l]; cbn.
  - split; [by apply Htotal|done].
  - destruct Hl as [Hyz Hl]. cbn in IH. destruct (le x z) eqn:Hxz.
    + split; [by apply Htotal|]. split; done.
    + split; [done|]. by apply IH.
Qed.

Lemma ascending_order_by {A} (le : A → A → bool) (l : list A) :
  (∀ a b, le a b = false → le b a = true) → ascending le (order_by le l).
Proof.
  intros Htotal. induction l as [|x l IH]; [done|]. cbn.
  by apply ascending_insert_by.
Qed.

Lemma leb_false_flip (a b : string) : String.leb a b = false → String.leb b a = true.
Proof. destruct (String.leb_total a b) as [H|H]; [congruence|done]. Qed.


(** X7. [get_blog_posts] returns exactly the stored posts of the blog, each
    as often as it is stored, in ascending order of [created_at];
    [get_posts_by_status] without a status, or with the empty string as
    status, returns the same posts in the order of insertion, and with a
    status a sublist of them. *)
Theorem get_blog_posts_sorted d blog_id crawl_status :
  get_blog_posts d blog_id ≡ₚ get_posts_by_status d blog_id None
  ∧ ascending (λ x y, String.leb (p_created_at x) (p_created_at y))
      (get_blog_posts d blog_id)
  ∧ (∀ p, p ∈ get_blog_posts d blog_id ↔ p ∈ posts d ∧ p_blog_id p = blog_id)
  ∧ get_posts_by_status d blog_id (Some "") = get_posts_by_status d blog_id None
  ∧ get_posts_by_status d blog_id crawl_status
    `sublist_of` get_posts_by_status d blog_id None.
Proof.
  unfold get_blog_posts. split_and!.
  - apply order_by_Permutation.
  - apply ascending_order_by. intros a b. apply leb_false_flip.
  - intros p. rewrite order_by_Permutation, list_elem_of_filter. tauto.
  - done.
  - unfold get_posts_by_status. cbn [truthy_str].
    destruct (truthy_str crawl_status); [|done].
    induction (posts d) as [|p l IH]; [done|].
    destruct (decide (p_blog_id p = blog_id)) as [Hb|Hb].
    + rewrite (filter_cons_True (λ p, p_blog_id p = blog_id)) by done.
      destruct (decide (Some (p_crawl_status p) = crawl_status)).
      * rewrite filter_cons_True by done. by constructor.
      * rewrite filter_cons_False by (intros [_ ?]; done). by constructor.
    + rewrite !filter_cons_False; [done..|]. by intros [? _].
Qed.

(** X8. [get_all_blogs] returns the stored blogs, each once per row, the
    newest [created_at] first. *)
Theorem get_all_blogs_newest_first d :
  get_all_blogs d ≡ₚ blogs d
  ∧ ascending (λ x y, String.leb (b_created_at y) (b_created_at x))
      (get_all_blogs d).
Proof.
  unfold get_all_blogs. split.
  - apply order_by_Permutation.
  - apply ascending_order_by. intros a b. apply leb_false_flip.
Qed.


(** *** Batches of reactions and comments *)

Lemma NoDup_fmap_filter {A K} (key : A → K) (P : A → Prop)
    `{!∀ x, Decision (P x)} (l : list A) :
  NoDup (key <$> l) → NoDup (key <$> filter P l).
Proof.
  induction l as [|x l IH]; [done|]. rewrite fmap_cons, NoDup_cons.
  intros [Hx Hl]. destruct (decide (P x)).
  - rewrite filter_cons_True by done. rewrite fmap_cons, NoDup_cons.
    split; [|by apply IH]. intros (y & Hy & [_ Hin]%list_elem_of_filter)%list_elem_of_fmap.
    apply Hx, list_elem_of_fmap. eauto.
  - rewrite filter_cons_False by done. by apply IH.
Qed.

Lemma replace_reaction_key d post_id reaction_type count :
  reactions_key d → reactions_key (replace_reaction d post_id reaction_type count).
Proof.
  unfold reactions_key, replace_reaction. cbn. intros Hkey.
  rewrite fmap_app. apply NoDup_app. split_and!.
  - by apply NoDup_fmap_filter.
  - intros k (r & -> & [Hr _]%list_elem_of_filter)%list_elem_of_fmap.
    cbn. rewrite list_elem_of_singleton. intros [= ? ?]. by apply Hr.
  - apply NoDup_singleton.
Qed.

Lemma add_reactions_batch_loop_rows d added batch :
  let r := add_reactions_batch_loop d added batch in
  r.1 = added + Z.of_nat (length batch)
  ∧ (∀ post_id reaction_type,
       match
         last (filter (λ i, ri_post_id i = post_id
                            ∧ ri_reaction_type i = reaction_type) batch)
       with
       | Some i =>
           ∃ id, reactions_of r.2 post_id reaction_type
                 = [ReactionRow id post_id reaction_type
                      (or_zero (ri_count i))]
       | None =>
           reactions_of r.2 post_id reaction_type
           = reactions_of d post_id reaction_type
       end)
  ∧ (reactions_key d → reactions_key r.2)
  ∧ blogs r.2 = blogs d ∧ posts r.2 = posts d ∧ comments r.2 = comments d
  ∧ progress r.2 = progress d.
Proof.
  revert d added. induction batch as [|i batch IH]; intros d added.
  - cbn. split_and!; try done. lia.
  - cbn zeta. cbn [add_reactions_batch_loop length].
    destruct (IH (replace_reaction d (ri_post_id i) (ri_reaction_type i)
                    (or_zero (ri_count i))) (added + 1))
      as (Hcount & Hrows & Hkey & Hb & Hp & Hc & Hg).
    split_and!; try done; try lia.
    + intros post_id reaction_type. specialize (Hrows post_id reaction_type).
      rewrite filter_cons.
      destruct (decide (ri_post_id i = post_id
                        ∧ ri_reaction_type i = reaction_type)) as [[<- <-]|Hne].
      * rewrite last_cons. destruct (last _) as [j|]; [done|].
        rewrite Hrows. eexists. apply reactions_of_replace.
      * destruct (last _) as [j|]; [done|].
        rewrite Hrows. apply reactions_of_replace_other.
        intros [= -> ->]. by apply Hne.
    + intros Hd. by apply Hkey, replace_reaction_key.
Qed.

(** X10. [add_reactions_batch] is an upsert per entry, taken in the order of
    the batch: it answers the size of the batch; a (post, type) pair named in
    the batch has exactly one row afterwards, with the count of its last
    entry in the batch (0 when that entry has none); the rows of the other
    pairs are as before, the uniqueness of (post, type) is kept, and no other
    table is touched. *)
Theorem add_reactions_batch_last_wins d batch :
  let r := add_reactions_batch d batch in
  r.1 = Z.of_nat (length batch)
  ∧ (∀ post_id reaction_type,
       match
         last (filter (λ i, ri_post_id i = post_id
                            ∧ ri_reaction_type i = reaction_type) batch)
       with
       | Some i =>
           ∃ id, reactions_of r.2 post_id reaction_type
                 = [ReactionRow id post_id reaction_type
                      (or_zero (ri_count i))]
       | None =>
           reactions_of r.2 post_id reaction_type
           = reactions_of d post_id reaction_type
       end)
  ∧ (reactions_key d → reactions_key r.2)
  ∧ blogs r.2 = blogs d ∧ posts r.2 = posts d ∧ comments r.2 = comments d
  ∧ progress r.2 = progress d.
Proof.
  cbn zeta. unfold add_reactions_batch.
  destruct (add_reactions_batch_loop_rows d 0 batch)
    as (Hcount & Hrows & Hkey & ? & ? & ? & ?).
  split_and!; done.
Qed.

Lemma get_comment_ignore_comment d row comment_id :
  get_comment (ignore_comment d row) comment_id
  = match get_comment d comment_id with
    | Some c => Some c
    | None => if decide (c_id row = comment_id) then Some row else None
    end.
Proof.
  unfold ignore_comment.
  destruct (get_comment d (c_id row)) as [existing|] eqn:Hrow.
  - destruct (get_comment d comment_id) eqn:Hget; [done|].
    rewrite decide_False; [done|]. intros <-. congruence.
  - unfold get_comment. cbn. rewrite filter_app, head_app.
    destruct (head (filter _ (comments d))); [done|].
    rewrite filter_singleton. by destruct (decide _).
    Unshelve. exact [].
Qed.

Lemma ignore_comment_rows d row :
  comments d `prefix_of` comments (ignore_comment d row)
  ∧ (comments_key d → comments_key (ignore_comment d row))
  ∧ blogs (ignore_comment d row) = blogs d
  ∧ posts (ignore_comment d row) = posts d
  ∧ reactions (ignore_comment d row) = reactions d
  ∧ progress (ignore_comment d row) = progress d.
Proof.
  unfold ignore_comment.
  destruct (get_comment d (c_id row)) as [existing|] eqn:Hrow; [done|].
  cbn. split_and!; try done.
  - by apply prefix_app_r.
  - unfold comments_key. cbn. intros Hkey. rewrite fmap_app.
    apply NoDup_app. split_and!; [done| |apply NoDup_singleton].
    intros id (c & -> & Hc)%list_elem_of_fmap. cbn.
    rewrite list_elem_of_singleton. intros Hid.
    unfold get_comment in Hrow. apply head_None in Hrow.
    by eapply (filter_nil_not_elem_of _ _ c).
Qed.

Lemma add_comments_batch_loop_rows d added batch :
  let r := add_comments_batch_loop d added batch in
  comments d `prefix_of` comments r.2
  ∧ (∀ comment_id,
       get_comment r.2 comment_id
       = match get_comment d comment_id with
         | Some c => Some c
         | None =>
             batch_comment_row
               <$> head (filter (λ c, ci_id c = comment_id) batch)
         end)
  ∧ (comments_key d → comments_key r.2)
  ∧ blogs r.2 = blogs d ∧ posts r.2 = posts d ∧ reactions r.2 = reactions d
  ∧ progress r.2 = progress d.
Proof.
  revert d added. induction batch as [|c batch IH]; intros d added.
  - cbn. split_and!; try done. intros id. by destruct (get_comment d id).
  - cbn zeta. cbn [add_comments_batch_loop]. fold (batch_comment_row c).
    destruct (IH (ignore_comment d (batch_comment_row c)) (added + 1))
      as (Hprefix & Hrows & Hkey & Hb & Hp & Hr & Hg).
    destruct (ignore_comment_rows d (batch_comment_row c))
      as (Hprefix' & Hkey' & Hb' & Hp' & Hr' & Hg').
    split_and!; try congruence.
    + by etrans.
    + intros id. rewrite Hrows, get_comment_ignore_comment. cbn [c_id batch_comment_row].
      rewrite filter_cons.
      destruct (get_comment d id); [done|].
      destruct (decide (ci_id c = id)); done.
    + intros Hd. by apply Hkey, Hkey'.
Qed.

(** X11. [add_comments_batch] keeps the first row of an identifier: the rows
    stored before stay as they are and in place; an identifier that was not
    stored holds, after the call, the row of its first entry in the batch,
    later entries of the batch with that identifier being ignored; an
    identifier that is neither stored nor in the batch stays absent; the
    primary key of [comments] is kept and no other table is touched. *)
Theorem add_comments_batch_first_wins d batch :
  let r := add_comments_batch d batch in
  comments d `prefix_of` comments r.2
  ∧ (∀ comment_id,
       get_comment r.2 comment_id
       = match get_comment d comment_id with
         | Some c => Some c
         | None =>
             batch_comment_row
               <$> head (filter (λ c, ci_id c = comment_id) batch)
         end)
  ∧ (comments_key d → comments_key r.2)
  ∧ blogs r.2 = blogs d ∧ posts r.2 = posts d ∧ reactions r.2 = reactions d
  ∧ progress r.2 = progress d.
Proof. apply add_comments_batch_loop_rows. Qed.

(** *** The progress table *)

(** X12. [init_progress] replaces the progress row of the blog: afterwards the
    blog has exactly one row, with the cursor 0, the given total, the stage
    [blog_info] and the given time, whatever row it had before; the rows of
    the other blogs are as before and the uniqueness of [blog_id] is kept. *)
Theorem init_progress_resets d now blog_id total_posts :
  let r := init_progress d now blog_id total_posts in
  let row :=
    ProgressRow (progress_seq d + 1) blog_id 0 total_posts
      CrawlStep.BLOG_INFO now in
  r.1 = true
  ∧ get_progress r.2 blog_id = Some row
  ∧ filter (λ g, g_blog_id g = blog_id) (progress r.2) = [row]
  ∧ (∀ other, other ≠ blog_id → get_progress r.2 other = get_progress d other)
  ∧ (progress_key d → progress_key r.2)
  ∧ blogs r.2 = blogs d ∧ posts r.2 = posts d.
Proof.
  cbn zeta. unfold init_progress, get_progress. cbn.
  assert (filter (λ g, g_blog_id g = blog_id)
            (filter (λ g, g_blog_id g ≠ blog_id) (progress d)
               ++ [ProgressRow (progress_seq d + 1) blog_id 0 total_posts
                     CrawlStep.BLOG_INFO now])
          = [ProgressRow (progress_seq d + 1) blog_id 0 total_posts
               CrawlStep.BLOG_INFO now]) as Hrows.
  { rewrite filter_app, filter_filter_nil by auto.
    by rewrite filter_cons_True. }
  split_and!; try done.
  - by rewrite Hrows.
  - intros other Hother. rewrite filter_app, filter_filter_absorb.
    + rewrite filter_cons_False by (cbn; congruence).
      by rewrite filter_nil, app_nil_r.
    + intros g _ ->. done.
  - unfold progress_key. cbn. intros Hkey. rewrite fmap_app.
    apply NoDup_app. split_and!.
    + by apply NoDup_fmap_filter.
    + intros k (g & -> & [Hg _]%list_elem_of_filter)%list_elem_of_fmap.
      cbn. by rewrite list_elem_of_singleton.
    + apply NoDup_singleton.
Qed.

(** X13. [update_progress] answers whether the blog has a progress row; it
    always stamps the row with the time of the call and writes the cursor
    and the stage only when they are given. The total, the rows of the other
    blogs and the set of rows are as before; on a blog without a row nothing
    changes. *)
Theorem update_progress_writes_given_columns d now blog_id current_post_index
    current_step :
  let r := update_progress d now blog_id current_post_index current_step in
  (r.1 = true ↔ is_Some (get_progress d blog_id))
  ∧ get_progress r.2 blog_id
    = (λ g, ProgressRow (g_id g) blog_id
              (default (g_current_post_index g) current_post_index)
              (g_total_posts g)
              (default (g_current_step g) current_step) now)
        <$> get_progress d blog_id
  ∧ (∀ other, other ≠ blog_id → get_progress r.2 other = get_progress d other)
  ∧ g_blog_id <$> progress r.2 = g_blog_id <$> progress d
  ∧ (get_progress d blog_id = None → r = (false, d)).
Proof.
  cbn zeta. unfold update_progress, get_progress. cbn [fst snd progress set_progress].
  set (g := λ g : progress_row, if bool_decide (g_blog_id g = blog_id) then _ else g).
  assert (∀ x, g_blog_id (g x) = g_blog_id x) as Hg.
  { intros x. unfold g. by case_bool_decide. }
  split_and!.
  - apply bool_decide_eq_true.
  - rewrite filter_fmap_stable by (intros x; by rewrite Hg).
    rewrite head_fmap. destruct (head _) as [x|] eqn:Hhead; [|done].
    apply head_filter_elem in Hhead as [_ Hid]. cbn. unfold g.
    rewrite bool_decide_true by done. by rewrite Hid.
  - intros other Hother.
    rewrite filter_fmap_stable by (intros x; by rewrite Hg).
    rewrite head_fmap. destruct (head _) as [x|] eqn:Hhead; [|done].
    apply head_filter_elem in Hhead as [_ Hid]. cbn. unfold g.
    rewrite bool_decide_false; [done|congruence].
  - rewrite <-list_fmap_compose. apply list_fmap_ext. intros ? x _. apply Hg.
  - intros Hnone. rewrite Hnone.
    rewrite bool_decide_false by (by intros [? ?]).
    f_equal. apply head_None in Hnone.
    assert (g <$> progress d = progress d) as ->; [|by destruct d].
    rewrite <-(list_fmap_id (progress d)) at 2. apply list_fmap_ext.
    intros ? x Hx%list_elem_of_lookup_2. unfold g. cbn.
    rewrite bool_decide_false; [done|].
    intros Hid. by eapply (filter_nil_not_elem_of _ _ x).
Qed.

(** *** Statistics and deletion *)

Lemma bind_filter_cons {A B} (Q : A → B → Prop)
    `{!∀ c p, Decision (Q c p)} (cs : list A) (p : B) (ps : list B) :
  length (c ← cs; filter (Q c) (p :: ps))
  = (length (filter (λ c, Q c p) cs) + length (c ← cs; filter (Q c) ps))%nat.
Proof.
  induction cs as [|c cs IH]; [done|].
  rewrite !bind_cons, !length_app, IH, !filter_cons.
  destruct (decide (Q c p)); cbn; lia.
Qed.

Lemma bind_filter_nil {A B} (Q : A → B → Prop)
    `{!∀ c p, Decision (Q c p)} (cs : list A) :
  (c ← cs; filter (Q c) []) = [].
Proof. induction cs as [|c cs IH]; [done|]. by rewrite bind_cons, IH. Qed.

Lemma filter_neg_all {A} (P : A → Prop) `{!∀ x, Decision (P x)}
    (l : list A) :
  filter P l = [] → filter (λ x, ¬ P x) l = l.
Proof.
  induction l as [|x l IH]; [done|]. rewrite filter_cons.
  destruct (decide (P x)); [done|]. intros Hl.
  rewrite filter_cons_True by done. by rewrite IH.
Qed.

(** X14. [get_blog_stats] agrees with the other queries: [total_posts] is the
    length of [get_blog_posts], [posts_completed] the length of
    [get_posts_by_status(blog, 'completed')] and never more than
    [total_posts], and [total_comments] is the sum of [get_comment_count]
    over the posts of the blog, so a comment whose post is not stored is not
    counted. *)
Theorem get_blog_stats_agrees d blog_id :
  let s := get_blog_stats d blog_id in
  total_posts s = Z.of_nat (length (get_blog_posts d blog_id))
  ∧ posts_completed s
    = Z.of_nat
        (length (get_posts_by_status d blog_id (Some Status.COMPLETED)))
  ∧ 0 ≤ posts_completed s ≤ total_posts s
  ∧ total_comments s
    = total ((λ p, get_comment_count d (p_id p))
               <$> get_posts_by_status d blog_id None).
Proof.
  cbn zeta. unfold get_blog_stats. cbn [total_posts posts_completed total_comments].
  split_and!.
  - unfold get_blog_posts. by rewrite order_by_Permutation.
  - unfold get_posts_by_status. cbn [truthy_str]. do 2 f_equal.
    apply list_filter_iff. intros p. split; [intros [-> ->]|intros [-> [= ->]]]; done.
  - lia.
  - apply Nat2Z.inj_le. rewrite <-(filter_filter_absorb
      (λ p, p_blog_id p = blog_id ∧ p_crawl_status p = Status.COMPLETED)
      (λ p, p_blog_id p = blog_id)) by (by intros ? _ [? _]).
    apply length_filter.
  - unfold get_posts_by_status, get_comment_count. cbn [truthy_str].
    induction (posts d) as [|p ps IH].
    + by rewrite bind_filter_nil.
    + rewrite (bind_filter_cons
                 (λ c p, c_post_id c = p_id p ∧ p_blog_id p = blog_id)).
      rewrite Nat2Z.inj_add, IH, filter_cons.
      destruct (decide (p_blog_id p = blog_id)) as [Hb|Hb].
      * cbn. do 3 f_equal. apply list_filter_iff. intros c. tauto.
      * rewrite filter_none; [done|]. intros c _ [_ ?]. done.
Qed.

(** X15. [delete_blog] answers [True] whether or not there was anything to
    delete: a second deletion of the same blog changes nothing more, the
    deletion of a blog of which nothing is stored leaves the store as it is,
    and the statistics of a deleted blog are all 0. *)
Theorem delete_blog_twice d blog_id :
  let r := delete_blog d blog_id in
  delete_blog r.2 blog_id = r
  ∧ get_blog_stats r.2 blog_id = BlogStats 0 0 0
  ∧ (get_blog d blog_id = None →
     get_posts_by_status d blog_id None = [] →
     get_progress d blog_id = None →
     r = (true, d)).
Proof.
  cbn zeta. pose proof (delete_blog_store d blog_id) as Hdel.
  cbn zeta in Hdel. rewrite Hdel. cbn [fst snd]. split_and!.
  - pose proof (delete_blog_store
      (Db (filter (λ b, b_id b ≠ blog_id) (blogs d))
         (filter (λ p, p_blog_id p ≠ blog_id) (posts d))
         (filter (λ r, r_post_id r ∉ p_id <$> filter (λ p, p_blog_id p = blog_id) (posts d))
            (reactions d))
         (reactions_seq d)
         (filter (λ c, c_post_id c ∉ p_id <$> filter (λ p, p_blog_id p = blog_id) (posts d))
            (comments d))
         (filter (λ g, g_blog_id g ≠ blog_id) (progress d))
         (progress_seq d) (ticks d)) blog_id) as Hdel2.
    cbn zeta in Hdel2. cbn [blogs posts reactions reactions_seq comments progress progress_seq ticks] in Hdel2.
    rewrite Hdel2. clear Hdel Hdel2.
    rewrite (filter_filter_nil (λ p, p_blog_id p = blog_id)) by auto.
    rewrite !(filter_filter_absorb _ _ _ (λ _ _ H, H)). cbn [fmap list_fmap].
    f_equal. f_equal.
    + apply filter_all. intros ?. apply not_elem_of_nil.
    + apply filter_all. intros ?. apply not_elem_of_nil.
  - unfold get_blog_stats. cbn [posts comments].
    rewrite (filter_filter_nil (λ p, p_blog_id p = blog_id)) by auto.
    rewrite (filter_filter_nil (λ p, p_blog_id p = blog_id ∧ _))
      by (intros ? [? _]; auto).
    cbn [length]. f_equal.
    generalize (filter (λ c, c_post_id c ∉ p_id <$> filter (λ p, p_blog_id p = blog_id) (posts d))
                  (comments d)).
    intros cs. induction cs as [|c cs IH]; [done|].
    rewrite bind_cons, length_app, filter_filter_nil by (intros ? [_ ?]; auto).
    apply IH.
  - unfold get_blog, get_posts_by_status, get_progress. cbn [truthy_str].
    intros Hb%head_None Hp Hg%head_None. f_equal.
    rewrite (filter_neg_all (λ b, b_id b = blog_id)) by done.
    rewrite (filter_neg_all (λ p, p_blog_id p = blog_id)) by done.
    rewrite (filter_neg_all (λ g, g_blog_id g = blog_id)) by done.
    rewrite Hp. cbn [fmap list_fmap].
    rewrite !filter_all by (intros ?; apply not_elem_of_nil).
    by destruct d.
Qed.

End DatabaseExtras.


(** On the store of the scenario, where [b1_2], [b1_3] and [b1_4] are
    pending: once [b1_2] is completed the pending posts are the other
    two. *)
Lemma update_post_crawl_status_leaves_pending_witness :
  Database.p_id
    <$> Database.get_posts_by_status
          (Database.update_post_crawl_status Scenario.store "b1_2"
             "completed").2
          "b1" (Some "pending")
  = ["b1_3"; "b1_4"].
Proof.
  rewrite update_post_crawl_status_leaves_pending by discriminate.
  reflexivity.
Defined.

(** ** Further properties of the progress store *)

Section HelpersExtras.
Import Helpers Spec.

Local Opaque CrawlStep.all_steps.

Lemma list_find_filter_stable {A} (P Q : A → Prop)
    `{!∀ x, Decision (P x)} `{!∀ x, Decision (Q x)} (l : list A) :
  (∀ x, P x → Q x) →
  snd <$> list_find P (filter Q l) = snd <$> list_find P l.
Proof.
  intros HPQ. induction l as [|x l IH]; [done|].
  destruct (decide (P x)) as [HP|HP].
  - rewrite filter_cons_True by auto. cbn. by rewrite !decide_True.
  - cbn [list_find]. rewrite (decide_False (P:=P x)) by done.
    rewrite <-option_fmap_compose.
    destruct (decide (Q x)).
    + rewrite filter_cons_True by done. cbn [list_find].
      rewrite decide_False by done. rewrite <-option_fmap_compose.
      etrans; [|etrans; [exact IH|]]; by destruct (list_find _ _) as [[]|].
    + rewrite filter_cons_False by done.
      etrans; [exact IH|]. by destruct (list_find _ _) as [[]|].
Qed.

Lemma filter_all_elem {A} (P : A → Prop) `{!∀ x, Decision (P x)}
    (l : list A) :
  Forall P l → filter P l = l.
Proof.
  induction 1 as [|x l HP _ IH]; [done|].
  by rewrite filter_cons_True, IH.
Qed.

(** X16. [remove_blog_from_progress] drops every record of the blog, not only
    the first one, and nothing else: afterwards the blog has no record, the
    records of the other blogs are found as before and in the same order, a
    second removal changes nothing, and a later [update_blog_progress] for
    the blog starts from a fresh record with all stages pending. The result
    always has the key [blogs]. *)
Theorem remove_blog_from_progress_forgets progress_data blog_id blog_name
    status total_posts current_post_index step step_status :
  let progress_data' := remove_blog_from_progress progress_data blog_id in
  get_blog_progress progress_data' blog_id = None
  ∧ (∀ record, record ∈ blogs_of progress_data'
       ↔ record ∈ blogs_of progress_data ∧ bp_blog_id record ≠ Some blog_id)
  ∧ blogs_of progress_data' `sublist_of` blogs_of progress_data
  ∧ (∀ other, other ≠ blog_id →
       get_blog_progress progress_data' other
       = get_blog_progress progress_data other)
  ∧ (get_blog_progress progress_data blog_id = None →
     blogs_of progress_data' = blogs_of progress_data)
  ∧ remove_blog_from_progress progress_data' blog_id = progress_data'
  ∧ get_blog_progress
      (update_blog_progress progress_data' blog_id blog_name status
         total_posts current_post_index step step_status) blog_id
    = Some (fresh_record blog_id blog_name status total_posts
              current_post_index)
  ∧ is_Some (pd_blogs progress_data')
  ∧ pd_last_updated progress_data' = pd_last_updated progress_data.
Proof.
  cbn zeta.
  assert (get_blog_progress (remove_blog_from_progress progress_data blog_id)
            blog_id = None) as Hnone.
  { rewrite get_blog_progress_find. unfold remove_blog_from_progress.
    rewrite blogs_of_Some.
    destruct (list_find _ _) as [[i r]|] eqn:Hfind; [|done].
    apply list_find_Some in Hfind as (Hin & Hid & _).
    apply list_elem_of_lookup_2, list_elem_of_filter in Hin as [Hne _].
    done. }
  split_and!; try done.
  - intros record. unfold remove_blog_from_progress.
    rewrite blogs_of_Some, list_elem_of_filter. tauto.
  - unfold remove_blog_from_progress. rewrite blogs_of_Some.
    apply sublist_filter.
  - intros other Hother. rewrite !get_blog_progress_find.
    unfold remove_blog_from_progress. rewrite blogs_of_Some.
    apply list_find_filter_stable. intros r -> [= ?]. done.
  - rewrite get_blog_progress_find. unfold remove_blog_from_progress.
    rewrite blogs_of_Some. intros Hfind.
    apply fmap_None in Hfind. rewrite list_find_None in Hfind.
    by apply filter_all_elem.
  - unfold remove_blog_from_progress at 1 3. f_equal. cbn [pd_last_updated].
    f_equal. unfold remove_blog_from_progress. rewrite blogs_of_Some.
    by rewrite (filter_filter_absorb _ _ _ (λ _ _ H, H)).
  - by apply update_blog_progress_fresh.
Qed.


(** *** [sanitize_filename] *)

Lemma lstrip_suffix chars name :
  ∃ pre, name = pre ++ lstrip chars name.
Proof.
  induction name as [|c name [pre IH]]; [by exists []|]. cbn.
  case_bool_decide; [|by exists []].
  exists (c :: pre). cbn. by rewrite <-IH.
Qed.

Lemma lstrip_head chars name c :
  head (lstrip chars name) = Some c → c ∉ chars.
Proof.
  induction name as [|c' name IH]; [done|]. cbn.
  case_bool_decide; [done|]. by intros [= <-].
Qed.

Lemma lstrip_id chars name :
  (∀ c, head name = Some c → c ∉ chars) → lstrip chars name = name.
Proof.
  destruct name as [|c name]; [done|]. cbn. intros Hhead.
  rewrite bool_decide_false; [done|]. by apply Hhead.
Qed.

Lemma strip_middle chars name :
  ∃ pre post, name = pre ++ strip chars name ++ post.
Proof.
  unfold strip. destruct (lstrip_suffix chars name) as [pre Hpre].
  destruct (lstrip_suffix chars (reverse (lstrip chars name)))
    as [post Hpost].
  exists pre, (reverse post). rewrite <-reverse_app, <-Hpost.
  by rewrite reverse_involutive.
Qed.

Lemma strip_ends chars name c :
  head (strip chars name) = Some c ∨ last (strip chars name) = Some c →
  c ∉ chars.
Proof.
  unfold strip. rewrite last_reverse. intros [Hhead|Hlast].
  - destruct (lstrip_suffix chars (reverse (lstrip chars name)))
      as [post Hpost].
    apply (lstrip_head chars name).
    rewrite <-(reverse_involutive (lstrip chars name)), Hpost, reverse_app.
    rewrite head_app, Hhead. done.
  - by eapply lstrip_head.
Qed.

Lemma strip_id chars name :
  (∀ c, head name = Some c → c ∉ chars) →
  (∀ c, last name = Some c → c ∉ chars) →
  strip chars name = name.
Proof.
  intros Hhead Hlast. unfold strip. rewrite (lstrip_id chars name) by done.
  rewrite lstrip_id; [apply reverse_involutive|].
  intros c. rewrite head_reverse. apply Hlast.
Qed.

Lemma replace_chars_pointwise name chars new :
  foldl (λ name char, str_replace name char new) name chars
  = (λ c, foldl (λ c char, if (c =? char)%N then new else c) c chars)
      <$> name.
Proof.
  revert name. induction chars as [|char chars IH]; intros name; cbn.
  - by rewrite list_fmap_id.
  - rewrite IH. unfold str_replace. by rewrite <-list_fmap_compose.
Qed.

Lemma replace_char_cases (c new : N) chars :
  let c' := foldl (λ c char, if (c =? char)%N then new else c) c chars in
  c' = c ∨ c' = new.
Proof.
  revert c. induction chars as [|char chars IH]; intros c; cbn; [by left|].
  destruct (c =? char)%N; [|apply IH].
  destruct (IH new); auto.
Qed.

Lemma replace_char_clean (c new : N) chars :
  new ∉ chars →
  foldl (λ c char, if (c =? char)%N then new else c) c chars ∉ chars.
Proof.
  revert c. induction chars as [|char chars IH]; intros c Hnew; cbn.
  - apply not_elem_of_nil.
  - apply not_elem_of_cons in Hnew as [Hne Hnew].
    apply not_elem_of_cons. split; [|by apply IH].
    destruct (c =? char)%N eqn:Hc.
    + by destruct (replace_char_cases new new chars) as [-> | ->].
    + apply N.eqb_neq in Hc.
      by destruct (replace_char_cases c new chars) as [-> | ->].
Qed.

Lemma replace_char_id (c new : N) chars :
  c ∉ chars →
  foldl (λ c char, if (c =? char)%N then new else c) c chars = c.
Proof.
  induction chars as [|char chars IH]; [done|]. cbn.
  intros [Hne Hc]%not_elem_of_cons.
  apply N.eqb_neq in Hne. rewrite Hne. by apply IH.
Qed.

(** X18. The result of [sanitize_filename] is never empty, has at most 200
    characters, holds none of the nine characters it replaces, and does not
    begin with a dot or a space. For a name of at most 200 characters it
    does not end with one either and sanitizing it again changes nothing;
    a longer name is cut after the dots and spaces are stripped, so its
    result can end with a dot, which a second call strips. *)
Theorem sanitize_filename_safe name :
  let result := sanitize_filename name in
  result ≠ []
  ∧ (length result ≤ 200)%nat
  ∧ (∀ c, c ∈ result → c ∉ invalid_chars)
  ∧ (∀ c, head result = Some c → c ∉ code_points ". ")
  ∧ ((length name ≤ 200)%nat →
     (∀ c, last result = Some c → c ∉ code_points ". ")
     ∧ sanitize_filename result = result)
  ∧ (∃ long, last (sanitize_filename long) = Some 46%N
             ∧ sanitize_filename (sanitize_filename long)
               ≠ sanitize_filename long).
Proof.
  cbn zeta.
  assert (∀ name,
    let result := sanitize_filename name in
    result ≠ []
    ∧ (length result ≤ 200)%nat
    ∧ (∀ c, c ∈ result → c ∉ invalid_chars)
    ∧ (∀ c, head result = Some c → c ∉ code_points ". ")
    ∧ ((length name ≤ 200)%nat →
       ∀ c, last result = Some c → c ∉ code_points ". ")) as Hsafe.
  { clear name. intros name. cbn zeta. unfold sanitize_filename.
    rewrite replace_chars_pointwise.
    set (name1 := _ <$> name).
    assert (∀ c, c ∈ name1 → c ∉ invalid_chars) as Hclean.
    { intros c (c0 & -> & _)%list_elem_of_fmap.
      apply replace_char_clean. apply (bool_decide_unpack _). by vm_compute. }
    assert (length name1 = length name) as Hlen by apply length_fmap.
    set (name2 := strip (code_points ". ") name1).
    destruct (strip_middle (code_points ". ") name1) as (pre & post & Hmid).
    fold name2 in Hmid.
    assert (length name2 ≤ length name)%nat as Hlen2.
    { rewrite <-Hlen, Hmid, !length_app. lia. }
    assert (∀ c, c ∈ name2 → c ∉ invalid_chars) as Hclean2.
    { intros c Hc. apply Hclean. rewrite Hmid, !elem_of_app. auto. }
    pose proof (strip_ends (code_points ". ") name1) as Hends.
    fold name2 in Hends.
    set (name3 := if (200 <? length name2)%nat then take 200 name2 else name2).
    assert (length name3 ≤ 200)%nat as Hlen3.
    { unfold name3. destruct (Nat.ltb_spec 200 (length name2)); [|done].
      rewrite length_take. lia. }
    assert (∀ c, c ∈ name3 → c ∈ name2) as Hsub.
    { unfold name3. destruct (200 <? length name2)%nat; [|done].
      intros c. apply subseteq_take. }
    assert (head name3 = head name2) as Hhead.
    { unfold name3. destruct (200 <? length name2)%nat; [|done].
      by destruct name2. }
    destruct name3 as [|c3 name3'] eqn:Hname3.
    - split_and!; try done.
      + cbn. lia.
      + apply Forall_forall. apply (bool_decide_unpack _). by vm_compute.
      + intros c [= <-]. apply (bool_decide_unpack _). by vm_compute.
      + intros _ c [= <-]. apply (bool_decide_unpack _). by vm_compute.
    - split_and!; try done.
      + intros c Hc. by apply Hclean2, Hsub.
      + intros c Hc. apply Hends. left. by rewrite <-Hhead.
      + intros Hshort c Hc. apply Hends. right.
        assert (name2 = c3 :: name3') as ->; [|done].
        unfold name3 in Hname3.
        destruct (Nat.ltb_spec 200 (length name2)); [lia|done]. }
  destruct (Hsafe name) as (Hne & Hlen & Hclean & Hhead & Hlast).
  split_and!; try done.
  - intros Hshort. split; [by apply Hlast|].
    set (result := sanitize_filename name) in *.
    unfold sanitize_filename at 1. rewrite replace_chars_pointwise.
    assert ((λ c, foldl (λ c char, if (c =? char)%N then 95%N else c) c
                    invalid_chars) <$> result = result) as ->.
    { rewrite <-(list_fmap_id result) at 2. apply list_fmap_ext.
      intros _ c Hc%list_elem_of_lookup_2. by apply replace_char_id, Hclean. }
    rewrite strip_id by auto.
    destruct (Nat.ltb_spec 200 (length result)); [lia|].
    by destruct result.
  - exists (replicate 199 97%N ++ [46; 97]%N). by vm_compute.
Qed.

End HelpersExtras.

(** ** Addresses and file names *)

Section TextExtras.
Import Helpers Spec.

Ltac by_computation := apply (bool_decide_unpack _); by vm_compute.

Lemma strip_prefix_Some prefix s t :
  strip_prefix prefix s = Some t → s = prefix ++ t.
Proof.
  revert s. induction prefix as [|p prefix IH]; intros [|c s]; cbn; try done.
  - by intros [= ->].
  - by intros [= ->].
  - destruct (N.eqb_spec p c) as [->|]; [|done].
    intros ->%IH. done.
Qed.

Lemma strip_prefix_app prefix t : strip_prefix prefix (prefix ++ t) = Some t.
Proof.
  induction prefix as [|p prefix IH]; [by destruct t|].
  cbn. by rewrite N.eqb_refl.
Qed.

Lemma take_while_app f run rest :
  Forall (λ c, f c = true) run →
  (∀ c, head rest = Some c → f c = false) →
  take_while f (run ++ rest) = run.
Proof.
  intros Hrun Hrest. induction Hrun as [|c run Hc _ IH]; cbn.
  - destruct rest as [|c rest]; [done|]. cbn. by rewrite Hrest.
  - by rewrite Hc, IH.
Qed.

Lemma group_of_app class run rest :
  run ≠ [] →
  Forall (λ c, class c = true) run →
  (∀ c, head rest = Some c → class c = false) →
  group_of class (run ++ rest) = Some run.
Proof.
  intros Hne Hrun Hrest. unfold group_of.
  rewrite take_while_app by done. by destruct run.
Qed.

Lemma group_of_Some class s blog_id :
  group_of class s = Some blog_id →
  blog_id ≠ [] ∧ Forall (λ c, class c = true) blog_id.
Proof.
  unfold group_of. intros Hgroup.
  assert (take_while class s = blog_id) as <-.
  { by destruct (take_while class s); simplify_eq. }
  split; [by destruct (take_while class s)|].
  clear Hgroup. induction s as [|c s IH]; cbn; [done|].
  destruct (class c) eqn:Hc; [|done]. by constructor.
Qed.

Lemma blog_id_parameter_Some s blog_id :
  blog_id_parameter s = Some blog_id →
  blog_id ≠ [] ∧ Forall (λ c, not_ampersand c = true) blog_id.
Proof.
  induction s as [|c s IH]; cbn [blog_id_parameter].
  - destruct (strip_prefix _ [] ≫= _) eqn:Hhere; [|done].
    intros [= ->]. apply bind_Some in Hhere as (t & _ & Hgroup).
    by eapply group_of_Some.
  - destruct (strip_prefix _ (c :: s) ≫= _) eqn:Hhere.
    + intros [= ->]. apply bind_Some in Hhere as (t & _ & Hgroup).
      by eapply group_of_Some.
    + destruct (c =? 10)%N; [done|]. apply IH.
Qed.

Lemma re_search_Some literal rest url blog_id :
  re_search literal rest url = Some blog_id →
  ∃ t, rest t = Some blog_id.
Proof.
  induction url as [|c url IH]; cbn [re_search].
  - destruct (strip_prefix _ [] ≫= _) eqn:Hhere; [|done].
    intros [= ->]. apply bind_Some in Hhere as (t & _ & Hrest). eauto.
  - destruct (strip_prefix _ (c :: url) ≫= _) eqn:Hhere; [|apply IH].
    intros [= ->]. apply bind_Some in Hhere as (t & _ & Hrest). eauto.
Qed.

Lemma re_search_miss literal rest c url :
  strip_prefix literal (c :: url) = None →
  re_search literal rest (c :: url) = re_search literal rest url.
Proof. intros Hmiss. cbn [re_search]. by rewrite Hmiss. Qed.

Lemma re_search_hit literal rest t blog_id :
  rest t = Some blog_id →
  re_search literal rest (literal ++ t) = Some blog_id.
Proof.
  intros Hrest.
  destruct (literal ++ t) as [|c url] eqn:Hurl; cbn [re_search];
    rewrite <-Hurl, strip_prefix_app; cbn; by rewrite Hrest.
Qed.

(** A literal with a character that the text does not have is not found. *)
Lemma re_search_absent literal rest url c :
  c ∈ literal → c ∉ url → re_search literal rest url = None.
Proof.
  intros Hc. induction url as [|c' url IH]; intros Hurl; cbn [re_search].
  - destruct (strip_prefix literal []) as [t|] eqn:Hhere; [|done].
    apply strip_prefix_Some in Hhere. symmetry in Hhere.
    apply app_eq_nil in Hhere as [-> _]. by apply elem_of_nil in Hc.
  - destruct (strip_prefix literal (c' :: url)) as [t|] eqn:Hhere.
    + apply strip_prefix_Some in Hhere. destruct Hurl.
      rewrite Hhere, elem_of_app. auto.
    + cbn. apply IH. by apply not_elem_of_cons in Hurl as [_ ?].
Qed.

Lemma re_search_skip literal rest scheme t c :
  head literal = Some c → c ∉ scheme →
  re_search literal rest (scheme ++ t) = re_search literal rest t.
Proof.
  intros Hhead. induction scheme as [|c' scheme IH]; [done|].
  intros [Hc Hscheme]%not_elem_of_cons.
  rewrite <-app_comm_cons, re_search_miss; [by apply IH|].
  destruct literal as [|p literal]; [done|]. injection Hhead as ->.
  cbn. by apply N.eqb_neq in Hc as ->.
Qed.

Lemma re_search_skip_text literal rest text t :
  (∀ i, (i < length text)%nat →
        strip_prefix literal (drop i text ++ t) = None) →
  re_search literal rest (text ++ t) = re_search literal rest t.
Proof.
  induction text as [|c text IH]; [done|]. intros Hmiss.
  rewrite <-app_comm_cons, re_search_miss.
  - apply IH. intros i Hi. apply (Hmiss (S i)). cbn. lia.
  - apply (Hmiss 0%nat). cbn. lia.
Qed.

Lemma id_char_not_ampersand c : id_char c = true → not_ampersand c = true.
Proof.
  unfold id_char, not_ampersand. destruct (N.eqb_spec c 38) as [->|]; done.
Qed.

Lemma extract_blog_id_loop_Some patterns url blog_id :
  extract_blog_id_loop patterns url = Some blog_id →
  (blog_id ∉ not_blog_ids)
  ∧ ∃ pattern, pattern ∈ patterns ∧ pattern url = Some blog_id.
Proof.
  induction patterns as [|pattern rest IH]; [done|].
  cbn [extract_blog_id_loop].
  destruct (pattern url) as [found|] eqn:Hfound.
  - case_bool_decide as Hknown.
    + intros [= ->]. split; [done|]. exists pattern. split; [left|done].
    + intros (? & p & ? & ?)%IH. split; [done|]. exists p. split; [by right|done].
  - intros (? & p & ? & ?)%IH. split; [done|]. exists p. split; [by right|done].
Qed.

(** X19. What [extract_blog_id] returns is never empty, holds no [&] and is
    none of the eight known paths that are not blog identifiers; a text
    without a slash, such as a bare blog identifier, gives nothing. *)
Theorem extract_blog_id_sound url :
  (∀ blog_id, extract_blog_id url = Some blog_id →
     blog_id ≠ [] ∧ (38%N ∉ blog_id) ∧ (blog_id ∉ not_blog_ids))
  ∧ (47%N ∉ url → extract_blog_id url = None).
Proof.
  split.
  - intros blog_id (Hknown & pattern & Hpattern & Hfound)%extract_blog_id_loop_Some.
    assert (blog_id ≠ [] ∧ Forall (λ c, not_ampersand c = true) blog_id)
      as [Hne Hchars].
    { unfold patterns in Hpattern.
      apply elem_of_cons in Hpattern as [->|Hpattern];
        [|apply elem_of_cons in Hpattern as [->|Hpattern];
          [|apply list_elem_of_singleton in Hpattern as ->]];
        apply re_search_Some in Hfound as [t Hfound].
      - by eapply blog_id_parameter_Some.
      - by eapply blog_id_parameter_Some.
      - apply group_of_Some in Hfound as [? Hchars]. split; [done|].
        eapply Forall_impl; [exact Hchars|]. apply id_char_not_ampersand. }
    split_and!; [done| |done].
    intros Hamp. rewrite Forall_forall in Hchars.
    by specialize (Hchars _ Hamp).
  - intros Hslash. unfold extract_blog_id, patterns.
    cbn [extract_blog_id_loop].
    rewrite !(re_search_absent _ _ url 47%N) by (done || by_computation).
    done.
Qed.

(** X20. The addresses of a blog and of its posts are read back: for
    [scheme + 'blog.naver.com/' + blog_id + rest], where the scheme has no
    [b] and no [?] (as [https://] and [https://m.]), [blog_id] is a text
    over letters, digits, [_] and [-] that is not empty and not one of the
    known paths, and [rest] is empty or begins with another character (a
    slash before the number of a post) and has no [?], [extract_blog_id]
    returns [blog_id]. *)
Theorem extract_blog_id_path scheme blog_id rest :
  98%N ∉ scheme → 63%N ∉ scheme → 63%N ∉ rest →
  blog_id ≠ [] →
  Forall (λ c, id_char c = true) blog_id →
  blog_id ∉ not_blog_ids →
  (∀ c, head rest = Some c → id_char c = false) →
  extract_blog_id (scheme ++ code_points "blog.naver.com/" ++ blog_id ++ rest)
  = Some blog_id.
Proof.
  intros Hb Hscheme Hrest Hne Hchars Hknown Hnext.
  assert (63%N ∉ scheme ++ code_points "blog.naver.com/" ++ blog_id ++ rest)
    as Hquery.
  { assert (63%N ∉ code_points "blog.naver.com/") by by_computation.
    rewrite !elem_of_app. intros [?|[?|[Hid|?]]]; try done.
    rewrite Forall_forall in Hchars. by specialize (Hchars _ Hid). }
  unfold extract_blog_id, patterns. cbn [extract_blog_id_loop].
  rewrite !(re_search_absent _ _ _ 63%N) by (done || by_computation).
  rewrite (re_search_skip _ _ scheme _ 98%N) by done.
  rewrite (re_search_hit _ _ _ blog_id) by by apply group_of_app.
  by rewrite bool_decide_true.
Qed.

(** X21. The two addresses with a query are read back: for
    [scheme + 'blog.naver.com/' + page + '.naver?blogId=' + blog_id + rest],
    where [page] is [PostList] or [PostView], the scheme has no [b],
    [blog_id] is not empty, has no [&] and is not one of the known paths,
    and [rest] is empty or begins with [&], and neither has a [?],
    [extract_blog_id] returns [blog_id]. *)
Theorem extract_blog_id_query scheme page blog_id rest :
  page = code_points "PostList" ∨ page = code_points "PostView" →
  98%N ∉ scheme →
  63%N ∉ blog_id ++ rest →
  blog_id ≠ [] →
  Forall (λ c, not_ampersand c = true) blog_id →
  blog_id ∉ not_blog_ids →
  (∀ c, head rest = Some c → c = 38%N) →
  extract_blog_id
    (scheme ++ code_points "blog.naver.com/" ++ page
       ++ code_points ".naver?blogId=" ++ blog_id ++ rest)
  = Some blog_id.
Proof.
  intros Hpage Hb Hquery Hne Hchars Hknown Hnext.
  assert (group_of not_ampersand (blog_id ++ rest) = Some blog_id) as Hgroup.
  { apply group_of_app; [done..|]. by intros c ->%Hnext. }
  assert (blog_id_parameter (code_points "blogId=" ++ blog_id ++ rest)
          = Some blog_id) as Hparameter.
  { set (s := code_points "blogId=" ++ blog_id ++ rest).
    assert (strip_prefix (code_points "blogId=") s ≫= group_of not_ampersand
            = Some blog_id) as Hhere.
    { unfold s. by rewrite strip_prefix_app. }
    destruct s; cbn [blog_id_parameter]; by rewrite Hhere. }
  unfold extract_blog_id, patterns. cbn [extract_blog_id_loop].
  destruct Hpage as [-> | ->].
  - rewrite (re_search_skip _ _ scheme _ 98%N) by done.
    change (code_points "blog.naver.com/" ++ code_points "PostList"
            ++ code_points ".naver?blogId=" ++ blog_id ++ rest)
      with (code_points "blog.naver.com/PostList.naver?"
            ++ code_points "blogId=" ++ blog_id ++ rest).
    rewrite (re_search_hit _ _ _ blog_id) by done.
    by rewrite bool_decide_true.
  - rewrite (re_search_skip _ _ scheme _ 98%N) by done.
    change (code_points "blog.naver.com/" ++ code_points "PostView"
            ++ code_points ".naver?blogId=" ++ blog_id ++ rest)
      with (code_points "blog.naver.com/PostView.naver?blogId="
            ++ blog_id ++ rest).
    rewrite re_search_skip_text.
    + rewrite (re_search_absent _ _ _ 63%N) by (done || by_computation).
      rewrite (re_search_skip _ _ scheme _ 98%N) by done.
      change (code_points "blog.naver.com/PostView.naver?blogId="
              ++ blog_id ++ rest)
        with (code_points "blog.naver.com/PostView.naver?"
              ++ code_points "blogId=" ++ blog_id ++ rest).
      rewrite (re_search_hit _ _ _ blog_id) by done.
      by rewrite bool_decide_true.
    + intros i Hi.
      do 37 (destruct i as [|i]; [reflexivity|]).
      vm_compute in Hi. lia.
Qed.

End TextExtras.

(** The address of a post on the mobile site. *)
Lemma extract_blog_id_path_witness :
  Helpers.extract_blog_id
    (Helpers.code_points "https://m." ++ Helpers.code_points "blog.naver.com/"
       ++ Helpers.code_points "my-blog_01"
       ++ Helpers.code_points "/223456789")
  = Some (Helpers.code_points "my-blog_01").
Proof.
  apply extract_blog_id_path.
  - apply (bool_decide_unpack _). vm_compute. reflexivity.
  - apply (bool_decide_unpack _). vm_compute. reflexivity.
  - apply (bool_decide_unpack _). vm_compute. reflexivity.
  - discriminate.
  - apply (bool_decide_unpack _). vm_compute. reflexivity.
  - apply (bool_decide_unpack _). vm_compute. reflexivity.
  - intros c [= <-]. reflexivity.
Defined.

(** The address of a post with its query. *)
Lemma extract_blog_id_query_witness :
  Helpers.extract_blog_id
    (Helpers.code_points "https://" ++ Helpers.code_points "blog.naver.com/"
       ++ Helpers.code_points "PostView"
       ++ Helpers.code_points ".naver?blogId=" ++ Helpers.code_points "myblog"
       ++ Helpers.code_points "&logNo=223456789")
  = Some (Helpers.code_points "myblog").
Proof.
  apply extract_blog_id_query.
  - right. reflexivity.
  - apply (bool_decide_unpack _). vm_compute. reflexivity.
  - apply (bool_decide_unpack _). vm_compute. reflexivity.
  - discriminate.
  - apply (bool_decide_unpack _). vm_compute. reflexivity.
  - apply (bool_decide_unpack _). vm_compute. reflexivity.
  - intros c [= <-]. reflexivity.
Defined.

(** ** Further properties of the orchestrator *)

Section OrchestratorExtras.
Import Helpers Main Spec.

Variable E : collaborators.

#[local] Hint Rewrite @ret_run @lift_run tick_run should_stop_run put_run
  record_event_run @with_db_run @read_db_run get_progress_data_run
  set_progress_data_run save_run : run.

Ltac run :=
  repeat (rewrite bind_run; autorewrite with run; cbv beta iota;
          cbn [progress_data db progress_file message_queue time history
               ticked fst snd]).

(** *** Post identifiers *)

Lemma after_first_underscore_None a b :
  "_"%char ∉ String.list_ascii_of_string a →
  after_first_underscore (a +:+ "_" +:+ b) = Some b.
Proof.
  induction a as [|c a IH]; [done|].
  cbn [String.list_ascii_of_string]. intros [Hc Ha]%not_elem_of_cons.
  change (String c a +:+ "_" +:+ b) with (String c (a +:+ "_" +:+ b)).
  cbn [after_first_underscore].
  destruct (Ascii.eqb_spec c "_"); [done|]. by apply IH.
Qed.

Lemma string_app_assoc (a b c : string) :
  (a +:+ b) +:+ c = a +:+ b +:+ c.
Proof.
  induction a as [|x a IH]; [done|].
  change (String x ((a +:+ b) +:+ c) = String x (a +:+ b +:+ c)).
  by f_equal.
Qed.

Lemma string_length_app (a b : string) :
  String.length (a +:+ b) = (String.length a + String.length b)%nat.
Proof.
  induction a as [|x a IH]; [done|].
  change (S (String.length (a +:+ b))
          = S (String.length a + String.length b)).
  by f_equal.
Qed.

(** X22. The crawlers name a post [blog_id + '_' + log_no], and the stages take
    the part of that name after its first underscore as the log number: this
    gives back [log_no] when the blog identifier has no underscore, and when
    it has one the rest of the blog identifier comes along, so the crawler is
    asked for a log number that is not the one of the post. *)
Theorem log_no_of_post_id blog_id log_no :
  ("_"%char ∉ String.list_ascii_of_string blog_id →
   log_no_of (blog_id +:+ "_" +:+ log_no) = log_no)
  ∧ (∀ a b, blog_id = a +:+ "_" +:+ b →
       "_"%char ∉ String.list_ascii_of_string a →
       log_no_of (blog_id +:+ "_" +:+ log_no) = b +:+ "_" +:+ log_no
       ∧ log_no_of (blog_id +:+ "_" +:+ log_no) ≠ log_no).
Proof.
  split.
  - intros Hno. unfold log_no_of. by rewrite after_first_underscore_None.
  - intros a b -> Hno.
    assert (log_no_of ((a +:+ "_" +:+ b) +:+ "_" +:+ log_no)
            = b +:+ "_" +:+ log_no) as ->.
    { unfold log_no_of.
      assert ((a +:+ "_" +:+ b) +:+ "_" +:+ log_no
              = a +:+ "_" +:+ (b +:+ "_" +:+ log_no)) as ->.
      { by rewrite string_app_assoc. }
      by rewrite after_first_underscore_None. }
    split; [done|]. intros Heq.
    apply (f_equal String.length) in Heq.
    rewrite !string_length_app in Heq. cbn in Heq. lia.
Qed.

(** *** Stopping and failing *)

Lemma crawl_steps_cons blog b_progress resume step rest success :
  _crawl_blogs_steps E blog b_progress resume (step :: rest) success
  = bind (should_stop E)
      (λ stop,
         if stop then ret success
         else
           bind (skip_completed resume b_progress step)
             (λ skip,
                if skip
                then _crawl_blogs_steps E blog b_progress resume rest success
                else
                  bind (_crawl_blogs_stage E blog b_progress step success)
                    (λ outcome,
                       match outcome with
                       | Some success' =>
                           _crawl_blogs_steps E blog b_progress resume rest
                             success'
                       | None => ret false
                       end))).
Proof. done. Qed.

(** X23. When there is no blog to crawl, or the stop flag is up at the first
    poll, [_crawl_blogs] crawls nothing: the entity store, the progress
    document and the progress file are untouched, no stage is entered and
    nothing is saved; the queue receives [crawl_finished] and nothing
    else. *)
Theorem crawl_blogs_stopped_at_once blogs resume s :
  blogs = [] ∨ should_stop_at E (time s) = true →
  let r := _crawl_blogs E blogs resume s in
  r.1 = Ret ()
  ∧ db r.2 = db s
  ∧ progress_data r.2 = progress_data s
  ∧ progress_file r.2 = progress_file s
  ∧ history r.2 = history s
  ∧ message_queue r.2 = message_queue s ++ [MsgCrawlFinished].
Proof.
  intros Hwhy r. unfold r, _crawl_blogs. destruct blogs as [|blog rest].
  - cbn [_crawl_blogs_loop]. run. done.
  - destruct Hwhy as [|Hstop]; [done|].
    cbn [_crawl_blogs_loop]. run. rewrite Hstop. run. done.
Qed.

(** X24. A resume that meets a progress record without the key
    [steps_completed] is not survived: the lookup is made outside the [try],
    so [KeyError] leaves [_crawl_blogs] at the first stage of that blog. The
    blog is then marked [in_progress] in the entity store, nothing has been
    saved, no stage has been entered, the blogs that follow are not taken up
    and [crawl_finished] is never put on the queue. *)
Theorem crawl_blogs_resume_needs_stage_map blog rest record s :
  get_blog_progress (progress_data s) (Database.b_id blog) = Some record →
  bp_steps_completed record = None →
  should_stop_at E (time s) = false →
  should_stop_at E (S (time s)) = false →
  let r := _crawl_blogs E (blog :: rest) true s in
  r.1 = Raise (KeyError "steps_completed")
  ∧ message_queue r.2
    = message_queue s
      ++ [MsgLog (LogBlogStarted (Database.b_blog_name blog));
          MsgUpdateBlogStatus (Database.b_id blog) Status.IN_PROGRESS None]
  ∧ db r.2
    = (Database.update_blog_status (db s) (Database.b_id blog)
         Status.IN_PROGRESS).2
  ∧ progress_data r.2 = progress_data s
  ∧ progress_file r.2 = progress_file s
  ∧ history r.2 = history s.
Proof.
  intros Hrecord Hsteps Hstop0 Hstop1 r. unfold r, _crawl_blogs.
  destruct (get_blog_progress_Some_ref _ _ _ Hrecord) as (ref & Href & Hderef).
  cbn [_crawl_blogs_loop]. run. rewrite Hstop0.
  unfold _crawl_blogs_body. run. rewrite Href.
  autorewrite with run. cbv beta iota.
  unfold CrawlStep.all_steps. rewrite crawl_steps_cons. run.
  rewrite Hstop1. unfold skip_completed. run.
  rewrite Hderef, Hsteps. unfold raise. cbn.
  rewrite <-!app_assoc. done.
Qed.

(** *** The order of the stages *)

Ltac quiet_step :=
  first
    [ apply quiet_ret | apply quiet_raise | apply quiet_lift
    | apply quiet_tick | apply quiet_should_stop | apply quiet_put
    | apply quiet_with_db | apply quiet_read_db
    | apply quiet_get_progress_data | apply quiet_set_progress_data
    | apply quiet_record_post | apply quiet_save
    | apply quiet_bind; [|intros ?]
    | assumption
    | match goal with
      | |- quiet (match ?x with _ => _ end) => destruct x
      end ].

Lemma emits_at_then_quiet {A B} (m : M A) (k : A → M B) s
    (P : list string → Prop) :
  emits_at m s P → (∀ a, quiet (k a)) → emits_at (bind m k) s P.
Proof.
  intros Hm Hk.
  apply (emits_at_bind m k s P (λ l, l = []) P); [done| |done|].
  - intros a s' _. apply Hk.
  - intros l1 l2 Hl1 ->. by rewrite app_nil_r.
Qed.

Lemma crawl_blogs_body_emits blog resume b_idx total_blogs s :
  emits_at (_crawl_blogs_body E blog resume b_idx total_blogs) s
    (λ l, l `sublist_of` CrawlStep.all_steps).
Proof.
  unfold _crawl_blogs_body.
  apply emits_at_bind_quiet; [quiet_step| |apply sublist_nil_l]. intros _ s1.
  apply emits_at_bind_quiet; [quiet_step| |apply sublist_nil_l]. intros _ s2.
  apply emits_at_bind_quiet; [quiet_step| |apply sublist_nil_l]. intros _ s3.
  apply emits_at_bind_quiet; [quiet_step| |apply sublist_nil_l]. intros pd s4.
  apply emits_at_bind_quiet; [repeat quiet_step| |apply sublist_nil_l].
  intros ref s5.
  apply emits_at_then_quiet; [apply crawl_steps_emits|].
  intros success. repeat quiet_step.
Qed.

Lemma crawl_blogs_loop_emits blogs resume total_blogs :
  ∀ b_idx s,
    emits_at (_crawl_blogs_loop E blogs resume b_idx total_blogs) s
      (λ l, ∃ ls, l = concat ls
                  ∧ (length ls ≤ length blogs)%nat
                  ∧ Forall (λ l, l `sublist_of` CrawlStep.all_steps) ls).
Proof.
  induction blogs as [|blog rest IH]; intros b_idx s.
  - eapply emits_at_weaken; [|apply quiet_at, quiet_ret].
    intros l ->. by exists [].
  - cbn [_crawl_blogs_loop].
    assert (∃ ls : list (list string),
              [] = concat ls ∧ (length ls ≤ length (blog :: rest))%nat
              ∧ Forall (λ l, l `sublist_of` CrawlStep.all_steps) ls) as Hnil.
    { exists []. split_and!; [done|cbn; lia|done]. }
    apply emits_at_bind_quiet; [quiet_step| |done].
    intros stop s1. destruct stop.
    { eapply emits_at_weaken; [|apply quiet_at, quiet_ret]. by intros l ->. }
    eapply emits_at_bind;
      [apply crawl_blogs_body_emits|intros _ s2 _; apply IH| |].
    + intros l Hl. exists [l]. cbn. rewrite app_nil_r.
      split_and!; [done|lia|by apply Forall_singleton].
    + intros l1 l2 Hl1 (ls & -> & Hlen & Hall). exists (l1 :: ls).
      split_and!; [done|cbn; lia|by apply Forall_cons].
Qed.

(** X25. Whatever the crawlers answer or raise and whenever the stop flag
    comes up, in either mode, [_crawl_blogs] enters the stage executors blog
    by blog: for each blog taken up, a part of the five stages in their
    fixed order, each at most once, and it takes up no more blogs than it
    was given. *)
Theorem crawl_blogs_stage_order blogs resume s :
  ∃ events per_blog,
    history (_crawl_blogs E blogs resume s).2 = history s ++ events
    ∧ executed_steps events = concat per_blog
    ∧ (length per_blog ≤ length blogs)%nat
    ∧ Forall (λ l, l `sublist_of` CrawlStep.all_steps) per_blog.
Proof.
  assert (emits_at (_crawl_blogs E blogs resume) s
            (λ l, ∃ ls, l = concat ls
                        ∧ (length ls ≤ length blogs)%nat
                        ∧ Forall (λ l, l `sublist_of` CrawlStep.all_steps) ls))
    as (events & Hhistory & per_blog & Hsteps & Hlen & Hall).
  { unfold _crawl_blogs. apply emits_at_then_quiet.
    - apply crawl_blogs_loop_emits.
    - intros _. apply quiet_put. }
  by exists events, per_blog.
Qed.

(** *** The post-list stage *)

(** X26. The post-list stage stores what the crawler lists: when the crawler
    returns posts, every one of them is stored when the stage returns
    [True], the posts stored before are as they were (their crawl status
    and content included), the post count of the blog and [total_posts] of
    its progress record are the length of the list; when the crawler returns
    no post the stage returns [False] and the two stores are untouched. *)
Theorem process_post_list_stores_posts blog s posts :
  get_post_list_at E (time s) (Database.b_id blog) = Ret posts →
  let r := _process_post_list E blog s in
  let blog_id := Database.b_id blog in
  if bool_decide (posts = []) then
    r.1 = Ret false ∧ db r.2 = db s ∧ progress_data r.2 = progress_data s
  else
    r.1 = Ret true
    ∧ (∀ p, p ∈ posts → is_Some (Database.get_post (db r.2) (ps_id p)))
    ∧ (∀ post_id, is_Some (Database.get_post (db s) post_id) →
         Database.get_post (db r.2) post_id
         = Database.get_post (db s) post_id)
    ∧ Database.b_post_count <$> Database.get_blog (db r.2) blog_id
      = (λ _, Z.of_nat (length posts)) <$> Database.get_blog (db s) blog_id
    ∧ get_blog_progress (progress_data r.2) blog_id ≫= bp_total_posts
      = Some (Z.of_nat (length posts)).
Proof.
  intros Hposts r blog_id. subst r blog_id. unfold _process_post_list. run.
  rewrite Hposts. run. destruct posts as [|p posts].
  - rewrite bool_decide_true by done. run. done.
  - rewrite bool_decide_false by done. run.
    set (listed := p :: posts).
    set (batch := (λ p, Database.PostInput (ps_id p) (Database.b_id blog)
                          (ps_title p) (ps_post_url p)) <$> listed).
    destruct (add_posts_batch_loop_rows (current_timestamp_at E) (db s) 0
                batch) as ([extra Hextra] & Hblogs & _ & _ & _ & Hall & _).
    fold (Database.add_posts_batch (current_timestamp_at E) (db s) batch)
      in Hextra, Hblogs, Hall.
    set (d1 := (Database.add_posts_batch _ (db s) batch).2) in *.
    destruct (get_blog_update_blog d1 (Database.b_id blog)
                (λ b, Database.BlogRow (Database.b_id b)
                        (Database.b_blog_name b) (Database.b_author_name b)
                        (Database.b_url b) (Z.of_nat (length listed))
                        (Database.b_status b) (Database.b_created_at b)))
      as (_ & Hget & _ & _ & Hsame & _); [done|].
    cbn zeta in Hget, Hsame.
    fold (Database.update_blog_post_count d1 (Database.b_id blog)
            (Z.of_nat (length listed))) in Hget, Hsame.
    cbn [fst snd db progress_data]. split_and!.
    + done.
    + intros q Hq. unfold Database.get_post. rewrite Hsame.
      apply (Hall (Database.PostInput (ps_id q) (Database.b_id blog)
                     (ps_title q) (ps_post_url q))).
      apply list_elem_of_fmap. by exists q.
    + intros post_id Hknown. unfold Database.get_post at 1. rewrite Hsame.
      by apply (get_post_prefix _ _ extra).
    + rewrite Hget. unfold Database.get_blog at 1 2. rewrite Hblogs.
      by destruct (head _).
    + destruct (get_blog_progress (progress_data s) (Database.b_id blog))
        as [old|] eqn:Hold.
      * by erewrite update_blog_progress_found by done.
      * by erewrite update_blog_progress_fresh by done.
Qed.

(** *** Computations that return *)

Lemma update_blog_progress_tracked progress_data blog_id blog_name status
    total_posts current_post_index step step_status :
  ∃ ref record,
    get_blog_progress_ref
      (update_blog_progress progress_data blog_id blog_name status
         total_posts current_post_index step step_status) blog_id
    = Some ref
    ∧ get_blog_progress
        (update_blog_progress progress_data blog_id blog_name status
           total_posts current_post_index step step_status) blog_id
      = Some record
    ∧ bp_status record
      = if truthy_str status then status
        else match get_blog_progress progress_data blog_id with
             | Some old => bp_status old
             | None => Some "pending"
             end.
Proof.
  destruct (get_blog_progress progress_data blog_id) as [old|] eqn:Hold.
  - pose proof (update_blog_progress_found _ _ blog_name status total_posts
                  current_post_index step step_status _ Hold) as Hnew.
    destruct (get_blog_progress_Some_ref _ _ _ Hnew) as (ref & Href & _).
    by eexists _, _.
  - pose proof (update_blog_progress_fresh _ _ blog_name status total_posts
                  current_post_index step step_status Hold) as Hnew.
    destruct (get_blog_progress_Some_ref _ _ _ Hnew) as (ref & Href & _).
    eexists _, _. split_and!; [done..|].
    cbn. by destruct status as [[|]|].
Qed.

Lemma update_blog_progress_length progress_data blog_id blog_name status
    total_posts current_post_index step step_status :
  (length (blogs_of progress_data)
   ≤ length (blogs_of (update_blog_progress progress_data blog_id blog_name
                         status total_posts current_post_index step
                         step_status)))%nat.
Proof.
  unfold update_blog_progress.
  destruct (get_blog_progress_ref _ _).
  - rewrite blogs_of_alter, length_alter. done.
  - rewrite blogs_of_Some, length_app. lia.
Qed.

Section Returns.

Variable J : progress_doc → Prop.
Hypothesis J_stamp :
  ∀ pd now, J pd → J (ProgressData (Some now) (pd_blogs pd)).
Hypothesis J_update :
  ∀ pd blog_id blog_name status total_posts current_post_index step
    step_status,
    J pd →
    J (update_blog_progress pd blog_id blog_name status total_posts
         current_post_index step step_status).

Lemma returns_weaken {A} (m : M A) (P Q : A → Prop) :
  returns J m P → (∀ a, P a → Q a) → returns J m Q.
Proof.
  intros Hm HPQ s Hs. destruct (Hm s Hs) as (a & s' & ? & ? & ?). eauto 6.
Qed.

Lemma returns_ret {A} (a : A) (Q : A → Prop) : Q a → returns J (ret a) Q.
Proof. intros HQ s Hs. by exists a, s. Qed.

Lemma returns_bind {A B} (m : M A) (k : A → M B) (P : A → Prop)
    (Q : B → Prop) :
  returns J m P → (∀ a, P a → returns J (k a) Q) → returns J (bind m k) Q.
Proof.
  intros Hm Hk s Hs. destruct (Hm s Hs) as (a & s1 & Hrun & Hs1 & Ha).
  destruct (Hk a Ha s1 Hs1) as (b & s2 & Hrun' & Hs2 & Hb).
  exists b, s2. rewrite bind_run, Hrun. done.
Qed.

Lemma returns_then {A B} (m : M A) (k : A → M B) (Q : B → Prop) :
  returns J m (λ _, True) → (∀ a, returns J (k a) Q) →
  returns J (bind m k) Q.
Proof. intros Hm Hk. eapply returns_bind; [exact Hm|]. intros a _. apply Hk. Qed.

Lemma returns_try_except {A} (m : M A) (handler : exn → M A)
    (Q : A → Prop) :
  returns J m Q → returns J (try_except m handler) Q.
Proof.
  intros Hm s Hs. destruct (Hm s Hs) as (a & s' & Hrun & ? & ?).
  exists a, s'. unfold try_except. by rewrite Hrun.
Qed.

Lemma returns_tick : returns J tick (λ _, True).
Proof. intros s Hs. by eexists _, _. Qed.

Lemma returns_should_stop : returns J (should_stop E) (λ _, True).
Proof. intros s Hs. rewrite should_stop_run. by eexists _, _. Qed.

Lemma returns_put m : returns J (put m) (λ _, True).
Proof. intros s Hs. by eexists _, _. Qed.

Lemma returns_record_event e : returns J (record_event e) (λ _, True).
Proof. intros s Hs. by eexists _, _. Qed.

Lemma returns_with_db {A} (f : Database.db → A * Database.db) :
  returns J (with_db f) (λ _, True).
Proof. intros s Hs. rewrite with_db_run. by eexists _, _. Qed.

Lemma returns_read_db {A} (f : Database.db → A) :
  returns J (read_db f) (λ _, True).
Proof. intros s Hs. by eexists _, _. Qed.

Lemma returns_get_progress_data : returns J get_progress_data J.
Proof. intros s Hs. by eexists _, _. Qed.

Lemma returns_update blog_id blog_name status total_posts
    current_post_index step step_status :
  returns J
    (set_progress_data
       (λ pd, update_blog_progress pd blog_id blog_name status total_posts
                current_post_index step step_status))
    (λ _, True).
Proof.
  intros s Hs. eexists _, _. split; [done|]. split; [|done]. cbn.
  by apply J_update.
Qed.

Lemma returns_save : returns J (save E) (λ _, True).
Proof.
  intros s Hs. rewrite save_run. eexists _, _. split; [done|].
  split; [|done]. cbn. by apply J_stamp.
Qed.

Lemma returns_lift {A} (r : result A) :
  (∃ a, r = Ret a) → returns J (lift r) (λ _, True).
Proof. intros [a ->] s Hs. by eexists _, _. Qed.

Ltac returns_step :=
  first
    [ apply returns_ret; done
    | apply returns_then;
      [first [ apply returns_tick | apply returns_should_stop
             | apply returns_put | apply returns_record_event
             | apply returns_with_db | apply returns_read_db
             | apply returns_update | apply returns_save ]
      |intros ?]
    | eapply returns_weaken;
      [first [ apply returns_tick | apply returns_should_stop
             | apply returns_put | apply returns_record_event
             | apply returns_with_db | apply returns_read_db
             | apply returns_update | apply returns_save ]
      |done] ].

(** The tail of a stage that has been executed. *)
Lemma returns_stage_mark blog_id step (success' : bool) :
  returns J
    (bind
       (if success' then
          bind (should_stop E)
            (λ stop',
               if stop' then ret ()
               else
                 bind
                   (set_progress_data
                      (λ pd, update_blog_progress pd blog_id None None None
                               None (Some step) (Some "completed")))
                   (λ _, bind (save E) (λ _, ret ())))
        else ret ())
       (λ _, ret (Some success')))
    (λ o, o = Some success').
Proof.
  apply returns_then; [|intros ?; by apply returns_ret].
  destruct success'; [|by apply returns_ret].
  apply returns_then; [apply returns_should_stop|]. intros [].
  - by apply returns_ret.
  - repeat returns_step.
Qed.

Section NeverStopped.

Hypothesis no_stop : ∀ t, should_stop_at E t = false.
Hypothesis blog_info_returns : ∀ t b, ∃ r, get_blog_info_at E t b = Ret r.
Hypothesis post_list_returns : ∀ t b, ∃ r, get_post_list_at E t b = Ret r.
Hypothesis post_content_returns :
  ∀ t b l, ∃ r, get_post_content_at E t b l = Ret r.
Hypothesis reactions_return : ∀ t b l, ∃ r, get_reactions_at E t b l = Ret r.
Hypothesis comments_return : ∀ t b l, ∃ r, get_comments_at E t b l = Ret r.

Lemma returns_no_stop : returns J (should_stop E) (λ stop, stop = false).
Proof. intros s Hs. rewrite should_stop_run. by eexists _, _. Qed.

Lemma process_blog_info_returns blog :
  returns J (_process_blog_info E blog) (λ _, True).
Proof.
  unfold _process_blog_info. returns_step.
  apply returns_then; [by apply returns_lift|]. intros [info|].
  - repeat returns_step.
  - by apply returns_ret.
Qed.

Lemma process_post_list_returns blog :
  returns J (_process_post_list E blog) (λ _, True).
Proof.
  unfold _process_post_list. do 2 returns_step.
  apply returns_then; [by apply returns_lift|]. intros [|p posts].
  - repeat returns_step.
  - repeat returns_step.
Qed.

Lemma process_post_content_loop_returns blog_id total posts :
  ∀ i, returns J (_process_post_content_loop E blog_id total i posts)
         (λ _, True).
Proof.
  induction posts as [|post rest IH]; intros i; cbn [_process_post_content_loop].
  - by apply returns_ret.
  - returns_step. destruct a; [by apply returns_ret|].
    do 2 returns_step.
    apply returns_then; [by apply returns_lift|]. intros content_data.
    apply returns_then.
    { destruct content_data; repeat returns_step. }
    intros _. do 4 returns_step. apply IH.
Qed.

Lemma add_reactions_returns post_id reactions :
  returns J (add_reactions post_id reactions) (λ _, True).
Proof.
  induction reactions as [|[reaction_type count] rest IH];
    cbn [add_reactions].
  - by apply returns_ret.
  - returns_step. apply IH.
Qed.

Lemma process_reactions_loop_returns blog_id total posts :
  ∀ i, returns J (_process_reactions_loop E blog_id total i posts)
         (λ _, True).
Proof.
  induction posts as [|post rest IH]; intros i; cbn [_process_reactions_loop].
  - by apply returns_ret.
  - returns_step. destruct a; [by apply returns_ret|].
    do 2 returns_step.
    apply returns_then; [by apply returns_lift|]. intros reaction_data.
    apply returns_then.
    { destruct reaction_data; [|by apply returns_ret].
      returns_step. apply add_reactions_returns. }
    intros _. do 2 returns_step. apply IH.
Qed.

Lemma process_reactions_returns blog :
  returns J (_process_reactions E blog) (λ _, True).
Proof.
  unfold _process_reactions. returns_step. destruct a as [|p posts].
  - by apply returns_ret.
  - returns_step.
    apply returns_then; [apply process_reactions_loop_returns|]. intros _.
    repeat returns_step.
Qed.

Lemma process_comments_loop_returns blog_id total posts :
  ∀ i, returns J (_process_comments_loop E blog_id total i posts)
         (λ _, True).
Proof.
  induction posts as [|post rest IH]; intros i; cbn [_process_comments_loop].
  - by apply returns_ret.
  - returns_step. destruct a; [by apply returns_ret|].
    do 2 returns_step.
    apply returns_then; [by apply returns_lift|]. intros comments.
    apply returns_then.
    { destruct comments; repeat returns_step. }
    intros _. do 2 returns_step. apply IH.
Qed.

(** The last stage reports success whenever it is not stopped. *)
Lemma process_comments_returns blog :
  returns J (_process_comments E blog) (λ success, success = true).
Proof.
  unfold _process_comments. returns_step. destruct a as [|p posts].
  - by apply returns_ret.
  - returns_step.
    apply returns_then; [apply process_comments_loop_returns|]. intros _.
    eapply returns_bind; [apply returns_no_stop|]. intros stop ->.
    by apply returns_ret.
Qed.

Variable b_progress : nat.
Hypothesis J_ref : ∀ pd, J pd → is_Some (deref pd b_progress).

Lemma process_post_content_returns blog :
  returns J (_process_post_content E blog b_progress) (λ _, True).
Proof.
  unfold _process_post_content. returns_step. destruct a as [|p posts].
  - by apply returns_ret.
  - eapply returns_bind; [apply returns_get_progress_data|].
    intros pd [record Hrecord]%J_ref. rewrite Hrecord.
    returns_step.
    apply returns_then; [apply process_post_content_loop_returns|].
    intros _. repeat returns_step.
Qed.

Lemma execute_step_returns step blog success :
  returns J (execute_step E step blog b_progress success)
    (λ success', step = CrawlStep.COMMENTS → success' = true).
Proof.
  unfold execute_step. repeat case_bool_decide; subst.
  - returns_step. eapply returns_weaken; [apply process_blog_info_returns|].
    by intros ? _ [=].
  - returns_step. eapply returns_weaken; [apply process_post_list_returns|].
    by intros ? _ [=].
  - returns_step.
    eapply returns_weaken; [apply process_post_content_returns|].
    by intros ? _ [=].
  - returns_step. eapply returns_weaken; [apply process_reactions_returns|].
    by intros ? _ [=].
  - returns_step. eapply returns_weaken; [apply process_comments_returns|].
    by intros ? -> _.
  - by apply returns_ret.
Qed.

Lemma crawl_blogs_stage_returns blog step success :
  returns J (_crawl_blogs_stage E blog b_progress step success)
    (λ outcome,
       ∃ success', outcome = Some success'
                   ∧ (step = CrawlStep.COMMENTS → success' = true)).
Proof.
  unfold _crawl_blogs_stage. do 3 returns_step.
  apply returns_try_except.
  eapply returns_bind; [apply execute_step_returns|]. intros success' Hlast.
  eapply returns_weaken; [apply returns_stage_mark|]. intros ? ->. eauto.
Qed.

(** A run over stages that end with [comments] reports success. *)
Lemma crawl_blogs_steps_returns blog steps :
  ∀ success,
    returns J
      (_crawl_blogs_steps E blog b_progress false
         (steps ++ [CrawlStep.COMMENTS]) success)
      (λ success', success' = true).
Proof.
  induction steps as [|step steps IH]; intros success.
  - rewrite app_nil_l, crawl_steps_cons.
    eapply returns_bind; [apply returns_no_stop|]. intros ? ->.
    unfold skip_completed.
    eapply returns_bind;
      [by apply (returns_ret false (λ skip, skip = false))|].
    intros ? ->.
    eapply returns_bind; [apply crawl_blogs_stage_returns|].
    intros ? (success' & -> & Hlast). rewrite Hlast by done.
    by apply returns_ret.
  - rewrite <-app_comm_cons, crawl_steps_cons.
    eapply returns_bind; [apply returns_no_stop|]. intros ? ->.
    unfold skip_completed.
    eapply returns_bind;
      [by apply (returns_ret false (λ skip, skip = false))|].
    intros ? ->.
    eapply returns_bind; [apply crawl_blogs_stage_returns|].
    intros ? (success' & -> & _). apply IH.
Qed.

End NeverStopped.

Section AnyCollaborators.

Hypothesis J_any : ∀ pd, J pd.




End AnyCollaborators.

End Returns.

(** *** One blog *)

(** The body of the loop over the blogs comes down to the loop over the
    stages, run with a reference to the record of the blog, and what follows
    that loop. *)
Lemma crawl_blogs_body_split blog resume b_idx total_blogs s
    (P : result unit * app → Prop) :
  (∀ ref s1,
     get_blog_progress_ref (progress_data s1) (Database.b_id blog)
     = Some ref →
     P (bind
          (_crawl_blogs_steps E blog ref resume CrawlStep.all_steps true)
          (λ success,
             bind (if success then should_stop E else ret true)
               (λ stopped,
                  bind
                    (if negb stopped then
                       bind
                         (with_db
                            (λ d, Database.update_blog_status d
                                    (Database.b_id blog) Status.COMPLETED))
                         (λ _,
                            bind
                              (set_progress_data
                                 (λ pd, update_blog_progress pd
                                          (Database.b_id blog) None
                                          (Some "completed") None None None
                                          None))
                              (λ _,
                                 bind
                                   (put
                                      (MsgUpdateBlogStatus
                                         (Database.b_id blog)
                                         Status.COMPLETED None))
                                   (λ _,
                                      put
                                        (MsgLog
                                           (LogBlogCompleted
                                              (Database.b_blog_name blog))))))
                     else
                       put
                         (MsgLog
                            (LogBlogInterrupted (Database.b_blog_name blog))))
                    (λ _,
                       bind (save E)
                         (λ _,
                            put
                              (MsgProgress (Z.of_nat b_idx + 1)
                                 total_blogs))))) s1)) →
  P (_crawl_blogs_body E blog resume b_idx total_blogs s).
Proof.
  intros HP. unfold _crawl_blogs_body. run.
  destruct (get_blog_progress_ref (progress_data s) (Database.b_id blog))
    as [ref|] eqn:Href.
  - autorewrite with run. cbv beta iota. by apply HP.
  - run.
    destruct (update_blog_progress_tracked (progress_data s)
                (Database.b_id blog) (Some (Database.b_blog_name blog))
                (Some "in_progress") (Some (Database.b_post_count blog))
                None None None) as (ref & record & Href' & _).
    rewrite Href'. autorewrite with run. cbv beta iota. by apply HP.
Qed.




Lemma get_blog_progress_stamp last_updated doc blog_id :
  get_blog_progress (ProgressData last_updated (pd_blogs doc)) blog_id
  = get_blog_progress doc blog_id.
Proof. by rewrite !get_blog_progress_find. Qed.

(** X28. In a run that is not a resume, with the stop flag never up and
    crawlers that raise nothing, a blog is marked [completed] whatever the
    stages found: the outcome of the run is the outcome of the last stage,
    [comments], which succeeds whenever it is not stopped, so a blog whose
    information or post list could not be fetched is reported as completed
    too, in the progress document, in the entity store and on the queue. *)
Theorem crawl_blogs_marks_blog_completed blog s :
  (∀ t, should_stop_at E t = false) →
  (∀ t b, ∃ r, get_blog_info_at E t b = Ret r) →
  (∀ t b, ∃ r, get_post_list_at E t b = Ret r) →
  (∀ t b l, ∃ r, get_post_content_at E t b l = Ret r) →
  (∀ t b l, ∃ r, get_reactions_at E t b l = Ret r) →
  (∀ t b l, ∃ r, get_comments_at E t b l = Ret r) →
  let r := _crawl_blogs E [blog] false s in
  r.1 = Ret ()
  ∧ get_blog_progress (progress_data r.2) (Database.b_id blog) ≫= bp_status
    = Some "completed"
  ∧ (∀ row, Database.get_blog (db r.2) (Database.b_id blog) = Some row →
       Database.b_status row = Status.COMPLETED)
  ∧ MsgUpdateBlogStatus (Database.b_id blog) Status.COMPLETED None
    ∈ message_queue r.2
  ∧ last (message_queue r.2) = Some MsgCrawlFinished.
Proof.
  intros Hstop Hinfo Hlist Hcontent Hreactions Hcomments r.
  assert (∃ s',
    _crawl_blogs_body E blog false 0 1 (ticked s) = (Ret (), s')
    ∧ get_blog_progress (progress_data s') (Database.b_id blog) ≫= bp_status
      = Some "completed"
    ∧ (∀ row, Database.get_blog (db s') (Database.b_id blog) = Some row →
         Database.b_status row = Status.COMPLETED)
    ∧ MsgUpdateBlogStatus (Database.b_id blog) Status.COMPLETED None
      ∈ message_queue s') as (s' & Hbody & Hstatus & Hrow & Hmsg).
  { apply crawl_blogs_body_split. intros ref s1 Href.
    apply get_blog_progress_ref_Some in Href as (record & _ & Hderef & _).
    destruct (crawl_blogs_steps_returns (λ pd, is_Some (deref pd ref)))
      with (b_progress := ref) (blog := blog)
           (steps := [CrawlStep.BLOG_INFO; CrawlStep.POST_LIST;
                      CrawlStep.POST_CONTENT; CrawlStep.REACTIONS])
           (success := true) (s := s1)
      as (success & s2 & Hsteps & _ & ->); try done.
    { intros pd * [record' Hrecord']. apply lookup_lt_is_Some.
      eapply Nat.lt_le_trans; [|apply update_blog_progress_length].
      apply lookup_lt_is_Some. by exists record'. }
    change ([CrawlStep.BLOG_INFO; CrawlStep.POST_LIST;
             CrawlStep.POST_CONTENT; CrawlStep.REACTIONS]
            ++ [CrawlStep.COMMENTS]) with CrawlStep.all_steps in Hsteps.
    rewrite bind_run, Hsteps. run. rewrite Hstop. cbn [negb].
    autorewrite with run. cbv beta iota. run.
    eexists. split; [done|].
    cbn [progress_data db message_queue]. split_and!.
    - rewrite get_blog_progress_stamp.
      destruct (update_blog_progress_tracked (progress_data s2)
                  (Database.b_id blog) None (Some "completed") None None
                  None None) as (ref' & record' & _ & -> & Hstatus).
      done.
    - intros row.
      destruct (get_blog_update_blog (db s2) (Database.b_id blog)
                  (λ b, Database.BlogRow (Database.b_id b)
                          (Database.b_blog_name b)
                          (Database.b_author_name b) (Database.b_url b)
                          (Database.b_post_count b) Status.COMPLETED
                          (Database.b_created_at b)))
        as (_ & Hget & _); [done|].
      cbn zeta in Hget. unfold Database.update_blog_status.
      rewrite Hget. destruct (Database.get_blog (db s2) _); [|done].
      by intros [= <-].
    - set_solver. }
  unfold r, _crawl_blogs. cbn [_crawl_blogs_loop length]. run.
  rewrite Hstop, bind_run, Hbody. run. cbn [fst snd progress_data db message_queue].
  split_and!; try done.
  - set_solver.
  - apply last_snoc.
Qed.

End OrchestratorExtras.

(** The run on the scenario with a site whose blog information and post
    list cannot be fetched: the two stages stay [in_progress] in the stage
    map and the blog is completed. *)
Lemma crawl_blogs_marks_blog_completed_witness :
  let site :=
    Main.Collaborators (λ _, false) (λ _ _, Helpers.Ret None)
      (λ _ _, Helpers.Ret []) (λ _ _ _, Helpers.Ret None)
      (λ _ _ _, Helpers.Ret None) (λ _ _ _, Helpers.Ret [])
      (λ _, "2026-01-27T00:00:00") (λ _, true) (λ _, "2026-01-27 00:00:00")
      (λ _, []) in
  let r := Main._crawl_blogs site [Scenario.blog] false Scenario.start in
  let record := Helpers.get_blog_progress (Main.progress_data r.2) "b1" in
  r.1 = Helpers.Ret ()
  ∧ record ≫= Helpers.bp_status = Some "completed"
  ∧ (record ≫= λ b, Helpers.steps_of b !! "blog_info") = Some "in_progress"
  ∧ (record ≫= λ b, Helpers.steps_of b !! "post_list") = Some "in_progress".
Proof.
  cbn zeta.
  destruct (crawl_blogs_marks_blog_completed
              (Main.Collaborators (λ _, false) (λ _ _, Helpers.Ret None)
                 (λ _ _, Helpers.Ret []) (λ _ _ _, Helpers.Ret None)
                 (λ _ _ _, Helpers.Ret None) (λ _ _ _, Helpers.Ret [])
                 (λ _, "2026-01-27T00:00:00") (λ _, true)
                 (λ _, "2026-01-27 00:00:00") (λ _, []))
              Scenario.blog Scenario.start
              (λ _, eq_refl) (λ _ _, ex_intro _ _ eq_refl)
              (λ _ _, ex_intro _ _ eq_refl) (λ _ _ _, ex_intro _ _ eq_refl)
              (λ _ _ _, ex_intro _ _ eq_refl)
              (λ _ _ _, ex_intro _ _ eq_refl))
    as (Hret & Hstatus & _).
  split; [exact Hret|]. split; [exact Hstatus|].
  split; vm_compute; reflexivity.
Defined.

(** The scenario with the stop flag up from the start. *)
Lemma crawl_blogs_stopped_at_once_witness :
  let r :=
    Main._crawl_blogs (Scenario.site true) [Scenario.blog] true
      Scenario.start in
  r.1 = Helpers.Ret ()
  ∧ Main.db r.2 = Scenario.store
  ∧ Main.history r.2 = []
  ∧ Main.message_queue r.2 = [Main.MsgCrawlFinished].
Proof.
  destruct (crawl_blogs_stopped_at_once (Scenario.site true) [Scenario.blog]
              true Scenario.start (or_intror eq_refl))
    as (Hret & Hdb & _ & _ & Hhistory & Hqueue).
  split; [exact Hret|]. split; [exact Hdb|]. split; [exact Hhistory|].
  exact Hqueue.
Defined.

(** The post-list stage on the scenario, whose crawler lists one post. *)
Lemma process_post_list_stores_posts_witness :
  let r :=
    Main._process_post_list (Scenario.site false) Scenario.blog
      Scenario.start in
  r.1 = Helpers.Ret true
  ∧ is_Some (Database.get_post (Main.db r.2) "b1_1")
  ∧ Helpers.get_blog_progress (Main.progress_data r.2) "b1"
      ≫= Helpers.bp_total_posts
    = Some 1.
Proof.
  pose proof (process_post_list_stores_posts (Scenario.site false)
                Scenario.blog Scenario.start
                [Main.PostSummary "b1_1" None None] eq_refl) as Hstage.
  cbn zeta in Hstage. rewrite bool_decide_false in Hstage by discriminate.
  destruct Hstage as (Hret & Hall & _ & _ & Htotal).
  split; [exact Hret|]. split; [|exact Htotal].
  apply (Hall (Main.PostSummary "b1_1" None None)). left.
Defined.

(** The scenario with a progress record that has lost its stage map. *)
Lemma crawl_blogs_resume_needs_stage_map_witness :
  let record :=
    Helpers.BlogProgress (Some "b1") (Some "B") (Some "in_progress") (Some 4)
      (Some 1) None in
  let s :=
    Main.App (Helpers.ProgressData None (Some [record])) Scenario.store
      Helpers.Absent [] 0 [] in
  let r := Main._crawl_blogs (Scenario.site false) [Scenario.blog] true s in
  r.1 = Helpers.Raise (Helpers.KeyError "steps_completed")
  ∧ Main.message_queue r.2
    = [Main.MsgLog (Main.LogBlogStarted "B");
       Main.MsgUpdateBlogStatus "b1" "in_progress" None]
  ∧ Main.history r.2 = [].
Proof.
  cbn zeta.
  destruct (crawl_blogs_resume_needs_stage_map (Scenario.site false)
              Scenario.blog []
              (Helpers.BlogProgress (Some "b1") (Some "B")
                 (Some "in_progress") (Some 4) (Some 1) None)
              (Main.App
                 (Helpers.ProgressData None
                    (Some [Helpers.BlogProgress (Some "b1") (Some "B")
                             (Some "in_progress") (Some 4) (Some 1) None]))
                 Scenario.store Helpers.Absent [] 0 [])
              eq_refl eq_refl eq_refl eq_refl)
    as (Hret & Hqueue & _ & _ & _ & Hhistory).
  split; [exact Hret|]. split; [exact Hqueue|]. exact Hhistory.
Defined.

(** ** The blogs handed to the worker *)

Section SelectionExtras.
Import Helpers Main Spec.





End SelectionExtras.
